(** * p5.js sketch runtime: core lifecycle and 2D primitives

    A shallow embedding of [src/core/core.js] and
    [src/shape/2d_primitives.js].  JavaScript objects used as property
    bags (the p5 instance, [window], [p5.prototype], the [constants]
    module) are finite maps from property names to values; the host's
    timers, animation frames and outstanding asynchronous requests are
    explicit components of the state, and the host's event loop is a
    step function over an event type. *)

From Stdlib Require Import ZArith QArith Qround Qabs Lia List String.
From stdpp Require Import base option gmap strings list fin_maps.

Local Open Scope string_scope.
Local Open Scope list_scope.
Local Open Scope Z_scope.

(* ===================================================================== *)
(** * JavaScript values *)
(* ===================================================================== *)

Module JS.

(** Numbers.  Finite doubles are rationals (the two zeros are
    identified); the three non-finite doubles are kept apart, because
    the code divides by differences of clock readings.  The four
    operations below are exact; the rounding that ends the exactness of
    an integer counter at 2^53 is [to_double], applied by [js_add]. *)
Inductive number : Type :=
  | Finite (q : Q)
  | PosInf
  | NegInf
  | NaN.

Definition of_Z (z : Z) : number := Finite (inject_Z z).
Definition of_nat (n : nat) : number := of_Z (Z.of_nat n).

Definition is_finite (n : number) : bool :=
  match n with Finite _ => true | _ => false end.

Definition num_is_zero (n : number) : bool :=
  match n with Finite q => Qeq_bool q 0 | _ => false end.

Definition num_eqb (a b : number) : bool :=
  match a, b with
  | Finite p, Finite q => Qeq_bool p q
  | PosInf, PosInf => true
  | NegInf, NegInf => true
  | _, _ => false
  end.

Definition num_neg (a : number) : number :=
  match a with
  | Finite q => Finite (Qopp q)
  | PosInf => NegInf
  | NegInf => PosInf
  | NaN => NaN
  end.

Definition num_add (a b : number) : number :=
  match a, b with
  | NaN, _ | _, NaN => NaN
  | Finite p, Finite q => Finite (Qplus p q)
  | PosInf, NegInf | NegInf, PosInf => NaN
  | PosInf, _ | _, PosInf => PosInf
  | NegInf, _ | _, NegInf => NegInf
  end.

Definition num_sub (a b : number) : number := num_add a (num_neg b).

Definition num_mul (a b : number) : number :=
  match a, b with
  | NaN, _ | _, NaN => NaN
  | Finite p, Finite q => Finite (Qmult p q)
  | Finite p, PosInf | PosInf, Finite p =>
      match Qnum p ?= 0 with Eq => NaN | Gt => PosInf | Lt => NegInf end
  | Finite p, NegInf | NegInf, Finite p =>
      match Qnum p ?= 0 with Eq => NaN | Gt => NegInf | Lt => PosInf end
  | PosInf, PosInf | NegInf, NegInf => PosInf
  | PosInf, NegInf | NegInf, PosInf => NaN
  end.

(** [a / b].  A finite non-zero dividend over zero is an infinity of the
    dividend's sign, zero over zero is [NaN]. *)
Definition num_div (a b : number) : number :=
  match a, b with
  | NaN, _ | _, NaN => NaN
  | Finite p, Finite q =>
      match Qnum q ?= 0 with
      | Eq => match Qnum p ?= 0 with Eq => NaN | Gt => PosInf | Lt => NegInf end
      | _ => Finite (Qdiv p q)
      end
  | Finite _, PosInf | Finite _, NegInf => Finite 0
  | PosInf, Finite q => if 0 <=? Qnum q then PosInf else NegInf
  | NegInf, Finite q => if 0 <=? Qnum q then NegInf else PosInf
  | _, _ => NaN
  end.

(** [a > b] *)
Definition num_gt (a b : number) : bool :=
  match a, b with
  | NaN, _ | _, NaN => false
  | Finite p, Finite q => negb (Qle_bool p q)
  | PosInf, PosInf => false
  | PosInf, _ => true
  | Finite _, NegInf => true
  | _, _ => false
  end.

(** Up to [2^53] every integer is a double. *)
Definition two53 : Z := 9007199254740992.

(** The double nearest to a rational [x] of magnitude above 2^53.  The
    doubles there are the multiples of a power of two [u >= 2], the
    spacing of the binade of [x]; a tie goes to the even multiple. *)
Definition nearest_double (x : Q) : Q :=
  let u := 2 ^ (Z.log2 (Qfloor (Qabs x)) - 52) in
  let q := Qfloor (Qdiv x (inject_Z u)) in
  let r := Qminus x (inject_Z (q * u)) in
  let m := match Qcompare (Qmult 2 r) (inject_Z u) with
           | Lt => q
           | Gt => q + 1
           | Eq => if Z.even q then q else q + 1
           end in
  inject_Z (m * u).

(** The result of an operation as a double: kept as it is up to 2^53 in
    magnitude (integers are exact there; the rounding of fractions is
    not modelled), rounded to the nearest double above, and an infinity
    from 2^1024 on. *)
Definition to_double (a : number) : number :=
  match a with
  | Finite x =>
      if Qle_bool (Qabs x) (inject_Z two53) then a
      else
        let y := nearest_double x in
        if Qle_bool (inject_Z (2 ^ 1024)) (Qabs y)
        then (if Qle_bool 0 x then PosInf else NegInf)
        else Finite y
  | _ => a
  end.

(** [Math.round]: the nearest integer, halves rounded up. *)
Definition math_round (a : number) : number :=
  match a with
  | Finite q => of_Z (Qfloor (Qplus q (1 # 2)))
  | _ => a
  end.

(** What a user callback does, as far as this runtime can observe it.
    A user callback is a straight-line sequence of such commands. *)
Inductive ucmd : Type :=
  | ULoad (name path : string)          (* ctx[name](path), e.g. loadJSON('a.json') *)
  | USetLoop (b : bool)                 (* settings.loop = b *)
  | USetProperty (name : string) (n : number)   (* _setProperty(name, n) *)
  | URunFrames                          (* _runFrames() *)
  | UThrow.                             (* throw ... *)

Definition script : Type := list ucmd.

(** Function objects that occur in the property bags. *)
Inductive fn : Type :=
  | FUser (body : script)       (* a function written by the sketch's author *)
  | FProto (name : string)      (* p5.prototype[name] as defined by the library *)
  | FBound (name : string)      (* p5.prototype[name].bind(instance) *)
  | FWrap (name : string).      (* function (path) { return context._preload(name, path); } *)

Inductive value : Type :=
  | VUndefined
  | VNull
  | VBool (b : bool)
  | VNum (n : number)
  | VStr (s : string)
  | VObj (id : nat)             (* a reference to an array or object *)
  | VFun (f : fn).

Definition vint (z : Z) : value := VNum (of_Z z).

(** ToBoolean *)
Definition truthy (v : value) : bool :=
  match v with
  | VUndefined | VNull => false
  | VBool b => b
  | VNum (Finite q) => negb (Qeq_bool q 0)
  | VNum NaN => false
  | VNum _ => true
  | VStr s => negb (String.eqb s "")
  | VObj _ | VFun _ => true
  end.

(** [a || b] *)
Definition js_or (a b : value) : value := if truthy a then a else b.

(** [typeof v === 'function'] *)
Definition is_function (v : value) : bool :=
  match v with VFun _ => true | _ => false end.

(** [typeof v === 'string'] *)
Definition is_string (v : value) : bool :=
  match v with VStr _ => true | _ => false end.

(** ToNumber on the primitives that have a conversion not depending on
    the contents of a string or object; [None] elsewhere. *)
Definition to_number (v : value) : option number :=
  match v with
  | VUndefined => Some NaN
  | VNull => Some (of_Z 0)
  | VBool b => Some (of_Z (if b then 1 else 0))
  | VNum n => Some n
  | VStr _ | VObj _ | VFun _ => None
  end.

(** [a + b]: numeric addition, or concatenation of two strings.  The
    mixed cases need ToString of a number or ToPrimitive of an object
    and are left out ([None]).  The sum is a double: [2^53 + 1] is
    [2^53]. *)
Definition js_add (a b : value) : option value :=
  match a, b with
  | VStr s, VStr t => Some (VStr (String.append s t))
  | _, _ =>
      match to_number a, to_number b with
      | Some x, Some y => Some (VNum (to_double (num_add x y)))
      | _, _ => None
      end
  end.

(** [a - b].  The code subtracts clock readings and the count of
    outstanding loads, integers far below 2^53, whose difference is
    exact. *)
Definition js_sub (a b : value) : option value :=
  match to_number a, to_number b with
  | Some x, Some y => Some (VNum (num_sub x y))
  | _, _ => None
  end.

(** [a / b] *)
Definition js_div (a b : value) : option value :=
  match to_number a, to_number b with
  | Some x, Some y => Some (VNum (num_div x y))
  | _, _ => None
  end.

Definition fn_eqb (f g : fn) : bool :=
  match f, g with
  | FProto a, FProto b | FBound a, FBound b | FWrap a, FWrap b => String.eqb a b
  | _, _ => false
  end.

(** [a === b].  Two user functions are never identified. *)
Definition strict_eq (a b : value) : bool :=
  match a, b with
  | VUndefined, VUndefined => true
  | VNull, VNull => true
  | VBool x, VBool y => Bool.eqb x y
  | VNum x, VNum y => num_eqb x y
  | VStr x, VStr y => String.eqb x y
  | VObj x, VObj y => Nat.eqb x y
  | VFun f, VFun g => fn_eqb f g
  | _, _ => false
  end.

(** An object as a bag of own properties. *)
Abbreviation obj := (gmap string value).

(** [o[k]] on an object without prototype. *)
Definition get (o : obj) (k : string) : value := default VUndefined (o !! k).

End JS.
Import JS.

(* ===================================================================== *)
(** * The host: rendering context, timers, requests, observations *)
(* ===================================================================== *)

Module Host.

(** Calls made on a 2D rendering context, in the order they were made. *)
Inductive canvas_call : Type :=
  | CBeginPath
  | CClosePath
  | CStroke
  | CFill
  | CMoveTo (x y : number)
  | CLineTo (x y : number)
  | CScale (x y : number)
  | CArc (x y r start stop : number) (anticlockwise : option bool)
  | CBezierCurveTo (c1x c1y c2x c2y x y : number)
  | CRect (x y w h : number)
  | CFillRect (x y w h : number)
  | CSetTransform (a b c d e f : number).

(** The attributes of a rendering context that the code reads or
    writes, and the log of the calls it received (most recent first). *)
Record context2d : Type := Context2d {
  fillStyle : string;
  strokeStyle : string;
  lineCap : value;
  lineWidth : number;
  calls : list canvas_call
}.

Definition ctx_call (c : canvas_call) (k : context2d) : context2d :=
  Context2d (fillStyle k) (strokeStyle k) (lineCap k) (lineWidth k)
            (c :: calls k).

Definition ctx_set_fillStyle (s : string) (k : context2d) : context2d :=
  Context2d s (strokeStyle k) (lineCap k) (lineWidth k) (calls k).

Definition ctx_set_strokeStyle (s : string) (k : context2d) : context2d :=
  Context2d (fillStyle k) s (lineCap k) (lineWidth k) (calls k).

Definition ctx_set_lineCap (v : value) (k : context2d) : context2d :=
  Context2d (fillStyle k) (strokeStyle k) v (lineWidth k) (calls k).

(** [var context = this._isGlobal ? window : this;] *)
Inductive target : Type := OnWindow | OnThis.

(** The completion callback handed to an asset loader. *)
Inductive callback : Type :=
  | CbPreload (context : target)
      (* the function (resp) {...} built by _preload, which captured context *)
  | CbNone.
      (* no callback, or one this runtime does not see *)

(** Observations recorded while the runtime executes. *)
Inductive obs : Type :=
  | OPreloadEnter               (* the user's preload callback is entered *)
  | OPreloadReturn              (* ... and has returned *)
  | OSetup                      (* the user's setup callback is invoked *)
  | ODraw                       (* the user's draw callback is invoked *)
  | ORequest (id : nat) (name : string)   (* _preload started request id *)
  | OCompletion (id : nat)      (* the completion callback of id fired *)
  | ORelease                    (* a completion callback found the gate open *)
  | OTick                       (* the interval callback of _runFrames fired *)
  | OSchedule (h : nat) (delay : number)  (* setTimeout for the next draw *)
  | OArm (h : nat) (period : number)      (* setInterval *)
  | ODisarm (h : nat).                    (* clearInterval of a live timer *)

Record environment : Type := Environment {
  constants : obj;                 (* the constants module *)
  document : gmap string nat;      (* elements found by getElementById *)
  ready : bool;                    (* document.readyState === 'complete' *)
  screen : number * number         (* screen.width, screen.height *)
}.

Record world : Type := World {
  this : obj;
    (* own properties of the p5 instance *)
  window : obj;
    (* own properties of the global object *)
  prototype : obj;
    (* p5.prototype *)
  settings : obj;
    (* the object the constructor put in this.settings (the attribute,
       a reference to it, is among the properties of this) *)
  curElement : option context2d;
    (* the context of the surface in this.curElement; None while
       curElement is null *)
  env : environment;
    (* what the host provides and the runtime only reads *)
  clock : Z;
    (* the value of new Date().getTime() *)
  onload : bool;
    (* _start is registered as listener of 'load' *)
  listeners : list (string * string);
    (* input listeners: event type, handler method *)
  intervals : gmap nat number;
    (* live setInterval timers: handle, period *)
  timeouts : gmap nat number;
    (* pending setTimeout timers: handle, delay *)
  frames : list nat;
    (* pending requestDraw callbacks, oldest first *)
  requests : gmap nat callback;
    (* asynchronous loads in flight *)
  next_id : nat;
    (* next fresh timer handle or request id *)
  trace : list obs
    (* observations, most recent first *)
}.

(** Field updates: [upd_f g w] is [w] with field [f] replaced by [g (f w)]. *)
Definition upd_this (f : obj -> obj) (w : world) : world :=
  World (f (this w)) (window w) (prototype w) (settings w) (curElement w)
    (env w) (clock w) (onload w) (listeners w) (intervals w) (timeouts w)
    (frames w) (requests w) (next_id w) (trace w).

Definition upd_window (f : obj -> obj) (w : world) : world :=
  World (this w) (f (window w)) (prototype w) (settings w) (curElement w)
    (env w) (clock w) (onload w) (listeners w) (intervals w) (timeouts w)
    (frames w) (requests w) (next_id w) (trace w).

Definition upd_prototype (f : obj -> obj) (w : world) : world :=
  World (this w) (window w) (f (prototype w)) (settings w) (curElement w)
    (env w) (clock w) (onload w) (listeners w) (intervals w) (timeouts w)
    (frames w) (requests w) (next_id w) (trace w).

Definition upd_settings (f : obj -> obj) (w : world) : world :=
  World (this w) (window w) (prototype w) (f (settings w)) (curElement w)
    (env w) (clock w) (onload w) (listeners w) (intervals w) (timeouts w)
    (frames w) (requests w) (next_id w) (trace w).

Definition upd_curElement (f : (option context2d) -> (option context2d)) (w : world) : world :=
  World (this w) (window w) (prototype w) (settings w) (f (curElement w))
    (env w) (clock w) (onload w) (listeners w) (intervals w) (timeouts w)
    (frames w) (requests w) (next_id w) (trace w).

Definition upd_clock (f : Z -> Z) (w : world) : world :=
  World (this w) (window w) (prototype w) (settings w) (curElement w) (env
    w) (f (clock w)) (onload w) (listeners w) (intervals w) (timeouts w)
    (frames w) (requests w) (next_id w) (trace w).

Definition upd_onload (f : bool -> bool) (w : world) : world :=
  World (this w) (window w) (prototype w) (settings w) (curElement w) (env
    w) (clock w) (f (onload w)) (listeners w) (intervals w) (timeouts w)
    (frames w) (requests w) (next_id w) (trace w).

Definition upd_listeners (f : (list (string * string)) -> (list (string * string))) (w : world) : world :=
  World (this w) (window w) (prototype w) (settings w) (curElement w) (env
    w) (clock w) (onload w) (f (listeners w)) (intervals w) (timeouts w)
    (frames w) (requests w) (next_id w) (trace w).

Definition upd_intervals (f : (gmap nat number) -> (gmap nat number)) (w : world) : world :=
  World (this w) (window w) (prototype w) (settings w) (curElement w) (env
    w) (clock w) (onload w) (listeners w) (f (intervals w)) (timeouts w)
    (frames w) (requests w) (next_id w) (trace w).

Definition upd_timeouts (f : (gmap nat number) -> (gmap nat number)) (w : world) : world :=
  World (this w) (window w) (prototype w) (settings w) (curElement w) (env
    w) (clock w) (onload w) (listeners w) (intervals w) (f (timeouts w))
    (frames w) (requests w) (next_id w) (trace w).

Definition upd_frames (f : (list nat) -> (list nat)) (w : world) : world :=
  World (this w) (window w) (prototype w) (settings w) (curElement w) (env
    w) (clock w) (onload w) (listeners w) (intervals w) (timeouts w) (f
    (frames w)) (requests w) (next_id w) (trace w).

Definition upd_requests (f : (gmap nat callback) -> (gmap nat callback)) (w : world) : world :=
  World (this w) (window w) (prototype w) (settings w) (curElement w) (env
    w) (clock w) (onload w) (listeners w) (intervals w) (timeouts w) (frames
    w) (f (requests w)) (next_id w) (trace w).

Definition upd_next_id (f : nat -> nat) (w : world) : world :=
  World (this w) (window w) (prototype w) (settings w) (curElement w) (env
    w) (clock w) (onload w) (listeners w) (intervals w) (timeouts w) (frames
    w) (requests w) (f (next_id w)) (trace w).

Definition upd_trace (f : (list obs) -> (list obs)) (w : world) : world :=
  World (this w) (window w) (prototype w) (settings w) (curElement w) (env
    w) (clock w) (onload w) (listeners w) (intervals w) (timeouts w) (frames
    w) (requests w) (next_id w) (f (trace w)).

Definition log (o : obs) : world -> world := upd_trace (cons o).

(** The observations in the order they happened. *)
Definition history (w : world) : list obs := rev (trace w).

(** ** Computations

    A method either returns, throws (the state reached so far stays), or
    leaves the fragment of JavaScript that is modelled ([Unmodelled]:
    a coercion of a string or object to a number, or a call into a
    module that is not part of this development). *)
Inductive exn : Type := TypeError | UserError.

Inductive res (A : Type) : Type :=
  | Ok (a : A) (w : world)
  | Throw (e : exn) (w : world)
  | Unmodelled.
Arguments Ok {A} a w.
Arguments Throw {A} e w.
Arguments Unmodelled {A}.

Definition M (A : Type) : Type := world -> res A.

Definition ret {A} (a : A) : M A := fun w => Ok a w.

Definition bind {A B} (m : M A) (k : A -> M B) : M B :=
  fun w => match m w with
           | Ok a w' => k a w'
           | Throw e w' => Throw e w'
           | Unmodelled => Unmodelled
           end.

Definition throw {A} (e : exn) : M A := fun w => Throw e w.
Definition unmodelled {A} : M A := fun _ => Unmodelled.
Definition gets {A} (f : world -> A) : M A := fun w => Ok (f w) w.
Definition modify (f : world -> world) : M unit := fun w => Ok tt (f w).
Definition when (b : bool) (m : M unit) : M unit := if b then m else ret tt.

(** An arithmetic result, or [Unmodelled] where the operation is. *)
Definition arith (o : option value) : M value :=
  match o with Some v => ret v | None => unmodelled end.

(** The number a timer is armed with: [NaN] for a delay that is not a
    number. *)
Definition as_number (v : value) : number :=
  match v with VNum n => n | _ => NaN end.

Declare Scope js_scope.
Delimit Scope js_scope with js.
Notation "x <~ m ;; k" := (bind m (fun x => k))
  (at level 100, m at next level, right associativity) : js_scope.
Notation "m ;;; k" := (bind m (fun _ => k))
  (at level 100, right associativity) : js_scope.
Local Open Scope js_scope.

(** The world a computation leaves behind, if it stays in the model. *)
Definition world_of {A} (r : res A) : option world :=
  match r with
  | Ok _ w | Throw _ w => Some w
  | Unmodelled => None
  end.

(** ** Host services *)

(** [new Date().getTime()] *)
Definition getTime : M value := gets (fun w => vint (clock w)).

(** Timer handles and request ids are positive and never reused. *)
Definition fresh : M nat :=
  fun w => Ok (S (next_id w)) (upd_next_id S w).

(** [setTimeout(function () { window.requestDraw(this._draw.bind(this)) }, delay)];
    the only timeout callback the runtime ever installs. *)
Definition setTimeout (delay : number) : M nat :=
  h <~ fresh;;
  modify (fun w => log (OSchedule h delay) (upd_timeouts (insert h delay) w));;;
  ret h.

(** [setInterval(function () { this._setProperty('frameCount', ...) }, period)];
    the only interval callback the runtime ever installs. *)
Definition setInterval (period : number) : M nat :=
  h <~ fresh;;
  modify (fun w => log (OArm h period) (upd_intervals (insert h period) w));;;
  ret h.

(** The timer a value designates, if it is a natural number. *)
Definition handle_of (v : value) : option nat :=
  match v with
  | VNum (Finite q) =>
      if Qeq_bool q (inject_Z (Qfloor q)) && (0 <=? Qfloor q)
      then Some (Z.to_nat (Qfloor q)) else None
  | _ => None
  end.

(** [clearInterval(v)]: cancels the interval [v] designates, if it is
    live; does nothing otherwise. *)
Definition clearInterval (v : value) : M unit :=
  fun w =>
    match handle_of v with
    | Some h =>
        match intervals w !! h with
        | Some _ => Ok tt (log (ODisarm h) (upd_intervals (delete h) w))
        | None => Ok tt w
        end
    | None => Ok tt w
    end.

(** Modelled from the spec: [window.requestDraw] of the [shim] module,
    which is not among the sources.  It queues its argument (always the
    bound [_draw]) to be invoked once, at the next animation frame. *)
Definition requestDraw : M unit :=
  h <~ fresh;;
  modify (upd_frames (fun fs => fs ++ [h])).

(** [document.getElementById(id)] *)
Definition getElementById (v : value) : M value :=
  gets (fun w =>
    match v with
    | VStr id => match document (env w) !! id with
                 | Some n => VObj n
                 | None => VNull
                 end
    | _ => VNull
    end).

(** The names of the asset-loading operations. *)
Definition is_loader (name : string) : bool :=
  String.eqb name "loadJSON" || String.eqb name "loadStrings"
  || String.eqb name "loadXML" || String.eqb name "loadImage".

(** Modelled from the spec: the asset loaders [p5.prototype.loadJSON],
    [loadStrings], [loadXML] and [loadImage], which are not among the
    sources.  Each takes a path and a completion callback, starts an
    asynchronous request and returns the asset that the request will
    fill; the callback is invoked when the request resolves, which
    happens, if at all, in a later turn of the event loop. *)
Definition load (name path : string) (cb : callback) : M (nat * value) :=
  id <~ fresh;;
  modify (upd_requests (insert id cb));;;
  ret (id, VObj id).

(** A fresh rendering context, with the attributes a canvas starts with. *)
Definition blank_context : context2d :=
  Context2d "#000000" "#000000" (VStr "butt") (of_Z 1) [].

(** Modelled from the spec: [createCanvas(w, h, isDefault)] of the
    canvas module, which is not among the sources.  It creates a
    rendering surface and makes it the instance's active surface,
    replacing the previous one. *)
Definition createCanvas (wd ht : number) (isDefault : bool) : M unit :=
  id <~ fresh;;
  modify (upd_this (insert "curElement" (VObj id)));;;
  modify (upd_curElement (fun _ => Some blank_context)).

(** [this.curElement.context]; reading [context] of [null] throws. *)
Definition context : M context2d :=
  fun w => match curElement w with
           | Some k => Ok k w
           | None => Throw TypeError w
           end.

(** A method call or an assignment on [this.curElement.context]. *)
Definition on_context (f : context2d -> context2d) : M unit :=
  context;;; modify (upd_curElement (fmap f)).

End Host.
Import Host.
Local Open Scope js_scope.

(* ===================================================================== *)
(** * core.js *)
(* ===================================================================== *)

Module Core.

(** ** Property access *)

(** [this[k]]: an own property, else the prototype's, else undefined. *)
Definition lookup_this (w : world) (k : string) : value :=
  default (get (prototype w) k) (this w !! k).

Definition this_get (k : string) : M value := gets (fun w => lookup_this w k).
Definition window_get (k : string) : M value := gets (fun w => get (window w) k).
Definition proto_get (k : string) : M value := gets (fun w => get (prototype w) k).

(** [this.k = v] and [window.k = v] for a property name [k] written out
    in the source, none of which is special: a plain assignment creating
    or replacing an own property. *)
Definition this_set (k : string) (v : value) : M unit :=
  modify (upd_this (insert k v)).

Definition window_set (k : string) (v : value) : M unit :=
  modify (upd_window (insert k v)).

(** [this._isGlobal ? window : this] *)
Definition pick_context : M target :=
  g <~ this_get "_isGlobal";;
  ret (if truthy g then OnWindow else OnThis).

Definition target_get (c : target) (k : string) : M value :=
  match c with OnWindow => window_get k | OnThis => this_get k end.

Definition target_set (c : target) (k : string) (v : value) : M unit :=
  match c with OnWindow => window_set k v | OnThis => this_set k v end.

(** The methods of [p5.prototype] call one another as [this.m()] or
    [context.m()]; [window.m] is [m] bound to the instance.  Such calls
    are rendered as calls of the functions below, that is, the
    library's own methods are taken not to be overwritten. *)

(** ** _setProperty (core.js 347-352) *)

(** [this[prop] = value] and [window[prop] = value] where the property
    name is an argument.  Not every name denotes a data property that
    an assignment creates or replaces: ['__proto__'] is an accessor
    inherited from [Object.prototype], and [NaN], [Infinity] and
    [undefined] are read-only properties of the global object.  core.js
    is strict code, in which an assignment to a read-only property
    throws.  (The global object here has data properties only: the
    accessors a browser defines on its window, such as [location], are
    not modelled.) *)
Definition read_only_global (k : string) : bool :=
  String.eqb k "NaN" || String.eqb k "Infinity" || String.eqb k "undefined".

(** A name on which both assignments of [_setProperty] are plain. *)
Definition ordinary (k : string) : bool :=
  negb (String.eqb k "__proto__") && negb (read_only_global k).

(** [o.__proto__ = v].  The setter ignores a primitive [v]; an object or
    [null] would replace the prototype of [o], which is fixed here. *)
Definition set_proto (v : value) : M unit :=
  match v with
  | VNull | VObj _ | VFun _ => unmodelled
  | _ => ret tt
  end.

Definition this_assign (prop : string) (v : value) : M unit :=
  if String.eqb prop "__proto__" then set_proto v else this_set prop v.

Definition window_assign (prop : string) (v : value) : M unit :=
  if read_only_global prop then throw TypeError
  else if String.eqb prop "__proto__" then set_proto v
  else window_set prop v.

Definition _setProperty (prop : string) (v : value) : M unit :=
  this_assign prop v;;;
  g <~ this_get "_isGlobal";;
  when (truthy g) (window_assign prop v).

(** ** _runFrames (core.js 318-325) *)

(** The callback given to [setInterval]. *)
Definition tick : M unit :=
  modify (log OTick);;;
  c <~ this_get "frameCount";;
  n <~ arith (js_add c (vint 1));;
  _setProperty "frameCount" n.

Definition _runFrames : M unit :=
  u <~ this_get "updateInterval";;
  when (truthy u) (clearInterval u);;;
  r <~ this_get "_targetFrameRate";;
  p <~ arith (js_div (vint 1000) r);;
  h <~ setInterval (as_number p);;
  this_set "updateInterval" (VNum (of_nat h)).

(** ** _preload (core.js 256-267), first half: the request *)
Definition _preload (func path : string) : M value :=
  context <~ pick_context;;
  c <~ target_get context "_preloadCount";;
  n <~ arith (js_add c (vint 1));;
  _setProperty "preload-count" n;;;
  f <~ proto_get func;;
  match f with
  | VFun (FProto name) =>
      if is_loader name then
        r <~ load name path (CbPreload context);;
        modify (log (ORequest (fst r) name));;;
        ret (snd r)
      else unmodelled
  | VFun _ => unmodelled
  | _ => throw TypeError
  end.

(** ** User callbacks *)

(** [ctx[name](path)] as written in a user callback: in global mode the
    name is resolved on [window], in instance mode on the instance. *)
Definition call_loader (name path : string) : M unit :=
  context <~ pick_context;;
  f <~ target_get context name;;
  match f with
  | VFun (FWrap func) => _preload func path;;; ret tt
  | VFun (FProto n) | VFun (FBound n) =>
      if is_loader n then load n path CbNone;;; ret tt else unmodelled
  | VFun (FUser _) => unmodelled
  | _ => throw TypeError
  end.

Definition run_cmd (c : ucmd) : M unit :=
  match c with
  | ULoad name path => call_loader name path
  | USetLoop b => modify (upd_settings (insert "loop" (VBool b)))
  | USetProperty name n => _setProperty name (VNum n)
  | URunFrames => _runFrames
  | UThrow => throw UserError
  end.

Fixpoint run_script (s : script) : M unit :=
  match s with
  | [] => ret tt
  | c :: s' => run_cmd c;;; run_script s'
  end.

(** [f()] for a value [f] expected to be a user callback; [o] is
    recorded when the callback is entered. *)
Definition call_user (o : obs) (f : value) : M unit :=
  match f with
  | VFun (FUser body) => modify (log o);;; run_script body
  | VFun _ => unmodelled
  | _ => throw TypeError
  end.

(** ** _setup (core.js 277-282) *)
Definition _setup : M unit :=
  a <~ this_get "setup";;
  b <~ window_get "setup";;
  let userSetup := js_or a b in
  when (is_function userSetup) (call_user OSetup userSetup).

(** ** _draw (core.js 291-309) *)
Definition _draw : M unit :=
  now <~ getTime;;
  last <~ this_get "_lastFrameTime";;
  elapsed <~ arith (js_sub now last);;
  rate <~ arith (js_div (vint 1000) elapsed);;
  this_set "_frameRate" rate;;;
  this_set "_lastFrameTime" now;;;
  a <~ this_get "draw";;
  b <~ window_get "draw";;
  let userDraw := js_or a b in
  looping <~ gets (fun w => get (settings w) "loop");;
  when (truthy looping)
    (r <~ this_get "_targetFrameRate";;
     d <~ arith (js_div (vint 1000) r);;
     setTimeout (as_number d);;; ret tt);;;
  when (is_function userDraw) (call_user ODraw userDraw);;;
  on_context (ctx_call (CSetTransform (of_Z 1) (of_Z 0) (of_Z 0)
                                      (of_Z 1) (of_Z 0) (of_Z 0))).

(** ** _preload, second half: the completion callback it passes on *)
Definition preload_done (context : target) : M unit :=
  c <~ target_get context "_preloadCount";;
  n <~ arith (js_sub c (vint 1));;
  _setProperty "preload-count" n;;;
  c' <~ target_get context "_preloadCount";;
  if strict_eq c' (vint 0) then
    modify (log ORelease);;;
    _setup;;;
    _runFrames;;;
    _draw
  else ret tt.

(** ** _applyDefaults (core.js 334-338) *)
Definition _applyDefaults : M unit :=
  on_context (ctx_set_fillStyle "#FFFFFF");;;
  on_context (ctx_set_strokeStyle "#000000");;;
  c <~ gets (fun w => get (constants (env w)) "ROUND");;
  on_context (ctx_set_lineCap c).

(** ** _start (core.js 209-247) *)
Definition loaders : list string :=
  ["loadJSON"; "loadStrings"; "loadXML"; "loadImage"].

(** core.js 225-236: the four loaders of [context] are replaced by
    wrappers that go through [_preload]. *)
Definition instrument (context : target) : M unit :=
  target_set context "loadJSON" (VFun (FWrap "loadJSON"));;;
  target_set context "loadStrings" (VFun (FWrap "loadStrings"));;;
  target_set context "loadXML" (VFun (FWrap "loadXML"));;;
  target_set context "loadImage" (VFun (FWrap "loadImage")).

(** core.js 238-241: [context.loadJSON = p5.prototype.loadJSON;] and so
    on. *)
Definition restore (context : target) : M unit :=
  (f <~ proto_get "loadJSON";; target_set context "loadJSON" f);;;
  (f <~ proto_get "loadStrings";; target_set context "loadStrings" f);;;
  (f <~ proto_get "loadXML";; target_set context "loadXML" f);;;
  (f <~ proto_get "loadImage";; target_set context "loadImage" f).

Definition _start : M unit :=
  createCanvas (of_Z 800) (of_Z 600) true;;;
  node <~ this_get "_userNode";;
  when (truthy node && is_string node)
    (e <~ getElementById node;; this_set "_userNode" e);;;
  a <~ this_get "preload";;
  b <~ window_get "preload";;
  let userPreload := js_or a b in
  context <~ pick_context;;
  if truthy userPreload then
    instrument context;;;
    call_user OPreloadEnter userPreload;;;
    modify (log OPreloadReturn);;;
    restore context
  else
    _setup;;;
    _runFrames;;;
    _draw.

(** ** The constructor (core.js 28-195) *)

(** A fresh array or object literal. *)
Definition alloc : M value := id <~ fresh;; ret (VObj id).

Definition assign_all (kvs : list (string * value)) : M unit :=
  modify (upd_this (fun o => foldl (fun o kv => <[kv.1 := kv.2]> o) o kvs)).

(** [p5.prototype[method].bind(this)] *)
Definition bind_method (v : value) : option value :=
  match v with
  | VFun (FProto name) => Some (VFun (FBound name))
  | _ => None
  end.

(** The listeners registered in instance mode (core.js 154-186), each
    [function (e) { this.<handler>(e); }.bind(this)]. *)
Definition input_listeners : list (string * string) :=
  [ ("mousemove", "onmousemove"); ("mousedown", "onmousedown");
    ("mouseup", "onmouseup"); ("mouseclick", "onmouseclick");
    ("mousewheel", "onmousewheel"); ("keydown", "onkeydown");
    ("keyup", "onkeyup"); ("keypress", "onkeypress");
    ("touchstart", "ontouchstart"); ("touchmove", "ontouchmove");
    ("touchend", "ontouchend") ].

(** The public and private properties every instance starts with
    (core.js 35-121). *)
Definition own_properties (node : value) : M unit :=
  scr <~ gets (fun w => screen (env w));;
  k <~ gets (fun w => constants (env w));;
  (* Environment, Shape.Vertex, Input.Mouse, Input.Keyboard, Input.Touch *)
  assign_all
    [ ("frameCount", vint 0); ("focused", VBool true);
      ("displayWidth", VNum (fst scr)); ("displayHeight", VNum (snd scr));
      ("shapeKind", VNull); ("shapeInited", VBool false);
      ("mouseX", vint 0); ("mouseY", vint 0);
      ("pmouseX", vint 0); ("pmouseY", vint 0);
      ("winMouseX", vint 0); ("winMouseY", vint 0);
      ("pwinMouseX", vint 0); ("pwinMouseY", vint 0);
      ("mouseButton", vint 0);
      ("key", VStr ""); ("keyCode", vint 0); ("keyDown", VBool false);
      ("touchX", vint 0); ("touchY", vint 0) ];;;
  (* Output.Files *)
  (a <~ alloc;; this_set "pWriters" a);;;
  this_set "curElement" VNull;;;
  modify (upd_curElement (fun _ => None));;;
  (a <~ alloc;; this_set "_elements" a);;;
  (a <~ alloc;; this_set "matrices" a);;;
  (a <~ alloc;; this_set "settings" a);;;
  modify (upd_settings (fun _ => list_to_map
    [ ("loop", VBool true); ("fill", VBool false); ("updateInterval", vint 0);
      ("rectMode", get k "CORNER"); ("imageMode", get k "CORNER");
      ("ellipseMode", get k "CENTER"); ("colorMode", get k "RGB");
      ("mousePressed", VBool false); ("angleMode", get k "RADIANS") ]));;;
  (* private properties *)
  (t <~ getTime;; this_set "_startTime" t);;;
  assign_all
    [ ("_userNode", node); ("_preloadCount", vint 0);
      ("_isGlobal", VBool false);
      ("_frameRate", vint 0); ("_lastFrameTime", vint 0);
      ("_targetFrameRate", vint 60);
      ("_textLeading", vint 15); ("_textFont", VStr "sans-serif");
      ("_textSize", vint 12); ("_textStyle", get k "NORMAL") ];;;
  (a <~ alloc;; this_set "styles" a);;;
  assign_all
    [ ("_bezierDetail", vint 20); ("_curveDetail", vint 20);
      ("_contourInited", VBool false) ];;;
  (a <~ alloc;; this_set "_contourVertices" a).

(** Mode binding (core.js 125-187).  [sketch] is [None] when the
    constructor is called without a sketch closure; otherwise it lists
    the attributes the closure attaches to the instance it is given
    ([p.setup = ...], [p.draw = ...]). *)
Definition construct (sketch : option (list (string * value))) (node : value)
  : M unit :=
  own_properties node;;;
  k <~ gets (fun w => constants (env w));;
  match sketch with
  | None =>
      this_set "_isGlobal" (VBool true);;;
      (* every method of the prototype goes to window, bound to this *)
      proto <~ gets prototype;;
      (if decide (map_Forall (fun _ v => is_Some (bind_method v)) proto) then
         modify (upd_window (fun win => omap bind_method proto ∪ win))
       else
         (* an entry that is not a library function: binding it throws
            part-way through the enumeration, or gives a function for
            which this model has no name *)
         unmodelled);;;
      (* every own property of the instance goes to window *)
      own <~ gets this;;
      modify (upd_window (fun win => own ∪ win));;;
      (* every constant goes to window *)
      modify (upd_window (fun win => k ∪ win))
  | Some attrs =>
      assign_all attrs;;;
      modify (upd_prototype (fun proto => k ∪ proto));;;
      modify (upd_listeners (fun ls => ls ++ input_listeners))
  end.

(** The whole constructor: [construct] is lines 28-187, what follows
    is lines 189-193. *)
Definition p5 (sketch : option (list (string * value))) (node : value) : M unit :=
  construct sketch node;;;
  isready <~ gets (fun w => ready (env w));;
  if isready then _start
  else modify (upd_onload (fun _ => true)).

(** ** The host's event loop *)

(** The body of an input listener: [this.<handler>(e)]. *)
Definition forward (handler : string) : M unit :=
  f <~ this_get handler;;
  match f with
  | VFun (FUser body) => run_script body
  | VFun _ => unmodelled
  | _ => throw TypeError
  end.

(** Deliver an event of type [ty] to the registered listeners, in the
    order of registration.  A listener that throws does not keep the
    later ones from running; the first exception is reported. *)
Fixpoint deliver (ty : string) (ls : list (string * string)) : M unit :=
  match ls with
  | [] => ret tt
  | (t, handler) :: ls' =>
      if String.eqb t ty then
        fun w =>
          match forward handler w with
          | Ok _ w' => deliver ty ls' w'
          | Throw e w' =>
              match deliver ty ls' w' with
              | Ok _ w'' => Throw e w''
              | r => r
              end
          | Unmodelled => Unmodelled
          end
      else deliver ty ls'
  end.

Inductive event : Type :=
  | EvLoad                 (* the document has finished loading *)
  | EvInterval (h : nat)   (* interval timer h fires *)
  | EvTimeout (h : nat)    (* timeout h expires *)
  | EvFrame (h : nat)      (* animation frame callback h is due *)
  | EvResolve (id : nat)   (* asynchronous request id resolves *)
  | EvInput (ty : string). (* an input event of type ty *)

(** One turn of the event loop: the host invokes the callback that the
    event stands for, at clock reading [now].  An event for which
    nothing is registered does nothing. *)
Definition dispatch (now : Z) (e : event) : M unit :=
  modify (upd_clock (fun _ => now));;;
  match e with
  | EvLoad =>
      l <~ gets onload;;
      when l (modify (upd_onload (fun _ => false));;; _start)
  | EvInterval h =>
      t <~ gets (fun w => intervals w !! h);;
      when (bool_decide (is_Some t)) tick
  | EvTimeout h =>
      t <~ gets (fun w => timeouts w !! h);;
      when (bool_decide (is_Some t))
        (modify (upd_timeouts (delete h));;; requestDraw)
  | EvFrame h =>
      fs <~ gets frames;;
      when (bool_decide (h ∈ fs))
        (modify (upd_frames (filter (fun x => x ≠ h)));;; _draw)
  | EvResolve id =>
      r <~ gets (fun w => requests w !! id);;
      match r with
      | Some cb =>
          modify (upd_requests (delete id));;;
          match cb with
          | CbPreload context =>
              modify (log (OCompletion id));;; preload_done context
          | CbNone => ret tt
          end
      | None => ret tt
      end
  | EvInput ty =>
      ls <~ gets listeners;;
      deliver ty ls
  end.

(** A run of the event loop.  An exception that escapes a callback goes
    to the host's default handler and the loop goes on. *)
Fixpoint run (evs : list (Z * event)) (w : world) : option world :=
  match evs with
  | [] => Some w
  | (now, e) :: evs' =>
      match world_of (dispatch now e w) with
      | Some w' => run evs' w'
      | None => None
      end
  end.

(** The page before any sketch is constructed. *)
Definition page (win proto : obj) (e : environment) (now : Z) : world :=
  World ∅ win proto ∅ None e now false [] ∅ ∅ [] ∅ 0 [].

(** The prototype as far as the sources and their callees define it. *)
Definition library : obj :=
  list_to_map (map (fun n => (n, VFun (FProto n)))
    [ "_start"; "_preload"; "_setup"; "_draw"; "_runFrames";
      "_applyDefaults"; "_setProperty"; "createCanvas";
      "loadJSON"; "loadStrings"; "loadXML"; "loadImage";
      "arc"; "ellipse"; "line"; "point"; "quad"; "rect"; "triangle" ]).

End Core.
Import Core.

(* ===================================================================== *)
(** * 2d_primitives.js *)
(* ===================================================================== *)

Module Shape.

(** What a primitive hands back: [return this;] or a bare [return;]. *)
Inductive returned : Type := RThis | RUndefined.

(** The object [{x, y, w, h}] computed by the canvas module. *)
Record vals : Type := Vals { vx : number; vy : number; vw : number; vh : number }.

Definition two : number := of_Z 2.
Definition kappa : number := Finite (5522848 # 10000000).

Definition beginPath : M unit := on_context (ctx_call CBeginPath).
Definition closePath : M unit := on_context (ctx_call CClosePath).
Definition stroke : M unit := on_context (ctx_call CStroke).
Definition fill : M unit := on_context (ctx_call CFill).
Definition moveTo (x y : number) : M unit := on_context (ctx_call (CMoveTo x y)).
Definition lineTo (x y : number) : M unit := on_context (ctx_call (CLineTo x y)).
Definition bezierCurveTo (a b c d e f : number) : M unit :=
  on_context (ctx_call (CBezierCurveTo a b c d e f)).

Definition constant (name : string) : M value :=
  gets (fun w => get (constants (env w)) name).

Definition setting (name : string) : M value :=
  gets (fun w => get (settings w) name).

Section Primitives.

(** [canvas.modeAdjust] and [canvas.arcModeAdjust] belong to the canvas
    module, which is not among the sources: they are parameters. *)
Variable modeAdjust : number -> number -> number -> number -> value -> vals.
Variable arcModeAdjust : number -> number -> number -> number -> value -> vals.

(** 2d_primitives.js 31-52 *)
Definition arc (a b c d start stop : number) (mode : value) : M returned :=
  em <~ setting "ellipseMode";;
  let v := arcModeAdjust a b c d em in
  let radius := if num_gt (vh v) (vw v) then num_div (vh v) two
                else num_div (vw v) two in
  let xScale := if num_gt (vh v) (vw v) then num_div (vw v) (vh v)
                else of_Z 1 in
  let yScale := if num_gt (vh v) (vw v) then of_Z 1
                else num_div (vh v) (vw v) in
  on_context (ctx_call (CScale xScale yScale));;;
  beginPath;;;
  on_context (ctx_call (CArc (vx v) (vy v) radius start stop None));;;
  stroke;;;
  CHORD <~ constant "CHORD";;
  OPEN <~ constant "OPEN";;
  PIE <~ constant "PIE";;
  (if strict_eq mode CHORD || strict_eq mode OPEN then
     closePath
   else if strict_eq mode PIE || strict_eq mode VUndefined then
     lineTo (vx v) (vy v);;;
     closePath
   else ret tt);;;
  fill;;;
  when (negb (strict_eq mode OPEN) && negb (strict_eq mode VUndefined))
    stroke;;;
  ret RThis.

(** 2d_primitives.js 64-84 *)
Definition ellipse (a b c d : number) : M returned :=
  em <~ setting "ellipseMode";;
  let v := modeAdjust a b c d em in
  let ox := num_mul (num_div (vw v) two) kappa in
  let oy := num_mul (num_div (vh v) two) kappa in
  let xe := num_add (vx v) (vw v) in
  let ye := num_add (vy v) (vh v) in
  let xm := num_add (vx v) (num_div (vw v) two) in
  let ym := num_add (vy v) (num_div (vh v) two) in
  beginPath;;;
  moveTo (vx v) ym;;;
  bezierCurveTo (vx v) (num_sub ym oy) (num_sub xm ox) (vy v) xm (vy v);;;
  bezierCurveTo (num_add xm ox) (vy v) xe (num_sub ym oy) xe ym;;;
  bezierCurveTo xe (num_add ym oy) (num_add xm ox) ye xm ye;;;
  bezierCurveTo (num_sub xm ox) ye (vx v) (num_add ym oy) (vx v) ym;;;
  closePath;;;
  fill;;;
  stroke;;;
  ret RThis.

(** 2d_primitives.js 96-106 *)
Definition line (x1 y1 x2 y2 : number) : M returned :=
  k <~ context;;
  if String.eqb (strokeStyle k) "rgba(0,0,0,0)" then
    ret RUndefined
  else
    beginPath;;;
    moveTo x1 y1;;;
    lineTo x2 y2;;;
    stroke;;;
    ret RThis.

(** 2d_primitives.js 115-134 *)
Definition point (x y : number) : M returned :=
  k <~ context;;
  let s := strokeStyle k in
  k <~ context;;
  let f := fillStyle k in
  if String.eqb s "rgba(0,0,0,0)" then
    ret RUndefined
  else
    let x := math_round x in
    let y := math_round y in
    on_context (ctx_set_fillStyle s);;;
    k <~ context;;
    (if num_gt (lineWidth k) (of_Z 1) then
       beginPath;;;
       k <~ context;;
       TWO_PI <~ constant "TWO_PI";;
       on_context (ctx_call (CArc x y (num_div (lineWidth k) two) (of_Z 0)
                                  (as_number TWO_PI) (Some false)));;;
       fill
     else
       on_context (ctx_call (CFillRect x y (of_Z 1) (of_Z 1))));;;
    on_context (ctx_set_fillStyle f);;;
    ret RThis.

(** 2d_primitives.js 150-161 *)
Definition quad (x1 y1 x2 y2 x3 y3 x4 y4 : number) : M returned :=
  beginPath;;;
  moveTo x1 y1;;;
  lineTo x2 y2;;;
  lineTo x3 y3;;;
  lineTo x4 y4;;;
  closePath;;;
  fill;;;
  stroke;;;
  ret RThis.

(** 2d_primitives.js 163-171 *)
Definition rect (a b c d : number) : M returned :=
  rm <~ setting "rectMode";;
  let v := modeAdjust a b c d rm in
  beginPath;;;
  on_context (ctx_call (CRect (vx v) (vy v) (vw v) (vh v)));;;
  fill;;;
  stroke;;;
  ret RThis.

(** 2d_primitives.js 173-183 *)
Definition triangle (x1 y1 x2 y2 x3 y3 : number) : M returned :=
  beginPath;;;
  moveTo x1 y1;;;
  lineTo x2 y2;;;
  lineTo x3 y3;;;
  closePath;;;
  fill;;;
  stroke;;;
  ret RThis.

End Primitives.

End Shape.
Import Shape.

(* ===================================================================== *)
(** * Vocabulary of the statements, and example sketches *)
(* ===================================================================== *)

(** [m] runs to completion on every instance that has a rendering
    surface, and leaves it with one. *)
Definition completes {A} (m : M A) : Prop :=
  forall w, is_Some (curElement w) ->
    exists a w', m w = Ok a w' /\ is_Some (curElement w').

(** ... and what it returns is the instance. *)
Definition returns_this (m : M returned) : Prop :=
  forall w, is_Some (curElement w) ->
    exists w', m w = Ok RThis w' /\ is_Some (curElement w').

(** ** Example pages and sketches *)

(** A constants module. *)
Definition some_constants : obj :=
  list_to_map
    [ ("CORNER", VStr "corner"); ("CENTER", VStr "center");
      ("RGB", VStr "rgb"); ("RADIANS", VStr "radians");
      ("NORMAL", VStr "normal"); ("ROUND", VStr "round");
      ("CHORD", VStr "chord"); ("OPEN", VStr "open"); ("PIE", VStr "pie");
      ("TWO_PI", VNum (Finite (710 # 113))) ].

(** A host whose document has finished loading. *)
Definition loaded : environment :=
  Environment some_constants ∅ true (of_Z 1280, of_Z 800).

(** The same host while the document is still loading. *)
Definition loading : environment :=
  Environment some_constants ∅ false (of_Z 1280, of_Z 800).

(** The world a computation leaves, or [d] if it left the model. *)
Definition outcome {A} (d : world) (r : res A) : world :=
  default d (world_of r).

(** An empty page at clock reading 100, and what instance-mode
    construction with the attributes [attrs] makes of it. *)
Definition empty_page : world := page ∅ library loaded 100.

Definition sketch_world (attrs : list (string * value)) : world :=
  outcome empty_page (p5 (Some attrs) VUndefined empty_page).

(** The same in global mode, the user's globals being [globals]. *)
Definition global_world (globals : obj) : world :=
  let pg := page globals library loaded 100 in
  outcome pg (p5 None VUndefined pg).

(** [modeAdjust] for the CORNER mode: the arguments as they are. *)
Definition corner_adjust (a b c d : number) (mode : value) : vals :=
  Vals a b c d.

(** The rendering context of a sketch whose draw driver has run once. *)
Definition drawn_once : context2d :=
  ctx_call (CSetTransform (of_Z 1) (of_Z 0) (of_Z 0) (of_Z 1) (of_Z 0) (of_Z 0))
           blank_context.

(** ** Properties of computations *)

(** [wp m Q E w]: started in [w], the computation [m] ends in a state
    satisfying [Q] if it returns and [E] if it throws.  (Nothing is
    said of a computation that leaves the modelled fragment.) *)
Definition wp {A} (m : M A) (Q : A -> world -> Prop) (E : world -> Prop)
    (w : world) : Prop :=
  match m w with
  | Ok a w' => Q a w'
  | Throw _ w' => E w'
  | Unmodelled => True
  end.

(** [m] maintains the invariant [I], whether it returns or throws. *)
Definition keeps {A} (I : world -> Prop) (m : M A) : Prop :=
  forall w, I w -> wp m (fun _ => I) I w.

(** ** Counting observations *)

Fixpoint count (p : obs -> bool) (t : list obs) : nat :=
  match t with
  | [] => 0
  | o :: t' => (if p o then 1 else 0) + count p t'
  end.

Definition is_tick (o : obs) : bool :=
  match o with OTick => true | _ => false end.
Definition is_setup (o : obs) : bool :=
  match o with OSetup => true | _ => false end.
Definition is_draw (o : obs) : bool :=
  match o with ODraw => true | _ => false end.
Definition is_release (o : obs) : bool :=
  match o with ORelease => true | _ => false end.

(** ** Restrictions on what the user callbacks do *)

(** Every user function stored in [o] consists of commands satisfying [phi]. *)
Definition val_sat (phi : ucmd -> Prop) (v : value) : Prop :=
  match v with
  | VFun (FUser body) => Forall phi body
  | _ => True
  end.

Definition obj_sat (phi : ucmd -> Prop) (o : obj) : Prop :=
  map_Forall (fun _ v => val_sat phi v) o.

Definition scripts_sat (phi : ucmd -> Prop) (w : world) : Prop :=
  obj_sat phi (this w) /\ obj_sat phi (window w) /\ obj_sat phi (prototype w).

(** The command does not assign the property [k]. *)
Definition leaves (k : string) (c : ucmd) : Prop :=
  match c with
  | USetProperty name _ => name <> k
  | _ => True
  end.

(** ** The frame counter *)

(** [frameCount] is [v], [c] interval callbacks have fired so far, and no
    user callback assigns [frameCount]. *)
Definition counting (v : value) (c : nat) (w : world) : Prop :=
  this w !! "frameCount" = Some v /\
  count is_tick (trace w) = c /\
  scripts_sat (leaves "frameCount") w.

(** These restrictions can be checked by computation. *)
Definition leaves_dec k c : Decision (leaves k c).
Proof. destruct c; simpl; apply _. Defined.

Definition val_sat_dec phi (d : forall c, Decision (phi c)) v :
  Decision (val_sat phi v).
Proof. destruct v as [| | | | | | [| | |]]; simpl; apply _. Defined.

Definition obj_sat_dec phi (d : forall c, Decision (phi c)) o :
  Decision (obj_sat phi o).
Proof. pose proof (val_sat_dec phi d). unfold obj_sat. apply _. Defined.

Definition scripts_sat_dec phi (d : forall c, Decision (phi c)) w :
  Decision (scripts_sat phi w).
Proof. pose proof (obj_sat_dec phi d). unfold scripts_sat. apply _. Defined.

(** A sketch whose draw callback halves the target frame rate and
    re-arms the counter ticker, and a run of it. *)
Definition retiming_sketch : world :=
  sketch_world
    [ ("draw", VFun (FUser [ USetProperty "_targetFrameRate" (of_Z 30);
                             URunFrames ])) ].

Definition retiming_run : list (Z * event) :=
  [ (116, EvInterval 10); (117, EvTimeout 9); (133, EvFrame 11);
    (150, EvInterval 13); (166, EvTimeout 12); (183, EvInterval 13) ].

(** The same sketch with its counter at 2^53. *)
Definition saturated_sketch : world :=
  upd_this (insert "frameCount" (vint two53)) retiming_sketch.

(** The command assigns, through [_setProperty], only properties whose
    name satisfies [ok]. *)
Definition assigns_only (ok : string -> Prop) (c : ucmd) : Prop :=
  match c with
  | USetProperty name _ => ok name
  | _ => True
  end.

(** A sketch that asks for 5000 frames per second in setup: the delay
    between draw invocations is then a fifth of a millisecond, less than
    the resolution of the clock. *)
Definition hasty_sketch : world :=
  sketch_world
    [ ("setup", VFun (FUser [USetProperty "_targetFrameRate" (of_Z 5000)]));
      ("draw", VFun (FUser [])) ].

(** A sketch whose draw callback lowers the target frame rate to 30. *)
Definition slowing_sketch : world :=
  sketch_world
    [ ("draw", VFun (FUser [USetProperty "_targetFrameRate" (of_Z 30)])) ].

(** The interval timers left by [clearInterval(u)]. *)
Definition cleared (u : value) (m : gmap nat number) : gmap nat number :=
  match handle_of u with
  | Some h => delete h m
  | None => m
  end.

(** ** The preload phase *)

(** A sketch whose preload callback starts two loads. *)
Definition two_loads_sketch : world :=
  sketch_world
    [ ("preload", VFun (FUser [ ULoad "loadJSON" "a.json";
                                ULoad "loadImage" "b.png" ]));
      ("setup", VFun (FUser []));
      ("draw", VFun (FUser [])) ].

(** A sketch whose preload callback starts no load at all; what its
    setup and draw callbacks do is left open. *)
Definition no_loads_sketch (setup draw : script) : world :=
  sketch_world
    [ ("preload", VFun (FUser []));
      ("setup", VFun (FUser setup));
      ("draw", VFun (FUser draw)) ].

(** Nothing is scheduled, nothing is in flight, and no input handler is
    defined: the event loop has nothing to run. *)
Definition idle (w : world) : Prop :=
  onload w = false /\
  intervals w = ∅ /\
  timeouts w = ∅ /\
  frames w = [] /\
  requests w = ∅ /\
  Forall (fun l => is_function (lookup_this w (snd l)) = false) (listeners w).

(** The value of [context[k]]. *)
Definition target_value (c : target) (k : string) (w : world) : value :=
  match c with
  | OnWindow => get (window w) k
  | OnThis => lookup_this w k
  end.

(** [this._isGlobal ? window : this] *)
Definition context_of (w : world) : target :=
  if truthy (lookup_this w "_isGlobal") then OnWindow else OnThis.

(** A sketch whose preload callback throws after it has started a load,
    and whose draw callback starts a load on every frame. *)
Definition throwing_preload_sketch : world :=
  sketch_world
    [ ("preload", VFun (FUser [ULoad "loadJSON" "a.json"; UThrow]));
      ("setup", VFun (FUser []));
      ("draw", VFun (FUser [ULoad "loadJSON" "late.json"])) ].

(** An instance, constructed in instance mode with the attributes
    [attrs], on which [_start] has not run yet. *)
Definition unstarted (attrs : list (string * value)) : world :=
  outcome empty_page (construct (Some attrs) VUndefined empty_page).

(** An instance with a preload callback that starts one load, before
    and after [_start]. *)
Definition one_load_unstarted : world :=
  unstarted [("preload", VFun (FUser [ULoad "loadJSON" "a.json"]))].

Definition one_load_started : world :=
  outcome one_load_unstarted (_start one_load_unstarted).


(** A sketch whose draw callback throws. *)
Definition failing_sketch : world :=
  sketch_world [("draw", VFun (FUser [UThrow]))].


(** The world after the events [evs], or [w] itself if the run leaves
    the model. *)
Definition after (evs : list (Z * event)) (w : world) : world :=
  default w (run evs w).

(** Whether an optional result is there, and whether a computation
    returned. *)
Definition in_model {A} (o : option A) : bool :=
  match o with Some _ => true | None => false end.

Definition returns {A} (r : res A) : bool :=
  match r with Ok _ _ => true | _ => false end.

Definition idle_dec w : Decision (idle w).
Proof. unfold idle. apply _. Defined.

(** ** Looping switched off *)

(** The command does not switch looping back on. *)
Definition keeps_off (c : ucmd) : Prop :=
  match c with
  | USetLoop b => b = false
  | _ => True
  end.

(** The value is not one of the wrappers of [_start]. *)
Definition no_wrap (v : value) : Prop :=
  match v with
  | VFun (FWrap _) => False
  | _ => True
  end.

Definition unwrapped (o : obj) : Prop := map_Forall (fun _ v => no_wrap v) o.

(** Looping is off and nothing but the timeouts and frame requests that
    are still pending can lead to a draw invocation: [_start] has run,
    no wrapper is installed, no request of the preload phase is in
    flight, and no user callback switches looping on again.  [B] bounds
    the draw invocations so far plus the pending timeouts and frame
    requests. *)
Definition winding_down (B : nat) (w : world) : Prop :=
  truthy (get (settings w) "loop") = false /\
  onload w = false /\
  (unwrapped (this w) /\ unwrapped (window w) /\ unwrapped (prototype w)) /\
  scripts_sat keeps_off w /\
  map_Forall (fun _ cb => cb = CbNone) (requests w) /\
  (count is_draw (trace w) + size (timeouts w) + length (frames w) <= B)%nat.


Definition no_wrap_dec v : Decision (no_wrap v).
Proof. destruct v as [| | | | | | [| | |]]; simpl; apply _. Defined.

Definition target_eq_dec : EqDecision target.
Proof. solve_decision. Defined.

Definition callback_eq_dec : EqDecision callback.
Proof. pose proof target_eq_dec. solve_decision. Defined.


(* ===================================================================== *)
(** * Further vocabulary: what drawing does to the instance *)
(* ===================================================================== *)

(** [u] is [w0] with another rendering context in place of [k], one
    that has the stroke style, line width and line cap of [k], the fill
    style [fs], and the calls of [k] with further calls after them. *)
Definition repainted (w0 : world) (k : context2d) (fs : string) (u : world)
  : Prop :=
  exists k',
    u = upd_curElement (fun _ => Some k') w0 /\
    fillStyle k' = fs /\
    strokeStyle k' = strokeStyle k /\
    lineWidth k' = lineWidth k /\
    lineCap k' = lineCap k /\
    exists new, calls k' = new ++ calls k.

(** [m] returns, and takes a state repainted with fill style [fs] to one
    repainted with fill style [fs']. *)
Definition repaints {A} (w0 : world) (k : context2d) (fs fs' : string)
    (m : M A) : Prop :=
  forall u, repainted w0 k fs u ->
    exists a u', m u = Ok a u' /\ repainted w0 k fs' u'.

(** The rendering context after [_applyDefaults]. *)
Definition with_defaults (c : value) (k : context2d) : context2d :=
  Context2d "#FFFFFF" "#000000" c (lineWidth k) (calls k).

(** The instance after [_applyDefaults], [k] being its rendering
    context before. *)
Definition defaults_applied (w : world) (k : context2d) : world :=
  upd_curElement
    (fun _ => Some (with_defaults (get (constants (env w)) "ROUND") k)) w.

(* ===================================================================== *)
(** * Further vocabulary: what a run of the event loop maintains *)
(* ===================================================================== *)

(** [I] is closed under the state changes that the library's methods
    and the user callbacks have in common: the host's bookkeeping,
    assignments [this[k] = x] for [k] satisfying [okd], calls
    [_setProperty(k, x)] for [k] satisfying [okp], [x] satisfying [okv]
    in both cases, the recording of observations satisfying [oko], the
    replacement of a loader on a [context] satisfying [okc],
    [_runFrames] and a load. *)
Record closed (I : world -> Prop) (okd okp : string -> Prop)
    (okv : value -> Prop) (oko : obs -> Prop) (okc : target -> Prop)
  : Prop := Closed {
  cl_clock : forall f w, I w -> I (upd_clock f w);
  cl_next_id : forall f w, I w -> I (upd_next_id f w);
  cl_curElement : forall f w, I w -> I (upd_curElement f w);
  cl_loop : forall b w, I w -> I (upd_settings (insert "loop" (VBool b)) w);
  cl_log : forall o w, oko o -> I w -> I (log o w);
  cl_this : forall k x w, okd k -> okv x -> I w -> I (upd_this (insert k x) w);
  cl_loader : forall c k x,
    okc c -> is_loader k = true -> okv x -> keeps I (target_set c k x);
  cl_setProperty : forall k x, okp k -> okv x -> keeps I (_setProperty k x);
  cl_runFrames : keeps I _runFrames;
  cl_call_loader : forall name path, keeps I (call_loader name path)
}.

(** ... and under what the host does between the callbacks: taking a
    callback off its queue, and queueing the next draw. *)
Record hosted (I : world -> Prop) : Prop := Hosted {
  ho_onload : forall f w, I w -> I (upd_onload f w);
  ho_timeouts : forall f w, I w -> I (upd_timeouts f w);
  ho_frames : forall f w, I w -> I (upd_frames f w);
  ho_requests : forall f w, I w -> I (upd_requests f w)
}.

(** What the library does once the preload phase is over, or when there
    is none (core.js 243-245 and 262-264). *)
Definition launch : M unit := _setup;;; _runFrames;;; _draw.

(** ** Once the sketch has started *)

(** The preload phase is over, or there was none: [_start] is no longer
    registered for the load event, none of its wrappers is installed,
    and no request made through [_preload] is in flight. *)
Definition started (w : world) : Prop :=
  onload w = false /\
  (unwrapped (this w) /\ unwrapped (window w) /\ unwrapped (prototype w)) /\
  map_Forall (fun _ cb => cb = CbNone) (requests w).

Definition started_dec w : Decision (started w).
Proof.
  pose proof no_wrap_dec. pose proof callback_eq_dec.
  unfold started, unwrapped. apply _.
Defined.

(** A sketch that starts a load on every frame, and a run in which two
    frames are drawn and the load of the first resolves. *)
Definition late_loading_sketch : world :=
  sketch_world
    [ ("setup", VFun (FUser []));
      ("draw", VFun (FUser [ULoad "loadJSON" "late.json"])) ].

Definition late_loading_run : list (Z * event) :=
  [ (117, EvTimeout 9); (133, EvFrame 11); (140, EvResolve 10);
    (150, EvTimeout 12); (166, EvFrame 14); (170, EvLoad) ].

(** [n] observations so far satisfy [p]. *)
Definition counted (p : obs -> bool) (n : nat) (w : world) : Prop :=
  count p (trace w) = n.

(** No draw is pending: no timeout that would request one, and no
    requested frame. *)
Definition dry (w : world) : Prop := timeouts w = ∅ /\ frames w = [].

(** A sketch whose setup callback throws, and which has a handler for
    mouse moves that switches looping on and restarts the frame
    counter. *)
Definition broken_setup_sketch : world :=
  sketch_world
    [ ("setup", VFun (FUser [UThrow]));
      ("draw", VFun (FUser []));
      ("onmousemove", VFun (FUser [USetLoop true; URunFrames])) ].

Definition prodding_run : list (Z * event) :=
  [ (120, EvInput "mousemove"); (125, EvInterval 8); (130, EvTimeout 3);
    (140, EvFrame 4); (150, EvLoad); (160, EvInput "mousemove") ].

(** ** The frame counter's timer *)

(** At most one interval timer is live, and if one is, [updateInterval]
    holds its handle. *)
Definition ticker (w : world) : Prop :=
  intervals w = ∅ \/
  exists h p, h <> 0%nat /\ intervals w = {[ h := p ]} /\
              this w !! "updateInterval" = Some (VNum (of_nat h)).

(** ** Setup before draw *)

(** Of the invocations of the setup and draw callbacks in a history,
    the first, if there is one, is of setup. *)
Fixpoint setup_first (h : list obs) : bool :=
  match h with
  | [] => true
  | OSetup :: _ => true
  | ODraw :: _ => false
  | _ :: h' => setup_first h'
  end.

(** The instance has a setup callback. *)
Definition has_setup (w : world) : Prop :=
  is_function (lookup_this w "setup") = true.

(** Setup has been entered, and before any draw. *)
Definition set_up (w : world) : Prop :=
  setup_first (history w) = true /\ (0 < count is_setup (trace w))%nat.

(** ... or else nothing has been drawn yet and no draw is pending. *)
Definition phase (w : world) : Prop :=
  set_up w \/ (dry w /\ count is_draw (trace w) = 0%nat).

(** An instance-mode sketch on a page that is still loading. *)
Definition waiting_sketch (attrs : list (string * value)) : world :=
  let pg := page ∅ library loading 100 in
  outcome pg (p5 (Some attrs) VUndefined pg).

(** ** Global mode *)


(** The properties that a method of core.js assigns on the instance or
    on [context] without going through [_setProperty], and
    [curElement], which [createCanvas] assigns. *)
Definition assigned_directly : list string :=
  [ "_frameRate"; "_lastFrameTime"; "updateInterval"; "_userNode";
    "curElement"; "loadJSON"; "loadStrings"; "loadXML"; "loadImage" ].

(** ** What stays as the constructor left it *)

Definition inert (p : obj) (ls : list (string * string)) (e : environment)
    (w : world) : Prop :=
  prototype w = p /\ listeners w = ls /\ env w = e.

(** A sketch with setup and draw callbacks on a page that is still
    loading, and a run in which the page finishes loading. *)
Definition patient_sketch : world :=
  waiting_sketch [("setup", VFun (FUser [])); ("draw", VFun (FUser []))].

Definition patient_run : list (Z * event) :=
  [ (110, EvFrame 1); (120, EvLoad); (137, EvTimeout 9); (150, EvFrame 10) ].

(** A global-mode sketch whose draw callback assigns [mouseX] through
    [_setProperty], and a run with two ticks and one frame. *)
Definition sketch_globals : obj :=
  list_to_map
    [ ("setup", VFun (FUser []));
      ("draw", VFun (FUser [USetProperty "mouseX" (of_Z 5)])) ].

Definition global_sketch : world := global_world sketch_globals.

Definition global_run : list (Z * event) :=
  [ (116, EvInterval 8); (117, EvTimeout 9); (133, EvFrame 10);
    (150, EvInterval 8) ].

(** ** The footprint of the library *)

(** The properties that core.js assigns on [window], and on the
    instance, when it runs. *)
Definition written_on_window : list string :=
  [ "frameCount"; "preload-count";
    "loadJSON"; "loadStrings"; "loadXML"; "loadImage" ].

Definition written_on_this : list string :=
  "frameCount" :: "preload-count" :: assigned_directly.

Definition window_has (p : string) (v : option value) (w : world) : Prop :=
  window w !! p = v.

Definition this_has (p : string) (v : option value) (w : world) : Prop :=
  this w !! p = v.

Definition setting_has (p : string) (v : option value) (w : world) : Prop :=
  settings w !! p = v.

(** ** Global-mode construction *)

(** The names under which a sketch defines its callbacks. *)
Definition callback_names : list string := ["preload"; "setup"; "draw"].

(** The names of the library's methods. *)
Definition method_names : list string :=
  [ "_start"; "_preload"; "_setup"; "_draw"; "_runFrames";
    "_applyDefaults"; "_setProperty"; "createCanvas";
    "loadJSON"; "loadStrings"; "loadXML"; "loadImage";
    "arc"; "ellipse"; "line"; "point"; "quad"; "rect"; "triangle" ].

(** None of the names is an own property. *)
Definition none_own (names : list string) (o : obj) : bool :=
  forallb (fun k => match o !! k with None => true | Some _ => false end)
          names.

(** The observations so far begin with those of [t0], the oldest
    last. *)
Definition extends (t0 : list obs) (w : world) : Prop :=
  exists l, trace w = l ++ t0.

(** ** The geometry of [arc] *)





(** ** Instance mode *)

(** The instance is in instance mode and [window] is [W]. *)
Definition isolated (W : obj) (w : world) : Prop :=
  this w !! "_isGlobal" = Some (VBool false) /\ window w = W.

(** ** Pending draws *)

(** The draws that are pending: the timeouts that will request a
    frame, and the frames requested. *)
Definition pending (w : world) : nat :=
  (size (timeouts w) + length (frames w))%nat.

Definition bounded (B : nat) (w : world) : Prop := (pending w <= B)%nat.

(** The user functions among the own properties of the instance and
    among the constants satisfy [phi]. *)
Definition own_sat (phi : ucmd -> Prop) (w : world) : Prop :=
  obj_sat phi (this w) /\ obj_sat phi (constants (env w)).

(** An instance-mode sketch that assigns [mouseX] when the mouse moves
    and starts a load in preload, on a page that is still loading; and
    a run in which the mouse moves, the page finishes loading and the
    load resolves. *)
Definition shy_sketch_attrs : list (string * value) :=
  [ ("preload", VFun (FUser [ULoad "loadJSON" "a.json"]));
    ("onmousemove", VFun (FUser [USetProperty "mouseX" (of_Z 5)])) ].

Definition shy_run : list (Z * event) :=
  [ (110, EvInput "mousemove"); (120, EvLoad); (130, EvResolve 8);
    (140, EvInput "mousemove") ].

Definition shy_page : world := page sketch_globals library loading 100.

Definition shy_sketch : world :=
  outcome shy_page (p5 (Some shy_sketch_attrs) VUndefined shy_page).
(* ===================================================================== *)
(** * Reasoning about computations *)
(* ===================================================================== *)

(** Split a conjunction into its parts, and leave equations alone. *)
Ltac conjs := repeat match goal with |- _ /\ _ => split end.

(** Results of concrete runs are stated through [after] and [outcome];
    that the run stays in the model is all that has to be computed. *)
Lemma run_after evs w : in_model (run evs w) = true -> run evs w = Some (after evs w).
Proof. unfold after. now destruct (run evs w). Qed.

Lemma world_of_outcome {A} (r : res A) d :
  in_model (world_of r) = true -> world_of r = Some (outcome d r).
Proof. unfold outcome. now destruct (world_of r). Qed.

Lemma Ok_outcome (m : M unit) w :
  returns (m w) = true -> m w = Ok tt (outcome w (m w)).
Proof. unfold outcome. now destruct (m w) as [[] w' | |]. Qed.

Ltac computed :=
  lazymatch goal with
  | |- run ?e ?w = Some (after ?e ?w) => apply run_after
  | |- world_of ?r = Some (outcome _ ?r) => apply world_of_outcome
  | |- ?m ?w = Ok tt (outcome ?w (?m ?w)) => apply Ok_outcome
  | |- _ => idtac
  end;
  vm_compute; reflexivity.

Section Computations.

Context {A B : Type}.

Lemma bind_Ok (m : M A) (k : A -> M B) w a w' :
  m w = Ok a w' -> bind m k w = k a w'.
Proof. intros H. unfold bind. now rewrite H. Qed.

Lemma bind_Throw (m : M A) (k : A -> M B) w e w' :
  m w = Throw e w' -> bind m k w = Throw e w'.
Proof. intros H. unfold bind. now rewrite H. Qed.

Lemma bind_Unmodelled (m : M A) (k : A -> M B) w :
  m w = Unmodelled -> bind m k w = Unmodelled.
Proof. intros H. unfold bind. now rewrite H. Qed.

Lemma bind_gets (f : world -> A) (k : A -> M B) w :
  bind (gets f) k w = k (f w) w.
Proof. reflexivity. Qed.

Lemma bind_ret (a : A) (k : A -> M B) w : bind (ret a) k w = k a w.
Proof. reflexivity. Qed.

End Computations.

Lemma bind_modify {B} (f : world -> world) (k : unit -> M B) w :
  bind (modify f) k w = k tt (f w).
Proof. reflexivity. Qed.

(** ** Rules for [wp] *)

Section WpRules.

Context {A B : Type}.
Implicit Types (Q : A -> world -> Prop) (E : world -> Prop).

Lemma wp_ret (a : A) Q E w : Q a w -> wp (ret a) Q E w.
Proof. trivial. Qed.


Lemma wp_throw e Q E w : E w -> wp (throw e) Q E w.
Proof. trivial. Qed.

Lemma wp_unmodelled Q E w : wp unmodelled Q E w.
Proof. exact I. Qed.

Lemma wp_bind (m : M A) (k : A -> M B) (R : B -> world -> Prop) E w :
  wp m (fun a w' => wp (k a) R E w') E w -> wp (bind m k) R E w.
Proof. unfold wp, bind. now destruct (m w). Qed.

Lemma wp_mono (m : M A) Q Q' E E' w :
  wp m Q E w ->
  (forall a w', Q a w' -> Q' a w') -> (forall w', E w' -> E' w') ->
  wp m Q' E' w.
Proof. unfold wp. destruct (m w); auto. Qed.

End WpRules.


Lemma wp_when (b : bool) (m : M unit) (Q : unit -> world -> Prop) E w :
  (b = true -> wp m Q E w) -> (b = false -> Q tt w) -> wp (when b m) Q E w.
Proof.
  destruct b; simpl; intros H1 H2; [now apply H1 | now apply H2].
Qed.


(** Use of an invariant already established for a part of a computation. *)
Lemma wp_keeps {A B} (I : world -> Prop) (m : M A) (k : A -> M B) R w :
  keeps I m -> I w ->
  (forall a w', I w' -> wp (k a) R I w') ->
  wp (bind m k) R I w.
Proof.
  intros Hm Hw Hk. apply wp_bind.
  apply (wp_mono m (fun _ => I) _ I I w (Hm w Hw)).
  - intros a w' H. now apply Hk.
  - trivial.
Qed.

Lemma keeps_bind {A B} (I : world -> Prop) (m : M A) (k : A -> M B) :
  keeps I m -> (forall a, keeps I (k a)) -> keeps I (bind m k).
Proof.
  intros Hm Hk w Hw. apply wp_keeps; [exact Hm | exact Hw |].
  intros a w' H. now apply Hk.
Qed.

Lemma keeps_ret {A} (I : world -> Prop) (a : A) : keeps I (ret a).
Proof. intros w Hw. exact Hw. Qed.

Lemma keeps_gets {A} (I : world -> Prop) (f : world -> A) : keeps I (gets f).
Proof. intros w Hw. exact Hw. Qed.

Lemma keeps_when (I : world -> Prop) b m : keeps I m -> keeps I (when b m).
Proof. destruct b; simpl; [trivial | intros _; apply keeps_ret]. Qed.

Lemma keeps_arith (I : world -> Prop) o : keeps I (arith o).
Proof. intros w Hw. destruct o; [exact Hw | exact Logic.I]. Qed.

Lemma keeps_bind_arith {B} (I : world -> Prop) o (k : value -> M B) :
  (forall v, o = Some v -> keeps I (k v)) -> keeps I (bind (arith o) k).
Proof.
  intros H w Hw. destruct o as [v |]; [| exact Logic.I].
  now apply (H v eq_refl).
Qed.

Lemma keeps_bind_gets {A B} (I : world -> Prop) (f : world -> A) (k : A -> M B) :
  (forall w, I w -> wp (k (f w)) (fun _ => I) I w) -> keeps I (bind (gets f) k).
Proof. intros H w Hw. now apply H. Qed.

Lemma keeps_bind_gets_sat {A B} (I : world -> Prop) (P : A -> Prop)
    (f : world -> A) (k : A -> M B) :
  (forall w, I w -> P (f w)) -> (forall a, P a -> keeps I (k a)) ->
  keeps I (bind (gets f) k).
Proof. intros Hf Hk w Hw. apply (Hk (f w)); auto. Qed.

Lemma keeps_throw {A} (I : world -> Prop) e : keeps I (@throw A e).
Proof. intros w Hw. exact Hw. Qed.

Lemma keeps_unmodelled {A} (I : world -> Prop) : keeps I (@unmodelled A).
Proof. intros w Hw. exact Logic.I. Qed.

Lemma keeps_modify (I : world -> Prop) f :
  (forall w, I w -> I (f w)) -> keeps I (modify f).
Proof. intros H w Hw. now apply H. Qed.

(** What remains of the world after a computation, in terms of [wp]. *)
Lemma wp_world_of {A} (m : M A) (P : world -> Prop) w w' :
  wp m (fun _ => P) P w -> world_of (m w) = Some w' -> P w'.
Proof. unfold wp. destruct (m w); simpl; intros H [= <-]; exact H. Qed.

(** ** Arithmetic on integers *)

Lemma num_add_of_Z a b : num_add (of_Z a) (of_Z b) = of_Z (a + b).
Proof.
  unfold num_add, of_Z, inject_Z, Qplus. simpl. f_equal. f_equal. lia.
Qed.

(** Integers up to 2^53 in magnitude are doubles. *)
Lemma to_double_of_Z z : Z.abs z <= two53 -> to_double (of_Z z) = of_Z z.
Proof.
  intros H. unfold to_double, of_Z.
  replace (Qle_bool (Qabs (inject_Z z)) (inject_Z two53)) with true;
    [reflexivity |].
  symmetry. apply Qle_bool_iff. unfold Qle, Qabs, inject_Z. simpl. lia.
Qed.

Lemma js_add_vint a b :
  Z.abs (a + b) <= two53 -> js_add (vint a) (vint b) = Some (vint (a + b)).
Proof.
  intros H.
  change (js_add (vint a) (vint b))
    with (Some (VNum (to_double (num_add (of_Z a) (of_Z b))))).
  now rewrite num_add_of_Z, to_double_of_Z.
Qed.

(** The sum [2^53 + 1] lies halfway between the doubles [2^53] and
    [2^53 + 2] and is rounded to the former. *)
Lemma js_add_saturated : js_add (vint two53) (vint 1) = Some (vint two53).
Proof. vm_compute. reflexivity. Qed.

(** Adding one to a counter between 0 and 2^53. *)
Lemma js_add_one n :
  0 <= n <= two53 ->
  js_add (vint n) (vint 1) = Some (vint (Z.min (n + 1) two53)).
Proof.
  intros H. destruct (Z.eq_dec n two53) as [-> | N].
  - rewrite js_add_saturated. now rewrite Z.min_r by (unfold two53; lia).
  - rewrite js_add_vint by lia. now rewrite Z.min_l by lia.
Qed.

(** ** Counting *)

Lemma count_app p s t : count p (s ++ t) = (count p s + count p t)%nat.
Proof. induction s as [| o s IH]; simpl; [reflexivity | rewrite IH; lia]. Qed.

(** ** User functions stored in objects *)

Lemma obj_sat_insert phi o k v :
  obj_sat phi o -> val_sat phi v -> obj_sat phi (<[k := v]> o).
Proof. intros Ho Hv. now apply map_Forall_insert_2. Qed.

Lemma obj_sat_get phi o k : obj_sat phi o -> val_sat phi (get o k).
Proof.
  intros Ho. unfold get. destruct (o !! k) as [v |] eqn:E; simpl.
  - exact (Ho k v E).
  - exact Logic.I.
Qed.

Lemma lookup_this_sat phi w k : scripts_sat phi w -> val_sat phi (lookup_this w k).
Proof.
  intros (Ht & _ & Hp). unfold lookup_this.
  destruct (this w !! k) as [v |] eqn:E; simpl.
  - exact (Ht k v E).
  - now apply obj_sat_get.
Qed.

Lemma js_or_sat phi a b : val_sat phi a -> val_sat phi b -> val_sat phi (js_or a b).
Proof. unfold js_or. now destruct (truthy a). Qed.

Lemma val_sat_num phi n : val_sat phi (VNum n).
Proof. exact Logic.I. Qed.

Lemma js_add_sat phi a b v : js_add a b = Some v -> val_sat phi v.
Proof.
  unfold js_add. destruct a, b; simpl;
    repeat match goal with
      | |- context [match ?x with _ => _ end] => destruct x
      end; intros [= <-]; exact Logic.I.
Qed.

Lemma js_sub_sat phi a b v : js_sub a b = Some v -> val_sat phi v.
Proof.
  unfold js_sub. destruct (to_number a), (to_number b);
    intros [= <-]; exact Logic.I.
Qed.

Lemma js_div_sat phi a b v : js_div a b = Some v -> val_sat phi v.
Proof.
  unfold js_div. destruct (to_number a), (to_number b);
    intros [= <-]; exact Logic.I.
Qed.

(* ===================================================================== *)
(** * The drawing primitives and what they return *)
(* ===================================================================== *)

Section Returns.

Lemma completes_gets {A} (f : world -> A) : completes (gets f).
Proof. intros w Hw. exists (f w), w. split; [reflexivity | exact Hw]. Qed.

Lemma completes_ret {A} (a : A) : completes (ret a).
Proof. intros w Hw. exists a, w. split; [reflexivity | exact Hw]. Qed.

Lemma completes_context : completes context.
Proof.
  intros w [k Hk]. exists k, w. unfold context. rewrite Hk.
  split; [reflexivity | eauto].
Qed.

Lemma completes_on_context f : completes (on_context f).
Proof.
  intros w [k Hk]. exists tt, (upd_curElement (fmap f) w).
  unfold on_context, bind, context, modify. rewrite Hk. simpl.
  split; [reflexivity | rewrite Hk; simpl; eauto].
Qed.

Lemma completes_bind {A B} (m : M A) (k : A -> M B) :
  completes m -> (forall a, completes (k a)) -> completes (bind m k).
Proof.
  intros Hm Hk w Hw. destruct (Hm w Hw) as (a & w1 & E1 & H1).
  destruct (Hk a w1 H1) as (b & w2 & E2 & H2).
  exists b, w2. split; [| exact H2]. now rewrite (bind_Ok _ _ _ _ _ E1).
Qed.

Lemma completes_when b (m : M unit) : completes m -> completes (when b m).
Proof. destruct b; simpl; [trivial | intros _; apply completes_ret]. Qed.

Lemma returns_this_ret : returns_this (ret RThis).
Proof. intros w Hw. exists w. split; [reflexivity | exact Hw]. Qed.

Lemma returns_this_bind {A} (m : M A) (k : A -> M returned) :
  completes m -> (forall a, returns_this (k a)) -> returns_this (bind m k).
Proof.
  intros Hm Hk w Hw. destruct (Hm w Hw) as (a & w1 & E1 & H1).
  destruct (Hk a w1 H1) as (w2 & E2 & H2).
  exists w2. split; [| exact H2]. now rewrite (bind_Ok _ _ _ _ _ E1).
Qed.

End Returns.

Ltac completes :=
  repeat first
    [ apply returns_this_ret
    | apply completes_on_context
    | apply completes_gets
    | apply completes_ret
    | apply completes_context
    | apply completes_when
    | apply returns_this_bind; [| intros ?]
    | apply completes_bind; [| intros ?]
    | match goal with
      | |- completes (if ?b then _ else _) => destruct b
      | |- returns_this (if ?b then _ else _) => destruct b
      end ].

Section PrimitiveResults.

Variable modeAdjust : number -> number -> number -> number -> value -> vals.
Variable arcModeAdjust : number -> number -> number -> number -> value -> vals.










End PrimitiveResults.

Lemma on_context_none f w :
  curElement w = None -> on_context f w = Throw TypeError w.
Proof. intros H. unfold on_context, bind, context. now rewrite H. Qed.

Lemma context_none w : curElement w = None -> context w = Throw TypeError w.
Proof. intros H. unfold context. now rewrite H. Qed.




(* ===================================================================== *)
(** * The property mirror *)
(* ===================================================================== *)

(** On an ordinary name [_setProperty] is two plain assignments. *)
Lemma setProperty_eq prop v w :
  ordinary prop = true ->
  _setProperty prop v w =
  Ok tt (let w1 := upd_this (insert prop v) w in
         if truthy (lookup_this w1 "_isGlobal")
         then upd_window (insert prop v) w1 else w1).
Proof.
  unfold ordinary. intros H.
  apply andb_true_iff in H as [H1 H2].
  apply negb_true_iff in H1, H2.
  unfold _setProperty, this_assign, window_assign. rewrite H1, H2.
  unfold this_set, this_get, window_set, when, bind, modify, gets, ret.
  simpl. now destruct (truthy _).
Qed.

(** On any name, [_setProperty] ends in one of five ways: outside the
    model (the prototype would be replaced), without any change (a
    primitive assigned to ['__proto__']), with the instance written in
    instance mode, with a TypeError after the instance was written (a
    read-only global in global mode), or with both written. *)
Lemma setProperty_cases prop v w :
  let w1 := upd_this (insert prop v) w in
  let w2 := upd_window (insert prop v) w1 in
  _setProperty prop v w = Unmodelled \/
  _setProperty prop v w = Ok tt w \/
  (truthy (lookup_this w1 "_isGlobal") = false /\
   _setProperty prop v w = Ok tt w1) \/
  (truthy (lookup_this w1 "_isGlobal") = true /\
   read_only_global prop = true /\
   _setProperty prop v w = Throw TypeError w1) \/
  (truthy (lookup_this w1 "_isGlobal") = true /\
   read_only_global prop = false /\
   _setProperty prop v w = Ok tt w2).
Proof.
  intros w1 w2. unfold _setProperty, this_assign, window_assign.
  destruct (String.eqb prop "__proto__") eqn:P.
  - assert (R : read_only_global prop = false).
    { apply String.eqb_eq in P. now subst prop. }
    rewrite R.
    unfold set_proto, this_get, when, bind, gets, ret, unmodelled.
    destruct v; auto; simpl; destruct (truthy _); auto.
  - unfold this_set, this_get, window_set, when, bind, modify, gets, ret, throw.
    simpl. fold w1.
    destruct (truthy (lookup_this w1 "_isGlobal")); [| auto].
    destruct (read_only_global prop); auto 10.
Qed.

(** An invariant kept by the two assignments is kept by [_setProperty]. *)
Lemma setProperty_keeps (I : world -> Prop) prop x :
  (forall u, I u -> I (upd_this (insert prop x) u)) ->
  (forall u, I u -> I (upd_window (insert prop x) u)) ->
  keeps I (_setProperty prop x).
Proof.
  intros H1 H2 w Hw. unfold wp.
  destruct (setProperty_cases prop x w)
    as [-> | [-> | [[_ ->] | [(_ & _ & ->) | (_ & _ & ->)]]]];
    auto.
Qed.

Lemma lookup_this_own w k v : this w !! k = Some v -> lookup_this w k = v.
Proof. unfold lookup_this. now intros ->. Qed.

Lemma lookup_this_insert w k j v :
  lookup_this (upd_this (insert k v) w) j
  = if String.eqb k j then v else lookup_this w j.
Proof.
  unfold lookup_this. simpl. destruct (String.eqb_spec k j) as [-> | N].
  - now rewrite lookup_insert_eq.
  - now rewrite lookup_insert_ne.
Qed.

(** What the constructor leaves on a fresh page before it binds the mode. *)
Lemma own_properties_page node win proto e now :
  exists w1, own_properties node (page win proto e now) = Ok tt w1 /\
    this w1 !! "frameCount" = Some (vint 0) /\
    this w1 !! "_isGlobal" = Some (VBool false) /\
    window w1 = win /\ prototype w1 = proto /\ env w1 = e /\
    listeners w1 = [] /\ onload w1 = false.
Proof.
  eexists. split; [reflexivity |].
  conjs; vm_compute; reflexivity.
Qed.


Lemma library_bindable :
  map_Forall (fun _ v => is_Some (bind_method v)) library.
Proof.
  apply (bool_decide_unpack (map_Forall (fun _ v => is_Some (bind_method v)) library)).
  vm_compute. exact I.
Qed.






(* ===================================================================== *)
(** * The frame counter *)
(* ===================================================================== *)

(** Decomposition of a computation into its steps, the state changes
    being left to [solve]. *)
Create HintDb keeps_db.

Ltac keeps_steps solve :=
  repeat first
    [ assumption
    | solve [auto 1 with keeps_db nocore]
    | apply keeps_ret | apply keeps_gets | apply keeps_arith
    | apply keeps_throw | apply keeps_unmodelled
    | apply keeps_modify; solve
    | apply keeps_when
    | apply keeps_bind; [| intros ?]
    | match goal with
      | |- keeps _ (if ?b then _ else _) => destruct b
      | |- keeps _ (match ?x with _ => _ end) => destruct x
      end ].

Ltac counting_solve :=
  try (intros ?w [?Hfc [?Hct [?Hs1 [?Hs2 ?Hs3]]]]);
  unfold counting, scripts_sat; simpl;
  repeat split;
  try (rewrite lookup_insert_ne by discriminate);
  try assumption;
  try (apply obj_sat_insert; [assumption | try exact Logic.I; try assumption]).

Section Counting.

Variables (v : value) (c : nat).
Local Abbreviation I := (counting v c).

Lemma counting_setTimeout d : keeps I (setTimeout d).
Proof. unfold setTimeout. keeps_steps counting_solve. Qed.
#[local] Hint Resolve counting_setTimeout : keeps_db.

Lemma counting_setInterval p : keeps I (setInterval p).
Proof. unfold setInterval. keeps_steps counting_solve. Qed.
#[local] Hint Resolve counting_setInterval : keeps_db.

Lemma counting_clearInterval u : keeps I (clearInterval u).
Proof.
  intros w Hw. unfold wp, clearInterval.
  destruct (handle_of u); [| exact Hw].
  destruct (intervals w !! n); [| exact Hw].
  revert w Hw. counting_solve.
Qed.
#[local] Hint Resolve counting_clearInterval : keeps_db.

Lemma counting_requestDraw : keeps I requestDraw.
Proof. unfold requestDraw. keeps_steps counting_solve. Qed.
#[local] Hint Resolve counting_requestDraw : keeps_db.

Lemma counting_load name path cb : keeps I (load name path cb).
Proof. unfold load. keeps_steps counting_solve. Qed.
#[local] Hint Resolve counting_load : keeps_db.

Lemma counting_createCanvas a b d : keeps I (createCanvas a b d).
Proof. unfold createCanvas. keeps_steps counting_solve. Qed.
#[local] Hint Resolve counting_createCanvas : keeps_db.

Lemma counting_context : keeps I context.
Proof. intros w Hw. unfold wp, context. now destruct (curElement w). Qed.
#[local] Hint Resolve counting_context : keeps_db.

Lemma counting_on_context f : keeps I (on_context f).
Proof.
  unfold on_context. apply keeps_bind; [apply counting_context | intros _].
  keeps_steps counting_solve.
Qed.
#[local] Hint Resolve counting_on_context : keeps_db.

Lemma counting_setProperty prop x :
  prop <> "frameCount" -> val_sat (leaves "frameCount") x ->
  keeps I (_setProperty prop x).
Proof.
  intros Hp Hx.
  apply setProperty_keeps; intros u (Hfc & Hct & Hs1 & Hs2 & Hs3);
    unfold counting, scripts_sat; simpl;
    rewrite ?lookup_insert_ne by congruence;
    repeat split; auto using obj_sat_insert.
Qed.
#[local] Hint Resolve counting_setProperty : keeps_db.

Lemma counting_runFrames : keeps I _runFrames.
Proof.
  unfold _runFrames, this_set.
  apply keeps_bind; [apply keeps_gets | intros u].
  apply keeps_bind; [apply keeps_when, counting_clearInterval | intros _].
  apply keeps_bind; [apply keeps_gets | intros r].
  apply keeps_bind; [apply keeps_arith | intros p].
  apply keeps_bind; [apply counting_setInterval | intros h].
  keeps_steps counting_solve.
Qed.
#[local] Hint Resolve counting_runFrames : keeps_db.

Lemma counting_preload func path : keeps I (_preload func path).
Proof.
  unfold _preload, pick_context.
  apply keeps_bind; [keeps_steps counting_solve | intros context].
  apply keeps_bind; [destruct context; apply keeps_gets | intros n0].
  apply keeps_bind_arith. intros n Hn.
  apply keeps_bind;
    [apply counting_setProperty;
       [discriminate | exact (js_add_sat _ _ _ _ Hn)] | intros _].
  apply keeps_bind; [apply keeps_gets | intros f].
  destruct f as [| | | | | | [ | name | | ]]; keeps_steps counting_solve.
Qed.
#[local] Hint Resolve counting_preload : keeps_db.

Lemma counting_call_loader name path : keeps I (call_loader name path).
Proof.
  unfold call_loader, pick_context.
  apply keeps_bind; [keeps_steps counting_solve | intros context].
  apply keeps_bind; [destruct context; apply keeps_gets | intros f].
  destruct f as [| | | | | | [ | n | n | func ]]; keeps_steps counting_solve.
Qed.
#[local] Hint Resolve counting_call_loader : keeps_db.

Lemma counting_run_cmd cmd : leaves "frameCount" cmd -> keeps I (run_cmd cmd).
Proof.
  intros Hc. destruct cmd; simpl.
  - apply counting_call_loader.
  - keeps_steps counting_solve.
  - apply counting_setProperty; [exact Hc | exact Logic.I].
  - apply counting_runFrames.
  - apply keeps_throw.
Qed.
#[local] Hint Resolve counting_run_cmd : keeps_db.

Lemma counting_run_script s :
  Forall (leaves "frameCount") s -> keeps I (run_script s).
Proof.
  induction 1 as [| cmd s Hc _ IH]; simpl.
  - apply keeps_ret.
  - apply keeps_bind; [now apply counting_run_cmd | intros _; exact IH].
Qed.
#[local] Hint Resolve counting_run_script : keeps_db.

Lemma counting_call_user o f :
  is_tick o = false -> val_sat (leaves "frameCount") f ->
  keeps I (call_user o f).
Proof.
  intros Ho Hf. destruct f as [| | | | | | [ body | | | ]]; simpl;
    try apply keeps_throw; try apply keeps_unmodelled.
  apply keeps_bind; [| intros _; now apply counting_run_script].
  apply keeps_modify. intros w (Hfc & Hct & Hs). unfold counting. simpl.
  rewrite Ho. auto.
Qed.
#[local] Hint Resolve counting_call_user : keeps_db.

Lemma counting_lookup_this k w :
  I w -> val_sat (leaves "frameCount") (lookup_this w k).
Proof. intros (_ & _ & Hs). now apply lookup_this_sat. Qed.

Lemma counting_window k w :
  I w -> val_sat (leaves "frameCount") (get (window w) k).
Proof. intros (_ & _ & _ & Hs & _). now apply obj_sat_get. Qed.

Lemma counting_prototype k w :
  I w -> val_sat (leaves "frameCount") (get (prototype w) k).
Proof. intros (_ & _ & _ & _ & Hs). now apply obj_sat_get. Qed.

Lemma counting_setup : keeps I _setup.
Proof.
  unfold _setup, this_get, window_get.
  eapply keeps_bind_gets_sat; [intros w; apply counting_lookup_this | intros a Ha].
  eapply keeps_bind_gets_sat; [intros w; apply counting_window | intros b Hb].
  apply keeps_when, counting_call_user; [reflexivity | now apply js_or_sat].
Qed.
#[local] Hint Resolve counting_setup : keeps_db.

Lemma counting_draw : keeps I _draw.
Proof.
  unfold _draw, getTime, this_get, window_get, this_set.
  apply keeps_bind; [apply keeps_gets | intros now].
  apply keeps_bind; [apply keeps_gets | intros last].
  apply keeps_bind_arith. intros elapsed He.
  apply keeps_bind_arith. intros rate Hr.
  apply keeps_bind; [apply keeps_modify; counting_solve | intros _].
  { exact (js_div_sat _ _ _ _ Hr). }
  apply keeps_bind; [apply keeps_modify; counting_solve | intros _].
  { unfold js_sub in He. destruct now; try exact Logic.I. discriminate. }
  eapply keeps_bind_gets_sat; [intros w; apply counting_lookup_this | intros a Ha].
  eapply keeps_bind_gets_sat; [intros w; apply counting_window | intros b Hb].
  apply keeps_bind; [apply keeps_gets | intros looping].
  apply keeps_bind; [keeps_steps counting_solve | intros _].
  apply keeps_bind; [| intros _; apply counting_on_context].
  apply keeps_when, counting_call_user; [reflexivity | now apply js_or_sat].
Qed.
#[local] Hint Resolve counting_draw : keeps_db.

Lemma counting_preload_done context : keeps I (preload_done context).
Proof.
  unfold preload_done.
  apply keeps_bind; [destruct context; apply keeps_gets | intros n0].
  apply keeps_bind_arith. intros n Hn.
  apply keeps_bind;
    [apply counting_setProperty;
       [discriminate | exact (js_sub_sat _ _ _ _ Hn)] | intros _].
  apply keeps_bind; [destruct context; apply keeps_gets | intros n1].
  keeps_steps counting_solve.
Qed.
#[local] Hint Resolve counting_preload_done : keeps_db.

Lemma counting_target_set context k x :
  k <> "frameCount" -> val_sat (leaves "frameCount") x ->
  keeps I (target_set context k x).
Proof.
  intros Hk Hx.
  destruct context; apply keeps_modify;
    intros w (Hfc & Hct & Hs1 & Hs2 & Hs3); unfold counting, scripts_sat; simpl.
  - repeat split; auto using obj_sat_insert.
  - rewrite lookup_insert_ne by congruence.
    repeat split; auto using obj_sat_insert.
Qed.

Lemma counting_start : keeps I _start.
Proof.
  unfold _start, this_get, window_get, proto_get, this_set, pick_context.
  apply keeps_bind; [apply counting_createCanvas | intros _].
  apply keeps_bind; [apply keeps_gets | intros node].
  apply keeps_bind; [| intros _].
  { apply keeps_when. unfold getElementById.
    apply keeps_bind_gets_sat with (P := val_sat (leaves "frameCount")).
    - intros w _. destruct node; try exact Logic.I.
      now destruct (document (env w) !! s).
    - intros el Hel. apply keeps_modify. counting_solve. }
  eapply keeps_bind_gets_sat; [intros w; apply counting_lookup_this | intros a Ha].
  eapply keeps_bind_gets_sat; [intros w; apply counting_window | intros b Hb].
  apply keeps_bind; [keeps_steps counting_solve | intros context].
  destruct (truthy (js_or a b)); [| keeps_steps counting_solve].
  apply keeps_bind; [| intros _].
  { unfold instrument.
    repeat (apply keeps_bind; [| intros _]);
      apply counting_target_set; (discriminate || exact Logic.I). }
  apply keeps_bind;
    [apply counting_call_user; [reflexivity | now apply js_or_sat] | intros _].
  apply keeps_bind; [apply keeps_modify; counting_solve | intros _].
  unfold restore, proto_get.
  repeat (apply keeps_bind; [| intros _]);
    (eapply keeps_bind_gets_sat;
      [intros w; apply counting_prototype
      | intros f Hf; apply counting_target_set; [discriminate | exact Hf]]).
Qed.
#[local] Hint Resolve counting_start : keeps_db.

Lemma counting_forward handler : keeps I (forward handler).
Proof.
  unfold forward, this_get.
  eapply keeps_bind_gets_sat; [intros w; apply counting_lookup_this | intros f Hf].
  destruct f as [| | | | | | [ body | | | ]];
    try apply keeps_throw; try apply keeps_unmodelled.
  now apply counting_run_script.
Qed.

Lemma counting_deliver ty ls : keeps I (deliver ty ls).
Proof.
  induction ls as [| [t handler] ls IH]; simpl; [apply keeps_ret |].
  destruct (String.eqb t ty); [| exact IH].
  intros w Hw. unfold wp.
  pose proof (counting_forward handler w Hw) as Hf. unfold wp in Hf.
  destruct (forward handler w) as [[] w1 | e w1 |]; [| | exact Logic.I].
  - apply IH, Hf.
  - pose proof (IH w1 Hf) as Hd. unfold wp in Hd.
    now destruct (deliver ty ls w1).
Qed.

(** Every event but the firing of a live interval timer. *)
Lemma counting_dispatch_idle now e :
  (forall h, e <> EvInterval h) -> keeps I (dispatch now e).
Proof.
  intros He. unfold dispatch.
  apply keeps_bind; [apply keeps_modify; counting_solve | intros _].
  destruct e as [| h | h | h | id | ty].
  - keeps_steps counting_solve.
  - now destruct (He h).
  - apply keeps_bind; [apply keeps_gets | intros t].
    apply keeps_when.
    apply keeps_bind; [apply keeps_modify; counting_solve | intros _].
    apply counting_requestDraw.
  - apply keeps_bind; [apply keeps_gets | intros t].
    apply keeps_when.
    apply keeps_bind; [apply keeps_modify; counting_solve | intros _].
    apply counting_draw.
  - apply keeps_bind; [apply keeps_gets | intros r].
    destruct r as [[context |] |]; keeps_steps counting_solve.
  - apply keeps_bind; [apply keeps_gets | intros ls].
    apply counting_deliver.
Qed.

End Counting.

(** The interval callback adds one, through [_setProperty]; at 2^53
    the sum is 2^53 again. *)
Lemma tick_setProperty n w :
  0 <= n <= two53 ->
  this w !! "frameCount" = Some (vint n) ->
  tick w = _setProperty "frameCount" (vint (Z.min (n + 1) two53)) (log OTick w).
Proof.
  intros Hn H. unfold tick, this_get.
  rewrite bind_modify, bind_gets.
  rewrite (lookup_this_own (log OTick w) "frameCount" (vint n)) by exact H.
  now rewrite js_add_one.
Qed.

Lemma counting_tick n c w :
  0 <= n <= two53 ->
  counting (vint n) c w ->
  exists w', tick w = Ok tt w' /\
             counting (vint (Z.min (n + 1) two53)) (S c) w'.
Proof.
  intros Hn (Hfc & Hct & Hs1 & Hs2 & Hs3).
  rewrite (tick_setProperty n w Hn Hfc), setProperty_eq by reflexivity.
  cbv zeta.
  eexists. split; [reflexivity |].
  destruct (truthy _); unfold counting, scripts_sat; simpl;
    rewrite lookup_insert_eq, Hct;
    repeat split; try assumption;
    apply obj_sat_insert; (assumption || exact Logic.I).
Qed.

Lemma dispatch_interval now h w :
  dispatch now (EvInterval h) w =
  match intervals w !! h with
  | Some _ => tick (upd_clock (fun _ => now) w)
  | None => Ok tt (upd_clock (fun _ => now) w)
  end.
Proof.
  unfold dispatch. rewrite bind_modify, bind_gets.
  change (intervals (upd_clock (fun _ => now) w)) with (intervals w).
  now destruct (intervals w !! h).
Qed.

Lemma counting_dispatch n c now e w :
  0 <= n <= two53 ->
  counting (vint n) c w ->
  wp (dispatch now e)
     (fun _ w' => exists k : nat,
        counting (vint (Z.min (n + Z.of_nat k) two53)) (c + k) w')
     (fun w' => exists k : nat,
        counting (vint (Z.min (n + Z.of_nat k) two53)) (c + k) w') w.
Proof.
  intros Hn Hw.
  assert (Hidle : forall w',
             counting (vint n) c w' ->
             exists k : nat,
               counting (vint (Z.min (n + Z.of_nat k) two53)) (c + k) w').
  { intros w' H. exists 0%nat.
    now rewrite Z.add_0_r, Nat.add_0_r, Z.min_l by lia. }
  assert (Hcase : (exists h, e = EvInterval h) \/ (forall h, e <> EvInterval h)).
  { destruct e; try (right; intros ?; discriminate). left. eauto. }
  destruct Hcase as [[h ->] | Hne].
  - assert (Hc : counting (vint n) c (upd_clock (fun _ => now) w)).
    { revert w Hw. counting_solve. }
    unfold wp. rewrite dispatch_interval.
    destruct (intervals w !! h) as [p |].
    + destruct (counting_tick n c _ Hn Hc) as (w' & -> & H').
      exists 1%nat. now rewrite Nat.add_1_r.
    + now apply Hidle.
  - eapply wp_mono.
    + apply (counting_dispatch_idle (vint n) c now e); [exact Hne | exact Hw].
    + intros a w'. apply Hidle.
    + apply Hidle.
Qed.

Lemma counting_run evs : forall n c w w',
  0 <= n <= two53 ->
  counting (vint n) c w -> run evs w = Some w' ->
  exists k : nat, counting (vint (Z.min (n + Z.of_nat k) two53)) (c + k) w'.
Proof.
  induction evs as [| [now e] evs IH]; intros n c w w' Hn Hw; simpl.
  - intros [= <-]. exists 0%nat.
    now rewrite Z.add_0_r, Nat.add_0_r, Z.min_l by lia.
  - pose proof (counting_dispatch n c now e w Hn Hw) as Hd. unfold wp in Hd.
    destruct (dispatch now e w) as [[] w1 | ex w1 |]; simpl; [| | discriminate];
      destruct Hd as (k1 & H1); intros Hr;
      (assert (Hm : 0 <= Z.min (n + Z.of_nat k1) two53 <= two53) by lia);
      destruct (IH _ _ _ _ Hm H1 Hr) as (k2 & H2);
      exists (k1 + k2)%nat;
      (replace (Z.min (n + Z.of_nat (k1 + k2)) two53)
         with (Z.min (Z.min (n + Z.of_nat k1) two53 + Z.of_nat k2) two53)
         by lia);
      now rewrite Nat.add_assoc.
Qed.

(** The sketch of the example below at the moment its counter has
    reached 2^53: the next firing of the interval timer leaves the
    counter where it is, because the double nearest to [2^53 + 1] is
    [2^53]. *)
Lemma frameCount_saturated_counterexample :
  this saturated_sketch !! "frameCount" = Some (vint two53) /\
  scripts_sat (leaves "frameCount") saturated_sketch /\
  is_Some (intervals saturated_sketch !! 10%nat) /\
  run [(116, EvInterval 10)] saturated_sketch
    = Some (after [(116, EvInterval 10)] saturated_sketch) /\
  count is_tick (trace (after [(116, EvInterval 10)] saturated_sketch))
    = S (count is_tick (trace saturated_sketch)) /\
  this (after [(116, EvInterval 10)] saturated_sketch) !! "frameCount"
    = Some (vint two53) /\
  vint two53 <> vint (two53 + 1).
Proof.
  split; [vm_compute; reflexivity |].
  split.
  { apply (@bool_decide_unpack _
             (scripts_sat_dec (leaves "frameCount") (leaves_dec "frameCount")
                              saturated_sketch)).
    vm_compute. exact Logic.I. }
  split; [vm_compute; eauto |].
  split; [computed |].
  split; [vm_compute; reflexivity |].
  split; [vm_compute; reflexivity |].
  vm_compute. discriminate.
Qed.

(** C8, amended.  Let [frameCount] be the integer [n], between 0 and
    2^53, and let no user callback assign [frameCount].  Then a firing
    of a live interval timer sets [frameCount], by way of
    [_setProperty], to [n + 1] if [n] is below 2^53 and to 2^53 if [n]
    is 2^53; and after any run of the event loop [frameCount] is
    [n + k], where [k] is the number of times the interval callback
    fired during the run, or 2^53 if [n + k] exceeds it.  So the counter
    stays a non-negative integer, never decreases and is never reset,
    whatever the user callbacks do with [_targetFrameRate] and
    [_runFrames], and it increases by exactly 1 on each firing as long
    as it is below 2^53. *)
Theorem frameCount_counts_ticks evs n w w' :
  0 <= n <= two53 ->
  this w !! "frameCount" = Some (vint n) ->
  scripts_sat (leaves "frameCount") w ->
  run evs w = Some w' ->
  (forall now h,
      is_Some (intervals w !! h) ->
      dispatch now (EvInterval h) w
        = _setProperty "frameCount" (vint (Z.min (n + 1) two53))
            (log OTick (upd_clock (fun _ => now) w)) /\
      exists w1, dispatch now (EvInterval h) w = Ok tt w1 /\
                 this w1 !! "frameCount" = Some (vint (Z.min (n + 1) two53)) /\
                 (n < two53 -> this w1 !! "frameCount" = Some (vint (n + 1)))) /\
  exists k : nat,
    count is_tick (trace w') = (count is_tick (trace w) + k)%nat /\
    this w' !! "frameCount" = Some (vint (Z.min (n + Z.of_nat k) two53)) /\
    (n + Z.of_nat k <= two53 ->
     this w' !! "frameCount" = Some (vint (n + Z.of_nat k))) /\
    n <= Z.min (n + Z.of_nat k) two53.
Proof.
  intros Hn Hfc Hs Hrun. split.
  - intros now h [p Hp]. rewrite dispatch_interval, Hp.
    assert (Hc : counting (vint n) (count is_tick (trace w))
                   (upd_clock (fun _ => now) w)).
    { unfold counting. simpl. auto. }
    split; [now apply tick_setProperty |].
    destruct (counting_tick _ _ _ Hn Hc) as (w1 & E & H1 & _).
    exists w1. split; [exact E |]. split; [exact H1 |].
    intros L. rewrite H1. now rewrite Z.min_l by lia.
  - assert (Hc : counting (vint n) (count is_tick (trace w)) w).
    { unfold counting. auto. }
    destruct (counting_run evs _ _ _ _ Hn Hc Hrun) as (k & H1 & H2 & _).
    exists k. split; [exact H2 |]. split; [exact H1 |].
    split; [| lia].
    intros L. rewrite H1. now rewrite Z.min_l by lia.
Qed.

Lemma frameCount_counts_ticks_witness :
  0 <= 0 <= two53 /\
  this retiming_sketch !! "frameCount" = Some (vint 0) /\
  scripts_sat (leaves "frameCount") retiming_sketch /\
  run retiming_run retiming_sketch
    = Some (after retiming_run retiming_sketch) /\
  exists k : nat,
    count is_tick (trace (after retiming_run retiming_sketch))
      = (count is_tick (trace retiming_sketch) + k)%nat /\
    this (after retiming_run retiming_sketch)
      !! "frameCount" = Some (vint (Z.min (0 + Z.of_nat k) two53)) /\
    (0 + Z.of_nat k <= two53 ->
     this (after retiming_run retiming_sketch)
       !! "frameCount" = Some (vint (0 + Z.of_nat k))) /\
    0 <= Z.min (0 + Z.of_nat k) two53.
Proof.
  assert (H0 : 0 <= 0 <= two53) by (unfold two53; lia).
  assert (H1 : this retiming_sketch !! "frameCount" = Some (vint 0))
    by (vm_compute; reflexivity).
  assert (H2 : scripts_sat (leaves "frameCount") retiming_sketch).
  { apply (@bool_decide_unpack _
             (scripts_sat_dec (leaves "frameCount") (leaves_dec "frameCount")
                              retiming_sketch)).
    vm_compute. exact Logic.I. }
  assert (H3 : run retiming_run retiming_sketch
               = Some (after retiming_run retiming_sketch))
    by computed.
  split; [exact H0 |]. split; [exact H1 |]. split; [exact H2 |].
  split; [exact H3 |].
  exact (proj2 (frameCount_counts_ticks retiming_run 0 retiming_sketch _
                  H0 H1 H2 H3)).
Defined.

(** The run above has three firings in it, two of them of the timer
    armed when the draw callback called [_runFrames] again. *)
Example retiming_run_counts :
  option_map (fun w => (this w !! "frameCount", count is_tick (trace w)))
             (run retiming_run retiming_sketch)
  = Some (Some (vint 3), 3%nat).
Proof. vm_compute. reflexivity. Qed.

(* ===================================================================== *)
(** * What user callbacks cannot change *)
(* ===================================================================== *)

(** An invariant that survives the state changes a user callback can
    cause survives the callback. *)
Section ScriptFrame.

Variable I : world -> Prop.
Variable ok : string -> Prop.

Hypothesis I_this : forall k x w, ok k -> I w -> I (upd_this (insert k x) w).
Hypothesis I_window : forall k x w, ok k -> I w -> I (upd_window (insert k x) w).
Hypothesis I_settings : forall f w, I w -> I (upd_settings f w).
Hypothesis I_next_id : forall f w, I w -> I (upd_next_id f w).
Hypothesis I_intervals : forall f w, I w -> I (upd_intervals f w).
Hypothesis I_requests : forall f w, I w -> I (upd_requests f w).
Hypothesis I_request : forall id name w, I w -> I (log (ORequest id name) w).
Hypothesis I_arm : forall h p w, I w -> I (log (OArm h p) w).
Hypothesis I_disarm : forall h w, I w -> I (log (ODisarm h) w).
Hypothesis ok_updateInterval : ok "updateInterval".
Hypothesis ok_preload_count : ok "preload-count".

Lemma frame_setProperty prop x : ok prop -> keeps I (_setProperty prop x).
Proof.
  intros Hp. apply setProperty_keeps; auto.
Qed.

Lemma frame_clearInterval u : keeps I (clearInterval u).
Proof.
  intros w Hw. unfold wp, clearInterval.
  destruct (handle_of u); [| exact Hw].
  destruct (intervals w !! n); [| exact Hw].
  apply I_disarm, I_intervals, Hw.
Qed.

Lemma frame_setInterval p : keeps I (setInterval p).
Proof.
  intros w Hw. unfold wp, setInterval, fresh, bind, modify, ret. simpl.
  apply I_arm, I_intervals, I_next_id, Hw.
Qed.

Lemma frame_load name path cb : keeps I (load name path cb).
Proof.
  intros w Hw. unfold wp, load, fresh, bind, modify, ret. simpl.
  apply I_requests, I_next_id, Hw.
Qed.

Lemma frame_runFrames : keeps I _runFrames.
Proof.
  unfold _runFrames, this_set.
  apply keeps_bind; [apply keeps_gets | intros u].
  apply keeps_bind; [apply keeps_when, frame_clearInterval | intros _].
  apply keeps_bind; [apply keeps_gets | intros r].
  apply keeps_bind; [apply keeps_arith | intros p].
  apply keeps_bind; [apply frame_setInterval | intros h].
  apply keeps_modify. auto.
Qed.

Lemma frame_preload func path : keeps I (_preload func path).
Proof.
  unfold _preload, pick_context.
  apply keeps_bind; [| intros context].
  { apply keeps_bind; [apply keeps_gets | intros g; apply keeps_ret]. }
  apply keeps_bind; [destruct context; apply keeps_gets | intros n0].
  apply keeps_bind; [apply keeps_arith | intros n].
  apply keeps_bind; [now apply frame_setProperty | intros _].
  apply keeps_bind; [apply keeps_gets | intros f].
  destruct f as [| | | | | | [ | name | | ]];
    try apply keeps_throw; try apply keeps_unmodelled.
  destruct (is_loader name); [| apply keeps_unmodelled].
  apply keeps_bind; [apply frame_load | intros r].
  apply keeps_bind; [| intros _; apply keeps_ret].
  apply keeps_modify. auto.
Qed.

Lemma frame_call_loader name path : keeps I (call_loader name path).
Proof.
  unfold call_loader, pick_context.
  apply keeps_bind; [| intros context].
  { apply keeps_bind; [apply keeps_gets | intros g; apply keeps_ret]. }
  apply keeps_bind; [destruct context; apply keeps_gets | intros f].
  destruct f as [| | | | | | [ | n | n | func ]];
    try apply keeps_throw; try apply keeps_unmodelled.
  - destruct (is_loader n); [| apply keeps_unmodelled].
    apply keeps_bind; [apply frame_load | intros _; apply keeps_ret].
  - destruct (is_loader n); [| apply keeps_unmodelled].
    apply keeps_bind; [apply frame_load | intros _; apply keeps_ret].
  - apply keeps_bind; [apply frame_preload | intros _; apply keeps_ret].
Qed.

Lemma frame_run_cmd cmd : assigns_only ok cmd -> keeps I (run_cmd cmd).
Proof.
  intros Hc. destruct cmd; simpl.
  - apply frame_call_loader.
  - apply keeps_modify. auto.
  - now apply frame_setProperty.
  - apply frame_runFrames.
  - apply keeps_throw.
Qed.

Lemma frame_run_script s : Forall (assigns_only ok) s -> keeps I (run_script s).
Proof.
  induction 1 as [| cmd s Hc _ IH]; simpl.
  - apply keeps_ret.
  - apply keeps_bind; [now apply frame_run_cmd | intros _; exact IH].
Qed.

(** ... provided that entering the callback, which is recorded as [o],
    does not break the invariant either. *)
Lemma frame_call_user o f :
  (forall w, I w -> I (log o w)) -> val_sat (assigns_only ok) f ->
  keeps I (call_user o f).
Proof.
  intros Ho Hf. destruct f as [| | | | | | [ body | | | ]]; simpl;
    try apply keeps_throw; try apply keeps_unmodelled.
  apply keeps_bind; [| intros _; now apply frame_run_script].
  now apply keeps_modify.
Qed.

End ScriptFrame.

(** A property that the callback does not assign keeps its value. *)
Lemma property_call_user k v o f :
  k <> "updateInterval" -> k <> "preload-count" ->
  val_sat (leaves k) f ->
  keeps (fun w => this w !! k = Some v) (call_user o f).
Proof.
  intros H1 H2 Hf.
  apply frame_call_user with (ok := fun n => n <> k); try exact Hf; auto;
    intros; simpl; rewrite lookup_insert_ne by assumption; assumption.
Qed.

Lemma property_on_context k v f :
  keeps (fun w => this w !! k = Some v) (on_context f).
Proof.
  intros w Hw. unfold wp, on_context, bind, context, modify.
  now destruct (curElement w).
Qed.

Lemma property_setTimeout k v d :
  keeps (fun w => this w !! k = Some v) (setTimeout d).
Proof. intros w Hw. exact Hw. Qed.

(* ===================================================================== *)
(** * The measured frame rate *)
(* ===================================================================== *)

Lemma num_sub_of_Z a b : num_sub (of_Z a) (of_Z b) = of_Z (a - b).
Proof.
  unfold num_sub, num_neg, num_add, of_Z, inject_Z, Qplus, Qopp. simpl.
  f_equal. f_equal. lia.
Qed.

Lemma js_sub_vint a b : js_sub (vint a) (vint b) = Some (vint (a - b)).
Proof.
  change (js_sub (vint a) (vint b))
    with (Some (VNum (num_sub (of_Z a) (of_Z b)))).
  now rewrite num_sub_of_Z.
Qed.

(** [1000 / d] for an integer [d]. *)
Lemma thousand_over d :
  num_div (of_Z 1000) (of_Z d)
  = if d =? 0 then PosInf else Finite (Qdiv (inject_Z 1000) (inject_Z d)).
Proof.
  unfold num_div, of_Z. simpl Qnum.
  destruct (Z.compare_spec d 0) as [-> | L | G].
  - reflexivity.
  - rewrite (proj2 (Z.eqb_neq d 0)) by lia. reflexivity.
  - rewrite (proj2 (Z.eqb_neq d 0)) by lia. reflexivity.
Qed.

(** The first three statements of [_draw]. *)
Lemma draw_unfold w t :
  lookup_this w "_lastFrameTime" = vint t ->
  let r := num_div (of_Z 1000) (of_Z (clock w - t)) in
  let w1 := upd_this (insert "_lastFrameTime" (vint (clock w)))
              (upd_this (insert "_frameRate" (VNum r)) w) in
  let userDraw := js_or (lookup_this w "draw") (get (window w) "draw") in
  _draw w =
  (when (truthy (get (settings w) "loop"))
     (r <~ this_get "_targetFrameRate";;
      d <~ arith (js_div (vint 1000) r);;
      setTimeout (as_number d);;; ret tt);;;
   when (is_function userDraw) (call_user ODraw userDraw);;;
   on_context (ctx_call (CSetTransform (of_Z 1) (of_Z 0) (of_Z 0)
                                       (of_Z 1) (of_Z 0) (of_Z 0)))) w1.
Proof.
  intros Hl r w1 userDraw. unfold _draw, getTime, this_get, window_get, this_set.
  rewrite !bind_gets, Hl, js_sub_vint.
  change (arith (Some ?x)) with (ret x). rewrite bind_ret.
  change (js_div (vint 1000) (vint (clock w - t))) with (Some (VNum r)).
  change (arith (Some ?x)) with (ret x). rewrite bind_ret.
  rewrite !bind_modify. fold w1. rewrite !bind_gets.
  replace (lookup_this w1 "draw") with (lookup_this w "draw")
    by (unfold w1; now rewrite !lookup_this_insert).
  reflexivity.
Qed.

(** A sketch that asks for 5000 frames per second: its first draw is at
    clock reading 100, the timeout of a fifth of a millisecond expires
    and the next draw happens while the clock still reads 100.  The
    measured frame rate becomes [+Infinity]. *)
Lemma zero_elapsed_counterexample :
  this hasty_sketch !! "_lastFrameTime" = Some (vint 100) /\
  run [(100, EvTimeout 9); (100, EvFrame 10)] hasty_sketch
    = Some (after [(100, EvTimeout 9); (100, EvFrame 10)] hasty_sketch) /\
  this (after [(100, EvTimeout 9); (100, EvFrame 10)] hasty_sketch)
    !! "_frameRate" = Some (VNum PosInf) /\
  is_finite PosInf = false.
Proof. conjs; computed. Qed.

(** C5, amended.  Let [_lastFrameTime] hold the clock reading [t] of the
    previous draw-driver invocation, and let the user's draw callback not
    assign [_frameRate] itself.  Whenever [_draw] runs, whether the draw
    callback returns or throws, it leaves [1000 / (now - t)] in
    [_frameRate], without clamping and without skipping a sample: when
    the elapsed time [now - t] is 0 that is [+Infinity], a non-finite
    value, and when it is not 0 the value is finite. *)
Theorem draw_frame_rate w w' t :
  lookup_this w "_lastFrameTime" = vint t ->
  val_sat (leaves "_frameRate")
          (js_or (lookup_this w "draw") (get (window w) "draw")) ->
  world_of (_draw w) = Some w' ->
  exists r,
    this w' !! "_frameRate" = Some (VNum r) /\
    r = num_div (of_Z 1000) (of_Z (clock w - t)) /\
    r = (if clock w =? t then PosInf
         else Finite (Qdiv (inject_Z 1000) (inject_Z (clock w - t)))) /\
    is_finite r = negb (clock w =? t).
Proof.
  intros Hl Hu Hd.
  set (r := num_div (of_Z 1000) (of_Z (clock w - t))).
  assert (Hr : r = if clock w =? t then PosInf
                   else Finite (Qdiv (inject_Z 1000) (inject_Z (clock w - t)))).
  { unfold r. rewrite thousand_over.
    destruct (Z.eqb_spec (clock w) t) as [E | N].
    - rewrite (proj2 (Z.eqb_eq _ 0)) by lia. reflexivity.
    - rewrite (proj2 (Z.eqb_neq _ 0)) by lia. reflexivity. }
  exists r. split; [| split; [reflexivity | split; [exact Hr |]]].
  - rewrite (draw_unfold w t Hl) in Hd. cbv zeta in Hd. fold r in Hd.
    refine (wp_world_of _ (fun u => this u !! "_frameRate" = Some (VNum r))
              _ w' _ Hd).
    assert (K : keeps (fun u => this u !! "_frameRate" = Some (VNum r))
      (when (truthy (get (settings w) "loop"))
         (r0 <~ this_get "_targetFrameRate";;
          d <~ arith (js_div (vint 1000) r0);;
          setTimeout (as_number d);;; ret tt);;;
       when (is_function (js_or (lookup_this w "draw") (get (window w) "draw")))
         (call_user ODraw (js_or (lookup_this w "draw") (get (window w) "draw")));;;
       on_context (ctx_call (CSetTransform (of_Z 1) (of_Z 0) (of_Z 0)
                                           (of_Z 1) (of_Z 0) (of_Z 0))))).
    { apply keeps_bind; [| intros _].
      { apply keeps_when. apply keeps_bind; [apply keeps_gets | intros r0].
        apply keeps_bind; [apply keeps_arith | intros d].
        apply keeps_bind; [apply property_setTimeout | intros _; apply keeps_ret]. }
      apply keeps_bind; [| intros _; apply property_on_context].
      apply keeps_when, property_call_user; [discriminate | discriminate | exact Hu]. }
    apply K. simpl. rewrite lookup_insert_ne by discriminate.
    apply lookup_insert_eq.
  - rewrite Hr. now destruct (clock w =? t).
Qed.

Lemma draw_frame_rate_witness :
  lookup_this hasty_sketch "_lastFrameTime" = vint 100 /\
  val_sat (leaves "_frameRate")
          (js_or (lookup_this hasty_sketch "draw")
                 (get (window hasty_sketch) "draw")) /\
  world_of (_draw hasty_sketch) = Some (outcome hasty_sketch (_draw hasty_sketch)) /\
  exists r,
    this (outcome hasty_sketch (_draw hasty_sketch)) !! "_frameRate"
      = Some (VNum r) /\
    r = num_div (of_Z 1000) (of_Z (clock hasty_sketch - 100)) /\
    r = (if clock hasty_sketch =? 100 then PosInf
         else Finite (Qdiv (inject_Z 1000)
                           (inject_Z (clock hasty_sketch - 100)))) /\
    is_finite r = negb (clock hasty_sketch =? 100).
Proof.
  assert (H1 : lookup_this hasty_sketch "_lastFrameTime" = vint 100)
    by (vm_compute; reflexivity).
  assert (H2 : val_sat (leaves "_frameRate")
                 (js_or (lookup_this hasty_sketch "draw")
                        (get (window hasty_sketch) "draw")))
    by (vm_compute; constructor).
  assert (H3 : world_of (_draw hasty_sketch)
               = Some (outcome hasty_sketch (_draw hasty_sketch)))
    by computed.
  split; [exact H1 |]. split; [exact H2 |]. split; [exact H3 |].
  exact (draw_frame_rate hasty_sketch _ 100 H1 H2 H3).
Defined.

(* ===================================================================== *)
(** * Re-arming of the two periodic activities *)
(* ===================================================================== *)

(** [_draw], whatever [_lastFrameTime] holds. *)
Lemma draw_unfold_any w :
  match to_number (lookup_this w "_lastFrameTime") with
  | None => _draw w = Unmodelled
  | Some l =>
      let r := num_div (of_Z 1000) (num_sub (of_Z (clock w)) l) in
      let w1 := upd_this (insert "_lastFrameTime" (vint (clock w)))
                  (upd_this (insert "_frameRate" (VNum r)) w) in
      let userDraw := js_or (lookup_this w "draw") (get (window w) "draw") in
      _draw w =
      (when (truthy (get (settings w) "loop"))
         (r <~ this_get "_targetFrameRate";;
          d <~ arith (js_div (vint 1000) r);;
          setTimeout (as_number d);;; ret tt);;;
       when (is_function userDraw) (call_user ODraw userDraw);;;
       on_context (ctx_call (CSetTransform (of_Z 1) (of_Z 0) (of_Z 0)
                                           (of_Z 1) (of_Z 0) (of_Z 0)))) w1
  end.
Proof.
  unfold _draw, getTime, this_get, window_get, this_set.
  rewrite !bind_gets. unfold js_sub. simpl (to_number (vint _)).
  destruct (to_number (lookup_this w "_lastFrameTime")) as [l |]; [| reflexivity].
  cbv zeta.
  change (arith (Some ?x)) with (ret x). rewrite bind_ret.
  change (js_div (vint 1000) (VNum ?y))
    with (Some (VNum (num_div (of_Z 1000) y))).
  change (arith (Some ?x)) with (ret x). rewrite bind_ret.
  rewrite !bind_modify, !bind_gets.
  rewrite !lookup_this_insert. reflexivity.
Qed.

(** The part of [_draw] that follows the scheduling of the next
    invocation leaves the timers and the frame requests alone. *)
Lemma draw_rest_keeps_timers T F userDraw :
  keeps (fun u => timeouts u = T /\ frames u = F)
    (when (is_function userDraw) (call_user ODraw userDraw);;;
     on_context (ctx_call (CSetTransform (of_Z 1) (of_Z 0) (of_Z 0)
                                         (of_Z 1) (of_Z 0) (of_Z 0)))).
Proof.
  apply keeps_bind; [| intros _].
  - destruct (is_function userDraw) eqn:Hf; [| apply keeps_ret]. simpl.
    destruct userDraw as [| | | | | | [ body | | | ]];
      try apply keeps_throw; try apply keeps_unmodelled.
    apply frame_call_user with (ok := fun _ => True); auto.
    + simpl. clear. induction body as [| c s IH]; constructor; auto.
      now destruct c.
  - intros w Hw. unfold wp, on_context, bind, context, modify.
    now destruct (curElement w).
Qed.

(** After the interval timer armed for 60 frames per second has fired
    three times, each time with the target frame rate at 30, it is
    still the timer armed at construction, with the period it was armed
    with, which is not [1000 / 30]. *)
Lemma ticker_not_rearmed_counterexample :
  intervals slowing_sketch !! 8%nat = Some (num_div (of_Z 1000) (of_Z 60)) /\
  lookup_this slowing_sketch "_targetFrameRate" = vint 30 /\
  run [(117, EvInterval 8); (133, EvInterval 8); (150, EvInterval 8)]
      slowing_sketch
    = Some (after [(117, EvInterval 8); (133, EvInterval 8); (150, EvInterval 8)]
                  slowing_sketch) /\
  count is_tick
    (trace (after [(117, EvInterval 8); (133, EvInterval 8); (150, EvInterval 8)]
                  slowing_sketch)) = 3%nat /\
  lookup_this
    (after [(117, EvInterval 8); (133, EvInterval 8); (150, EvInterval 8)]
           slowing_sketch) "_targetFrameRate" = vint 30 /\
  map_to_list
    (intervals
       (after [(117, EvInterval 8); (133, EvInterval 8); (150, EvInterval 8)]
              slowing_sketch))
    = [(8%nat, num_div (of_Z 1000) (of_Z 60))] /\
  num_eqb (num_div (of_Z 1000) (of_Z 60)) (num_div (of_Z 1000) (of_Z 30))
    = false.
Proof. conjs; computed. Qed.

Lemma draw_schedules w w' r :
  truthy (get (settings w) "loop") = true ->
  lookup_this w "_targetFrameRate" = VNum r ->
  world_of (_draw w) = Some w' ->
  timeouts w' = <[S (next_id w) := num_div (of_Z 1000) r]> (timeouts w) /\
  frames w' = frames w.
Proof.
  intros Hloop Hr Hd. pose proof (draw_unfold_any w) as U.
  destruct (to_number (lookup_this w "_lastFrameTime")) as [l |];
    [| rewrite U in Hd; discriminate].
  cbv zeta in U. rewrite U in Hd. clear U. rewrite Hloop in Hd.
  unfold when at 1 in Hd. unfold this_get in Hd.
  rewrite (bind_Ok _ _ _ tt
    (log (OSchedule (S (next_id w)) (num_div (of_Z 1000) r))
       (upd_timeouts (insert (S (next_id w)) (num_div (of_Z 1000) r))
          (upd_next_id S
             (upd_this (insert "_lastFrameTime" (vint (clock w)))
                (upd_this (insert "_frameRate"
                   (VNum (num_div (of_Z 1000) (num_sub (of_Z (clock w)) l))))
                   w)))))) in Hd.
  - refine (wp_world_of _ (fun u => timeouts u = _ /\ frames u = _) _ w' _ Hd).
    apply draw_rest_keeps_timers. split; reflexivity.
  - rewrite bind_gets, !lookup_this_insert. simpl. rewrite Hr. reflexivity.
Qed.

Lemma tick_keeps_intervals m : keeps (fun u => intervals u = m) tick.
Proof.
  unfold tick, this_get.
  apply keeps_bind; [now apply keeps_modify | intros _].
  apply keeps_bind; [apply keeps_gets | intros c].
  apply keeps_bind; [apply keeps_arith | intros n].
  apply setProperty_keeps; auto.
Qed.

Lemma runFrames_arms w r :
  lookup_this w "_targetFrameRate" = VNum r ->
  exists w',
    _runFrames w = Ok tt w' /\
    intervals w'
      = <[S (next_id w) := num_div (of_Z 1000) r]>
          (if truthy (lookup_this w "updateInterval")
           then cleared (lookup_this w "updateInterval") (intervals w)
           else intervals w) /\
    this w' !! "updateInterval" = Some (VNum (of_nat (S (next_id w)))).
Proof.
  intros Hr. unfold _runFrames, this_get, this_set. rewrite bind_gets.
  set (u := lookup_this w "updateInterval").
  assert (Hc : exists w1,
    when (truthy u) (clearInterval u) w = Ok tt w1 /\
    intervals w1 = (if truthy u then cleared u (intervals w) else intervals w) /\
    next_id w1 = next_id w /\ lookup_this w1 "_targetFrameRate" = VNum r).
  { destruct (truthy u); simpl; [| eauto].
    unfold clearInterval, cleared. destruct (handle_of u) as [h |]; [| eauto].
    destruct (intervals w !! h) eqn:E.
    - eexists. split; [reflexivity |]. simpl. auto.
    - exists w. rewrite delete_id by exact E. auto. }
  destruct Hc as (w1 & E1 & Hi & Hn & Hr1).
  rewrite (bind_Ok _ _ _ _ _ E1), bind_gets, Hr1.
  eexists. split; [reflexivity |]. simpl. rewrite Hi, Hn.
  split; [reflexivity | apply lookup_insert_eq].
Qed.

(** C3, amended.  The draw driver re-arms itself on every tick on which
    looping is enabled, against the value [_targetFrameRate] has when
    the tick begins: [_draw] adds one timeout, of delay
    [1000 / _targetFrameRate], so a change of the target rate shows in
    the draw cadence within one cycle.  The counter ticker does not
    re-arm itself: a firing of the interval timer leaves the timers as
    they are, periods included.  It is [_runFrames] that arms the ticker
    against the current [_targetFrameRate], after cancelling the timer
    recorded in [updateInterval]; a change of the target rate reaches
    the ticker only when [_runFrames] is called again. *)
Theorem rearming w r :
  truthy (get (settings w) "loop") = true ->
  lookup_this w "_targetFrameRate" = VNum r ->
  (forall w',
      world_of (_draw w) = Some w' ->
      timeouts w' = <[S (next_id w) := num_div (of_Z 1000) r]> (timeouts w)) /\
  (forall now h w',
      world_of (dispatch now (EvInterval h) w) = Some w' ->
      intervals w' = intervals w) /\
  (exists w',
      _runFrames w = Ok tt w' /\
      intervals w'
        = <[S (next_id w) := num_div (of_Z 1000) r]>
            (if truthy (lookup_this w "updateInterval")
             then cleared (lookup_this w "updateInterval") (intervals w)
             else intervals w)).
Proof.
  intros Hloop Hr. split; [| split].
  - intros w' Hd. now destruct (draw_schedules w w' r Hloop Hr Hd).
  - intros now h w'. rewrite dispatch_interval.
    destruct (intervals w !! h); [| now intros [= <-]].
    apply (wp_world_of tick (fun u => intervals u = intervals w)).
    now apply tick_keeps_intervals.
  - destruct (runFrames_arms w r Hr) as (w' & E & Hi & _). eauto.
Qed.

Lemma rearming_witness :
  truthy (get (settings slowing_sketch) "loop") = true /\
  lookup_this slowing_sketch "_targetFrameRate" = VNum (of_Z 30) /\
  (forall now h w',
      world_of (dispatch now (EvInterval h) slowing_sketch) = Some w' ->
      intervals w' = intervals slowing_sketch) /\
  (exists w',
      _runFrames slowing_sketch = Ok tt w' /\
      intervals w'
        = <[S (next_id slowing_sketch) := num_div (of_Z 1000) (of_Z 30)]>
            (if truthy (lookup_this slowing_sketch "updateInterval")
             then cleared (lookup_this slowing_sketch "updateInterval")
                          (intervals slowing_sketch)
             else intervals slowing_sketch)).
Proof.
  assert (H1 : truthy (get (settings slowing_sketch) "loop") = true)
    by (vm_compute; reflexivity).
  assert (H2 : lookup_this slowing_sketch "_targetFrameRate" = VNum (of_Z 30))
    by (vm_compute; reflexivity).
  split; [exact H1 |]. split; [exact H2 |].
  exact (proj2 (rearming slowing_sketch (of_Z 30) H1 H2)).
Defined.

(* ===================================================================== *)
(** * Input listeners *)
(* ===================================================================== *)







(* ===================================================================== *)
(** * The preload gate *)
(* ===================================================================== *)

(** [_preload] and the completion callback write ['preload-count'] and
    read [_preloadCount]: the value they test is never changed by them.
    A completion callback that finds [_preloadCount] at 0 therefore
    opens the gate, however many requests are still in flight. *)
Lemma preload_done_releases c w :
  target_value c "_preloadCount" w = vint 0 ->
  "preload-count" <> "_preloadCount" /\
  preload_done c w =
  (modify (log ORelease);;; _setup;;; _runFrames;;; _draw)
    (outcome w (_setProperty "preload-count" (vint (-1)) w)).
Proof.
  intros H. split; [discriminate |].
  unfold preload_done.
  assert (Hg : forall k u, target_get c k u = Ok (target_value c k u) u)
    by (intros; destruct c; reflexivity).
  rewrite (bind_Ok _ _ _ _ _ (Hg _ _)), H, js_sub_vint.
  change (arith (Some ?x)) with (ret x). rewrite bind_ret.
  change (0 - 1) with (-1).
  rewrite setProperty_eq by reflexivity. cbv zeta.
  set (w1 := if truthy _ then _ else _).
  rewrite (bind_Ok _ _ _ tt w1)
    by (rewrite setProperty_eq by reflexivity; reflexivity).
  rewrite (bind_Ok _ _ _ _ _ (Hg _ _)).
  replace (target_value c "_preloadCount" w1) with (vint 0); [reflexivity |].
  rewrite <- H. unfold w1.
  destruct c, (truthy _); unfold target_value, lookup_this, get; simpl;
    try reflexivity; now rewrite lookup_insert_ne by discriminate.
Qed.

(** C1 at a preload callback that starts two loads.  When construction
    returns, both requests are in flight, ['preload-count'] is 1 and
    [_preloadCount] is 0.  The completion of the first request alone
    opens the gate: setup and the first draw run while the second
    request is still in flight.  The completion of the second opens it
    again, and setup runs a second time. *)
Theorem preload_gate_two_loads :
  history two_loads_sketch
    = [OPreloadEnter; ORequest 8 "loadJSON"; ORequest 9 "loadImage";
       OPreloadReturn] /\
  this two_loads_sketch !! "preload-count" = Some (vint 1) /\
  this two_loads_sketch !! "_preloadCount" = Some (vint 0) /\
  run [(110, EvResolve 8)] two_loads_sketch
    = Some (after [(110, EvResolve 8)] two_loads_sketch) /\
  requests (after [(110, EvResolve 8)] two_loads_sketch) !! 9%nat
    = Some (CbPreload OnThis) /\
  history (after [(110, EvResolve 8)] two_loads_sketch)
    = [OPreloadEnter; ORequest 8 "loadJSON"; ORequest 9 "loadImage";
       OPreloadReturn; OCompletion 8; ORelease; OSetup;
       OArm 10 (num_div (of_Z 1000) (of_Z 60));
       OSchedule 11 (num_div (of_Z 1000) (of_Z 60)); ODraw] /\
  run [(110, EvResolve 8); (120, EvResolve 9)] two_loads_sketch
    = Some (after [(110, EvResolve 8); (120, EvResolve 9)] two_loads_sketch) /\
  count is_release
    (trace (after [(110, EvResolve 8); (120, EvResolve 9)] two_loads_sketch))
    = 2%nat /\
  count is_setup
    (trace (after [(110, EvResolve 8); (120, EvResolve 9)] two_loads_sketch))
    = 2%nat.
Proof. conjs; computed. Qed.

(** With nothing to run, an event changes nothing but the clock. *)
Lemma idle_deliver ty ls w :
  Forall (fun l => is_function (lookup_this w (snd l)) = false) ls ->
  world_of (deliver ty ls w) = Some w.
Proof.
  induction 1 as [| [t handler] ls Hf _ IH]; simpl; [reflexivity |].
  destruct (String.eqb t ty); [| exact IH].
  simpl in Hf. unfold forward, this_get. rewrite bind_gets.
  destruct (lookup_this w handler) as [| | | | | | f]; try discriminate;
    unfold throw; destruct (deliver ty ls w); simpl in *; congruence.
Qed.

Lemma idle_dispatch now e w :
  idle w -> world_of (dispatch now e w) = Some (upd_clock (fun _ => now) w).
Proof.
  intros (Ho & Hi & Ht & Hf & Hr & Hl). unfold dispatch.
  rewrite bind_modify. destruct e as [| h | h | h | id | ty]; rewrite bind_gets.
  - simpl. now rewrite Ho.
  - simpl. now rewrite Hi, lookup_empty.
  - simpl. now rewrite Ht, lookup_empty.
  - simpl. rewrite Hf. reflexivity.
  - simpl. now rewrite Hr, lookup_empty.
  - apply idle_deliver. exact Hl.
Qed.

Lemma idle_clock now w : idle w -> idle (upd_clock (fun _ => now) w).
Proof. intros H. exact H. Qed.

Lemma idle_run evs : forall w,
  idle w -> exists w', run evs w = Some w' /\ idle w' /\ trace w' = trace w.
Proof.
  induction evs as [| [now e] evs IH]; intros w Hw; simpl.
  - eauto.
  - rewrite (idle_dispatch now e w Hw).
    destruct (IH _ (idle_clock now w Hw)) as (w' & E & H1 & H2). eauto.
Qed.

Lemma no_loads_idle setup draw : idle (no_loads_sketch setup draw).
Proof.
  apply (@bool_decide_unpack _ (idle_dec (no_loads_sketch setup draw))).
  vm_compute. exact Logic.I.
Qed.

Lemma no_loads_history setup draw :
  history (no_loads_sketch setup draw) = [OPreloadEnter; OPreloadReturn].
Proof. vm_compute. reflexivity. Qed.

Lemma no_loads_counts setup draw :
  count is_setup (trace (no_loads_sketch setup draw)) = 0%nat /\
  count is_draw (trace (no_loads_sketch setup draw)) = 0%nat.
Proof. split; vm_compute; reflexivity. Qed.

(** C2 at a preload callback that starts no load.  The callback is
    entered and returns, and that is all construction does: setup has
    not run, and nothing is left that could make it run.  Whatever
    events follow, setup and draw are never invoked. *)
Theorem preload_without_loads_never_sets_up setup draw evs :
  history (no_loads_sketch setup draw) = [OPreloadEnter; OPreloadReturn] /\
  idle (no_loads_sketch setup draw) /\
  exists w',
    run evs (no_loads_sketch setup draw) = Some w' /\
    history w' = [OPreloadEnter; OPreloadReturn] /\
    count is_setup (trace w') = 0%nat /\
    count is_draw (trace w') = 0%nat.
Proof.
  split; [apply no_loads_history |]. split; [apply no_loads_idle |].
  destruct (idle_run evs _ (no_loads_idle setup draw)) as (w' & E & _ & Ht).
  exists w'. split; [exact E |].
  assert (Hh : history w' = history (no_loads_sketch setup draw))
    by (unfold history; now rewrite Ht).
  rewrite Hh, Ht.
  split; [exact (no_loads_history setup draw) | exact (no_loads_counts setup draw)].
Qed.

(* ===================================================================== *)
(** * Instrumented loaders *)
(* ===================================================================== *)

Lemma bind_Ok_inv {A B} (m : M A) (k : A -> M B) w b w' :
  bind m k w = Ok b w' -> exists a w1, m w = Ok a w1 /\ k a w1 = Ok b w'.
Proof. unfold bind. destruct (m w) as [a w1 | |]; [eauto | discriminate ..]. Qed.

Lemma val_sat_any f : val_sat (assigns_only (fun _ => True)) f.
Proof.
  destruct f as [| | | | | | [ body | | | ]]; simpl; auto.
  induction body as [| c s IH]; constructor; auto. now destruct c.
Qed.

Lemma call_user_keeps_prototype P o f :
  keeps (fun u => prototype u = P) (call_user o f).
Proof.
  apply frame_call_user with (ok := fun _ => True); auto using val_sat_any.
Qed.

Lemma restore_spec c w0 :
  exists w',
    restore c w0 = Ok tt w' /\
    prototype w' = prototype w0 /\
    trace w' = trace w0 /\
    forall name, In name loaders ->
      target_value c name w' = get (prototype w0) name.
Proof.
  destruct c; (eexists; split; [reflexivity |]);
    simpl; (split; [reflexivity |]); (split; [reflexivity |]);
    intros name Hin; simpl in Hin;
    repeat (destruct Hin as [<- | Hin];
            [unfold target_value, lookup_this, get; simpl;
             repeat (rewrite lookup_insert_ne by discriminate);
             now rewrite lookup_insert_eq |]);
    contradiction.
Qed.

Lemma pick_context_eq w : pick_context w = Ok (context_of w) w.
Proof. reflexivity. Qed.

(** When [_start] finds a preload callback and returns, it has gone
    through [restore]. *)
Lemma start_preloading w w' :
  truthy (js_or (lookup_this w "preload") (get (window w) "preload")) = true ->
  _start w = Ok tt w' ->
  exists w0,
    prototype w0 = prototype w /\
    restore (context_of w) w0 = Ok tt w'.
Proof.
  intros Hp H. unfold _start in H.
  apply bind_Ok_inv in H as ([] & wa & Ea & H).
  assert (Ha : prototype wa = prototype w /\ window wa = window w /\
               forall k, k <> "curElement" -> lookup_this wa k = lookup_this w k).
  { unfold createCanvas, fresh, bind, modify in Ea. simpl in Ea.
    injection Ea as <-. simpl. repeat split.
    intros k Hk. unfold lookup_this. simpl.
    now rewrite lookup_insert_ne by congruence. }
  destruct Ha as (Hpa & Hwa & Hla).
  unfold this_get at 1 in H. rewrite bind_gets in H.
  apply bind_Ok_inv in H as ([] & wb & Eb & H).
  assert (Hb : prototype wb = prototype w /\ window wb = window w /\
               forall k, k <> "curElement" -> k <> "_userNode" ->
                         lookup_this wb k = lookup_this w k).
  { destruct (truthy _ && is_string _); simpl in Eb.
    - unfold getElementById, this_set, bind, gets, modify in Eb.
      injection Eb as <-. simpl. repeat split; auto.
      intros k Hk1 Hk2. unfold lookup_this. simpl.
      rewrite lookup_insert_ne by congruence. now apply Hla.
    - injection Eb as <-. repeat split; auto. }
  destruct Hb as (Hpb & Hwb & Hlb).
  unfold this_get, window_get in H.
  rewrite !bind_gets in H.
  rewrite (bind_Ok _ _ _ _ _ (pick_context_eq wb)) in H.
  assert (Hcb : context_of wb = context_of w)
    by (unfold context_of; now rewrite Hlb by discriminate).
  rewrite Hcb, !Hlb, Hwb in H by discriminate. rewrite Hp in H.
  apply bind_Ok_inv in H as ([] & wc & Ec & H).
  assert (Hc : prototype wc = prototype w).
  { unfold instrument in Ec.
    destruct (context_of w); unfold target_set, window_set, this_set, bind,
      modify in Ec; injection Ec as <-; exact Hpb. }
  apply bind_Ok_inv in H as ([] & wd & Ed & H).
  assert (Hd : prototype wd = prototype w).
  { pose proof (call_user_keeps_prototype (prototype w) OPreloadEnter
                  (js_or (lookup_this w "preload") (get (window w) "preload"))
                  wc Hc) as K.
    unfold wp in K. now rewrite Ed in K. }
  rewrite bind_modify in H.
  exists (log OPreloadReturn wd). split; [exact Hd | exact H].
Qed.

(** A loader that is the library's own does not go through [_preload]:
    it starts a request that has no completion callback of the gate. *)
Lemma call_loader_original name path u :
  In name loaders ->
  target_value (context_of u) name u = VFun (FProto name) ->
  call_loader name path u
  = Ok tt (upd_requests (insert (S (next_id u)) CbNone) (upd_next_id S u)).
Proof.
  intros Hin Hv. unfold call_loader.
  rewrite (bind_Ok _ _ _ _ _ (pick_context_eq u)).
  assert (Hg : target_get (context_of u) name u
               = Ok (target_value (context_of u) name u) u)
    by (destruct (context_of u); reflexivity).
  rewrite (bind_Ok _ _ _ _ _ Hg), Hv.
  assert (Hl : is_loader name = true).
  { simpl in Hin. repeat (destruct Hin as [<- | Hin]; [reflexivity |]).
    contradiction. }
  rewrite Hl. reflexivity.
Qed.

Lemma resolve_uninstrumented now id u :
  requests u !! id = Some CbNone ->
  dispatch now (EvResolve id) u
  = Ok tt (upd_requests (delete id) (upd_clock (fun _ => now) u)).
Proof.
  intros H. unfold dispatch. rewrite bind_modify, bind_gets.
  change (requests (upd_clock (fun _ => now) u)) with (requests u).
  rewrite H. reflexivity.
Qed.

(** A preload callback that throws after starting a load: [_start]
    stops there, with the wrapper still in place.  The request resolves
    and opens the gate; setup and draw run; the load that draw starts
    goes through the wrapper, which writes ['preload-count'] and hands
    the gate's callback to the loader; when that load resolves, the gate
    opens once more and setup runs again. *)
Lemma wrappers_left_counterexample :
  lookup_this throwing_preload_sketch "loadJSON" = VFun (FWrap "loadJSON") /\
  run [(110, EvResolve 8)] throwing_preload_sketch
    = Some (after [(110, EvResolve 8)] throwing_preload_sketch) /\
  history (after [(110, EvResolve 8)] throwing_preload_sketch)
    = [OPreloadEnter; ORequest 8 "loadJSON"; OCompletion 8; ORelease; OSetup;
       OArm 9 (num_div (of_Z 1000) (of_Z 60));
       OSchedule 10 (num_div (of_Z 1000) (of_Z 60)); ODraw;
       ORequest 11 "loadJSON"] /\
  lookup_this (after [(110, EvResolve 8)] throwing_preload_sketch) "loadJSON"
    = VFun (FWrap "loadJSON") /\
  requests (after [(110, EvResolve 8)] throwing_preload_sketch) !! 11%nat
    = Some (CbPreload OnThis) /\
  this (after [(110, EvResolve 8)] throwing_preload_sketch) !! "preload-count"
    = Some (vint 1) /\
  run [(110, EvResolve 8); (130, EvResolve 11)] throwing_preload_sketch
    = Some (after [(110, EvResolve 8); (130, EvResolve 11)]
                  throwing_preload_sketch) /\
  count is_release
    (trace (after [(110, EvResolve 8); (130, EvResolve 11)]
                  throwing_preload_sketch)) = 2%nat /\
  count is_setup
    (trace (after [(110, EvResolve 8); (130, EvResolve 11)]
                  throwing_preload_sketch)) = 2%nat.
Proof. conjs; computed. Qed.

(** C9, amended.  When the user's preload callback returns normally,
    [_start] puts the library's own loaders back in place of the four
    wrappers before it returns, that is, before any completion callback
    can run and so before the gate opens.  A loader that is the
    library's own does not touch the instance or the global object (so
    neither ['preload-count'] nor [_preloadCount]) and records nothing;
    the request it starts carries no callback of the gate, and its
    completion does nothing but retire the request: setup is not
    triggered again. *)
Theorem loaders_restored w w' u name path now :
  truthy (js_or (lookup_this w "preload") (get (window w) "preload")) = true ->
  _start w = Ok tt w' ->
  In name loaders ->
  target_value (context_of u) name u = VFun (FProto name) ->
  (prototype w' = prototype w /\
   target_value (context_of w) name w' = get (prototype w) name) /\
  exists u1 u2,
    call_loader name path u = Ok tt u1 /\
    this u1 = this u /\ window u1 = window u /\ trace u1 = trace u /\
    requests u1 = <[S (next_id u) := CbNone]> (requests u) /\
    dispatch now (EvResolve (S (next_id u))) u1 = Ok tt u2 /\
    this u2 = this u /\ window u2 = window u /\ trace u2 = trace u /\
    timeouts u2 = timeouts u /\ frames u2 = frames u /\
    intervals u2 = intervals u.
Proof.
  intros Hp Hs Hin Hv. split.
  - destruct (start_preloading w w' Hp Hs) as (w0 & Hp0 & Hr).
    destruct (restore_spec (context_of w) w0) as (w'' & E & Hp' & _ & Hl).
    rewrite Hr in E. injection E as <-.
    split; [congruence |]. rewrite <- Hp0. now apply Hl.
  - set (u1 := upd_requests (insert (S (next_id u)) CbNone) (upd_next_id S u)).
    exists u1, (upd_requests (delete (S (next_id u)))
                  (upd_clock (fun _ => now) u1)).
    split; [now apply call_loader_original |].
    do 4 (split; [reflexivity |]).
    split; [| conjs; reflexivity].
    apply resolve_uninstrumented. apply lookup_insert_eq.
Qed.

Lemma loaders_restored_witness :
  truthy (js_or (lookup_this one_load_unstarted "preload")
                (get (window one_load_unstarted) "preload")) = true /\
  _start one_load_unstarted = Ok tt one_load_started /\
  In "loadJSON" loaders /\
  target_value (context_of one_load_started) "loadJSON" one_load_started
    = VFun (FProto "loadJSON") /\
  prototype one_load_started = prototype one_load_unstarted /\
  target_value (context_of one_load_unstarted) "loadJSON" one_load_started
    = get (prototype one_load_unstarted) "loadJSON".
Proof.
  assert (H1 : truthy (js_or (lookup_this one_load_unstarted "preload")
                             (get (window one_load_unstarted) "preload"))
               = true)
    by (vm_compute; reflexivity).
  assert (H2 : _start one_load_unstarted = Ok tt one_load_started)
    by (unfold one_load_started; computed).
  assert (H3 : In "loadJSON" loaders) by (simpl; auto).
  assert (H4 : target_value (context_of one_load_started) "loadJSON"
                 one_load_started = VFun (FProto "loadJSON"))
    by (vm_compute; reflexivity).
  split; [exact H1 |]. split; [exact H2 |]. split; [exact H3 |].
  split; [exact H4 |].
  exact (proj1 (loaders_restored one_load_unstarted one_load_started
                  one_load_started "loadJSON" "late.json" 200
                  H1 H2 H3 H4)).
Defined.

(* ===================================================================== *)
(** * Looping switched off *)
(* ===================================================================== *)

Lemma unwrapped_insert o k v : unwrapped o -> no_wrap v -> unwrapped (<[k := v]> o).
Proof. intros Ho Hv. now apply map_Forall_insert_2. Qed.

Lemma unwrapped_get o k : unwrapped o -> no_wrap (get o k).
Proof.
  intros Ho. unfold get. destruct (o !! k) as [v |] eqn:E; simpl.
  - exact (Ho k v E).
  - exact Logic.I.
Qed.


Lemma count_cons p o t :
  count p (o :: t) = ((if p o then 1 else 0) + count p t)%nat.
Proof. reflexivity. Qed.

Section Winding.

Variable B : nat.
Local Abbreviation W := (winding_down B).

(** State changes that keep the invariant. *)
Lemma wd_this k v w :
  no_wrap v -> val_sat keeps_off v -> W w -> W (upd_this (insert k v) w).
Proof.
  intros Hn Hv (H1 & H2 & (H3 & H4 & H5) & (H6 & H7 & H8) & H9 & H10).
  unfold winding_down, scripts_sat. simpl.
  auto 10 using unwrapped_insert, obj_sat_insert.
Qed.

Lemma wd_window k v w :
  no_wrap v -> val_sat keeps_off v -> W w -> W (upd_window (insert k v) w).
Proof.
  intros Hn Hv (H1 & H2 & (H3 & H4 & H5) & (H6 & H7 & H8) & H9 & H10).
  unfold winding_down, scripts_sat. simpl.
  auto 10 using unwrapped_insert, obj_sat_insert.
Qed.

Lemma wd_log o w : is_draw o = false -> W w -> W (log o w).
Proof.
  intros Ho (H1 & H2 & H3 & H4 & H5 & H6).
  unfold winding_down. simpl. rewrite Ho. auto 10.
Qed.

Lemma wd_next_id f w : W w -> W (upd_next_id f w).
Proof. trivial. Qed.

Lemma wd_intervals f w : W w -> W (upd_intervals f w).
Proof. trivial. Qed.

Lemma wd_clock f w : W w -> W (upd_clock f w).
Proof. trivial. Qed.


Lemma wd_loop_off w : W w -> W (upd_settings (insert "loop" (VBool false)) w).
Proof.
  intros (H1 & H2 & H3 & H4 & H5 & H6).
  unfold winding_down. simpl. unfold get. rewrite lookup_insert_eq. auto 10.
Qed.

Lemma wd_request id w : W w -> W (upd_requests (insert id CbNone) w).
Proof.
  intros (H1 & H2 & H3 & H4 & H5 & H6).
  unfold winding_down. simpl. split; [exact H1 |]. split; [exact H2 |].
  split; [exact H3 |]. split; [exact H4 |]. split; [| exact H6].
  now apply map_Forall_insert_2.
Qed.


Lemma wd_lookup_this k w :
  W w -> no_wrap (lookup_this w k) /\ val_sat keeps_off (lookup_this w k).
Proof.
  intros (_ & _ & (H3 & _ & H5) & H4 & _). split.
  - unfold lookup_this. destruct (this w !! k) as [v |] eqn:E; simpl.
    + exact (H3 k v E).
    + now apply unwrapped_get.
  - now apply lookup_this_sat.
Qed.

Lemma wd_window_get k w :
  W w -> no_wrap (get (window w) k) /\ val_sat keeps_off (get (window w) k).
Proof.
  intros (_ & _ & (_ & H4 & _) & (_ & H7 & _) & _). split.
  - now apply unwrapped_get.
  - now apply obj_sat_get.
Qed.

Lemma wd_setProperty prop n : keeps W (_setProperty prop (VNum n)).
Proof.
  apply setProperty_keeps; intros u Hu.
  - now apply wd_this.
  - now apply wd_window.
Qed.

Lemma wd_clearInterval u : keeps W (clearInterval u).
Proof.
  intros w Hw. unfold wp, clearInterval.
  destruct (handle_of u); [| exact Hw].
  destruct (intervals w !! n); [| exact Hw].
  now apply wd_log.
Qed.

Lemma wd_setInterval p : keeps W (setInterval p).
Proof. intros w Hw. now apply wd_log. Qed.

Lemma wd_load name path : keeps W (load name path CbNone).
Proof. intros w Hw. now apply wd_request. Qed.

Lemma wd_runFrames : keeps W _runFrames.
Proof.
  unfold _runFrames, this_set.
  apply keeps_bind; [apply keeps_gets | intros u].
  apply keeps_bind; [apply keeps_when, wd_clearInterval | intros _].
  apply keeps_bind; [apply keeps_gets | intros r].
  apply keeps_bind; [apply keeps_arith | intros p].
  apply keeps_bind; [apply wd_setInterval | intros h].
  apply keeps_modify. intros w Hw. now apply wd_this.
Qed.

(** No wrapper is in place: a load does not go through [_preload]. *)
Lemma wd_call_loader name path : keeps W (call_loader name path).
Proof.
  unfold call_loader.
  apply keeps_bind; [| intros context].
  { unfold pick_context, this_get.
    apply keeps_bind; [apply keeps_gets | intros g; apply keeps_ret]. }
  assert (K : forall f, no_wrap f ->
    keeps W
      match f with
      | VFun (FWrap func) => _preload func path;;; ret tt
      | VFun (FProto n) | VFun (FBound n) =>
          if is_loader n then load n path CbNone;;; ret tt else unmodelled
      | VFun (FUser _) => unmodelled
      | _ => throw TypeError
      end).
  { intros f Hf. destruct f as [| | | | | | [ | n | n | func ]];
      try apply keeps_throw; try apply keeps_unmodelled.
    - destruct (is_loader n); [| apply keeps_unmodelled].
      apply keeps_bind; [apply wd_load | intros _; apply keeps_ret].
    - destruct (is_loader n); [| apply keeps_unmodelled].
      apply keeps_bind; [apply wd_load | intros _; apply keeps_ret].
    - destruct Hf. }
  destruct context; unfold target_get, window_get, this_get;
    (eapply keeps_bind_gets_sat with (P := no_wrap); [| exact K]);
    intros w Hw; [now apply wd_window_get | now apply wd_lookup_this].
Qed.

Lemma wd_run_cmd cmd : keeps_off cmd -> keeps W (run_cmd cmd).
Proof.
  intros Hc. destruct cmd; simpl.
  - apply wd_call_loader.
  - simpl in Hc. subst b. apply keeps_modify. intros w. apply wd_loop_off.
  - apply wd_setProperty.
  - apply wd_runFrames.
  - apply keeps_throw.
Qed.

Lemma wd_run_script s : Forall keeps_off s -> keeps W (run_script s).
Proof.
  induction 1 as [| cmd s Hc _ IH]; simpl.
  - apply keeps_ret.
  - apply keeps_bind; [now apply wd_run_cmd | intros _; exact IH].
Qed.

Lemma wd_call_user o f :
  is_draw o = false -> val_sat keeps_off f -> keeps W (call_user o f).
Proof.
  intros Ho Hf. destruct f as [| | | | | | [ body | | | ]]; simpl;
    try apply keeps_throw; try apply keeps_unmodelled.
  apply keeps_bind; [| intros _; now apply wd_run_script].
  apply keeps_modify. intros w. now apply wd_log.
Qed.

Lemma wd_setup : keeps W _setup.
Proof.
  unfold _setup, this_get, window_get.
  eapply keeps_bind_gets_sat with (P := val_sat keeps_off);
    [intros w Hw; now apply wd_lookup_this | intros a Ha].
  eapply keeps_bind_gets_sat with (P := val_sat keeps_off);
    [intros w Hw; now apply wd_window_get | intros b Hb].
  apply keeps_when, wd_call_user; [reflexivity | now apply js_or_sat].
Qed.





End Winding.








(** Observations are only ever added. *)
Lemma extends_log t0 o w :
  (exists l, trace w = l ++ t0) -> exists l, trace (log o w) = l ++ t0.
Proof. intros [l H]. exists (o :: l). simpl. now rewrite H. Qed.










(** A draw callback that throws on every invocation is invoked again
    and again: the timeout is set before it runs. *)
Example throwing_draw_goes_on :
  history failing_sketch
    = [OArm 8 (num_div (of_Z 1000) (of_Z 60));
       OSchedule 9 (num_div (of_Z 1000) (of_Z 60)); ODraw] /\
  run [(117, EvTimeout 9); (133, EvFrame 10); (150, EvTimeout 11);
       (166, EvFrame 12)] failing_sketch
    = Some (after [(117, EvTimeout 9); (133, EvFrame 10); (150, EvTimeout 11);
                   (166, EvFrame 12)] failing_sketch) /\
  count is_draw
    (trace (after [(117, EvTimeout 9); (133, EvFrame 10); (150, EvTimeout 11);
                   (166, EvFrame 12)] failing_sketch)) = 3%nat.
Proof. conjs; computed. Qed.

(* ===================================================================== *)
(** * Further properties: the drawing primitives *)
(* ===================================================================== *)

(** Without a rendering surface ([curElement] still null, as it is
    between construction and [_start]) every primitive throws a
    TypeError, whatever its arguments, and changes nothing. *)
Theorem primitives_need_surface
    (modeAdjust arcModeAdjust : number -> number -> number -> number -> value -> vals)
    (w : world) :
  curElement w = None ->
  (forall a b c d start stop mode,
      arc arcModeAdjust a b c d start stop mode w = Throw TypeError w) /\
  (forall a b c d, ellipse modeAdjust a b c d w = Throw TypeError w) /\
  (forall x1 y1 x2 y2, line x1 y1 x2 y2 w = Throw TypeError w) /\
  (forall x y, point x y w = Throw TypeError w) /\
  (forall x1 y1 x2 y2 x3 y3 x4 y4,
      quad x1 y1 x2 y2 x3 y3 x4 y4 w = Throw TypeError w) /\
  (forall a b c d, rect modeAdjust a b c d w = Throw TypeError w) /\
  (forall x1 y1 x2 y2 x3 y3, triangle x1 y1 x2 y2 x3 y3 w = Throw TypeError w).
Proof.
  intros H. conjs; intros.
  - unfold arc, setting. rewrite bind_gets.
    apply bind_Throw. now apply on_context_none.
  - unfold ellipse, setting, beginPath. rewrite bind_gets.
    apply bind_Throw. now apply on_context_none.
  - unfold line. apply bind_Throw. now apply context_none.
  - unfold point. apply bind_Throw. now apply context_none.
  - unfold quad, beginPath. apply bind_Throw. now apply on_context_none.
  - unfold rect, setting, beginPath. rewrite bind_gets.
    apply bind_Throw. now apply on_context_none.
  - unfold triangle, beginPath. apply bind_Throw. now apply on_context_none.
Qed.

Lemma primitives_need_surface_witness :
  curElement (unstarted []) = None /\
  line (of_Z 0) (of_Z 0) (of_Z 10) (of_Z 10) (unstarted [])
    = Throw TypeError (unstarted []).
Proof.
  assert (H : curElement (unstarted []) = None) by (vm_compute; reflexivity).
  split; [exact H |].
  destruct (primitives_need_surface corner_adjust corner_adjust
              (unstarted []) H) as (_ & _ & Hl & _).
  apply Hl.
Defined.


Section Repainting.

Variables (w0 : world) (k : context2d).

Lemma repaints_ret {A} fs (a : A) : repaints w0 k fs fs (ret a).
Proof. intros u Hu. exists a, u. split; [reflexivity | exact Hu]. Qed.

Lemma repaints_gets {A} fs (f : world -> A) : repaints w0 k fs fs (gets f).
Proof. intros u Hu. exists (f u), u. split; [reflexivity | exact Hu]. Qed.

Lemma repaints_bind {A B} fs1 fs2 fs3 (m : M A) (f : A -> M B) :
  repaints w0 k fs1 fs2 m -> (forall a, repaints w0 k fs2 fs3 (f a)) ->
  repaints w0 k fs1 fs3 (bind m f).
Proof.
  intros Hm Hf u Hu. destruct (Hm u Hu) as (a & u1 & E1 & H1).
  destruct (Hf a u1 H1) as (b & u2 & E2 & H2).
  exists b, u2. split; [| exact H2]. now rewrite (bind_Ok _ _ _ _ _ E1).
Qed.

Lemma repaints_call fs c : repaints w0 k fs fs (on_context (ctx_call c)).
Proof.
  intros u (k' & -> & Hf & Hs & Hw & Hc & new & Hn).
  exists tt, (upd_curElement (fun _ => Some (ctx_call c k')) w0).
  split; [reflexivity |].
  exists (ctx_call c k'). split; [reflexivity |]. simpl.
  conjs; try assumption. exists (c :: new). now rewrite Hn.
Qed.



Lemma repaints_when fs b (m : M unit) :
  repaints w0 k fs fs m -> repaints w0 k fs fs (when b m).
Proof. destruct b; simpl; [trivial | intros _; apply repaints_ret]. Qed.

End Repainting.

Ltac repaints :=
  repeat first
    [ apply repaints_ret
    | apply repaints_call
    | apply repaints_gets
    | apply repaints_when
    | eapply repaints_bind; [| intros ?]
    | match goal with
      | |- repaints _ _ _ _ (if ?b then _ else _) => destruct b
      end ].

Section PrimitiveEffects.

Variable modeAdjust : number -> number -> number -> number -> value -> vals.
Variable arcModeAdjust : number -> number -> number -> number -> value -> vals.
Variables (w0 : world) (k : context2d).








End PrimitiveEffects.



(* ===================================================================== *)
(** * Further properties: the default styles *)
(* ===================================================================== *)

Lemma applyDefaults_eq w k :
  curElement w = Some k -> _applyDefaults w = Ok tt (defaults_applied w k).
Proof.
  intros Hk. destruct w. simpl in Hk. subst. reflexivity.
Qed.

(** [_applyDefaults] sets the fill style, the stroke style and the line
    cap of the rendering context and leaves its line width, the calls
    made on it and the rest of the instance alone; applying it a second
    time changes nothing; and once it is applied, [line] and [point]
    draw and return the instance, the stroke style being no longer the
    transparent one, whatever it was before: [line] adds a path from
    the first point to the second and strokes it, [point] adds a filled
    unit square at the rounded coordinates, or a filled disc of
    diameter [lineWidth] if that is above 1, and leaves the fill style
    at its default. *)
Theorem applyDefaults_resets_styles w k :
  curElement w = Some k ->
  _applyDefaults w = Ok tt (defaults_applied w k) /\
  _applyDefaults (defaults_applied w k) = Ok tt (defaults_applied w k) /\
  (forall x1 y1 x2 y2, exists w' k',
      line x1 y1 x2 y2 (defaults_applied w k) = Ok RThis w' /\
      curElement w' = Some k' /\
      calls k' = [CStroke; CLineTo x2 y2; CMoveTo x1 y1; CBeginPath]
                 ++ calls k) /\
  (forall x y, exists w' k',
      point x y (defaults_applied w k) = Ok RThis w' /\
      curElement w' = Some k' /\
      fillStyle k' = "#FFFFFF" /\
      calls k'
      = (if num_gt (lineWidth k) (of_Z 1)
         then [ CFill;
                CArc (math_round x) (math_round y)
                     (num_div (lineWidth k) two) (of_Z 0)
                     (as_number (get (constants (env w)) "TWO_PI"))
                     (Some false);
                CBeginPath ]
         else [ CFillRect (math_round x) (math_round y) (of_Z 1) (of_Z 1) ])
        ++ calls k).
Proof.
  intros Hk.
  assert (Hd : curElement (defaults_applied w k)
               = Some (with_defaults (get (constants (env w)) "ROUND") k))
    by reflexivity.
  conjs.
  - now apply applyDefaults_eq.
  - now rewrite (applyDefaults_eq _ _ Hd).
  - intros. destruct w. simpl in Hk. subst.
    eexists _, _. split; [reflexivity |]. split; reflexivity.
  - intros. destruct w. simpl in Hk. subst.
    unfold point, defaults_applied, with_defaults, bind, context. simpl.
    destruct (num_gt (lineWidth k) (of_Z 1));
      (eexists _, _; split; [reflexivity |]; conjs; reflexivity).
Qed.

Lemma applyDefaults_resets_styles_witness :
  curElement (sketch_world []) = Some drawn_once /\
  _applyDefaults (defaults_applied (sketch_world []) drawn_once)
  = Ok tt (defaults_applied (sketch_world []) drawn_once) /\
  exists w' k',
    line (of_Z 0) (of_Z 0) (of_Z 10) (of_Z 10)
         (defaults_applied (sketch_world []) drawn_once) = Ok RThis w' /\
    curElement w' = Some k' /\
    calls k' = [CStroke; CLineTo (of_Z 10) (of_Z 10);
                CMoveTo (of_Z 0) (of_Z 0); CBeginPath] ++ calls drawn_once.
Proof.
  assert (Hk : curElement (sketch_world []) = Some drawn_once)
    by (vm_compute; reflexivity).
  split; [exact Hk |].
  destruct (applyDefaults_resets_styles (sketch_world []) drawn_once Hk)
    as (_ & Hi & Hl & _).
  split; [exact Hi |].
  exact (Hl (of_Z 0) (of_Z 0) (of_Z 10) (of_Z 10)).
Defined.

(* ===================================================================== *)
(** * Further properties: invariants of the event loop *)
(* ===================================================================== *)

Lemma keeps_and {A} (I J : world -> Prop) (m : M A) :
  keeps I m -> keeps J m -> keeps (fun w => I w /\ J w) m.
Proof.
  intros HI HJ w [Hi Hj]. specialize (HI w Hi). specialize (HJ w Hj).
  unfold wp in *. destruct (m w); auto.
Qed.

Lemma closed_and I J okd okp okv oko okc :
  closed I okd okp okv oko okc -> closed J okd okp okv oko okc ->
  closed (fun w => I w /\ J w) okd okp okv oko okc.
Proof.
  intros [] []. constructor;
    try (intros; apply keeps_and; auto; fail);
    intros; match goal with H : _ /\ _ |- _ => destruct H end; split; auto.
Qed.

Lemma hosted_and I J :
  hosted I -> hosted J -> hosted (fun w => I w /\ J w).
Proof.
  intros [] []. constructor;
    intros; match goal with H : _ /\ _ |- _ => destruct H end; split; auto.
Qed.

Lemma js_add_data a b v : js_add a b = Some v -> is_function v = false.
Proof.
  unfold js_add. destruct a, b; simpl;
    repeat match goal with
      | |- context [match ?x with _ => _ end] => destruct x
      end; intros [= <-]; reflexivity.
Qed.

Lemma js_sub_data a b v : js_sub a b = Some v -> is_function v = false.
Proof.
  unfold js_sub. destruct (to_number a), (to_number b);
    intros [= <-]; reflexivity.
Qed.

Lemma js_div_data a b v : js_div a b = Some v -> is_function v = false.
Proof.
  unfold js_div. destruct (to_number a), (to_number b);
    intros [= <-]; reflexivity.
Qed.

(** An invariant of every turn of the event loop is one of every run. *)
Lemma run_keeps (I : world -> Prop) :
  (forall now e, keeps I (dispatch now e)) ->
  forall evs w w', I w -> run evs w = Some w' -> I w'.
Proof.
  intros Hd. induction evs as [| [now e] evs IH]; simpl; intros w w' Hw.
  - now intros [= <-].
  - destruct (world_of (dispatch now e w)) as [w1 |] eqn:E; [| discriminate].
    apply IH. exact (wp_world_of _ I w w1 (Hd now e w Hw) E).
Qed.

Section Runtime.

Variable I : world -> Prop.
Variables okd okp : string -> Prop.
Variable okv : value -> Prop.
Variable oko : obs -> Prop.
Variable okc : target -> Prop.

Hypothesis HC : closed I okd okp okv oko okc.
Hypothesis okv_data : forall x, is_function x = false -> okv x.
Hypothesis I_scripts : forall w, I w -> scripts_sat (assigns_only okp) w.

Lemma rt_run_cmd c : assigns_only okp c -> keeps I (run_cmd c).
Proof.
  intros Hc. destruct c; simpl.
  - apply (cl_call_loader _ _ _ _ _ _ HC).
  - apply keeps_modify. intros w. apply (cl_loop _ _ _ _ _ _ HC).
  - apply (cl_setProperty _ _ _ _ _ _ HC); [exact Hc | now apply okv_data].
  - apply (cl_runFrames _ _ _ _ _ _ HC).
  - apply keeps_throw.
Qed.

Lemma rt_run_script s : Forall (assigns_only okp) s -> keeps I (run_script s).
Proof.
  induction 1 as [| c s Hc _ IH]; simpl.
  - apply keeps_ret.
  - apply keeps_bind; [now apply rt_run_cmd | intros _; exact IH].
Qed.

Lemma rt_call_user o f :
  oko o -> val_sat (assigns_only okp) f -> keeps I (call_user o f).
Proof.
  intros Ho Hf. destruct f as [| | | | | | [ body | | | ]]; simpl;
    try apply keeps_throw; try apply keeps_unmodelled.
  apply keeps_bind; [| intros _; now apply rt_run_script].
  apply keeps_modify. intros w. now apply (cl_log _ _ _ _ _ _ HC).
Qed.

(** The callback found on the instance or, failing that, on [window]. *)
Lemma rt_callback {B} k (body : value -> M B) :
  (forall f, val_sat (assigns_only okp) f -> keeps I (body f)) ->
  keeps I (a <~ this_get k;; b <~ window_get k;; body (js_or a b)).
Proof.
  intros Hb. unfold this_get, window_get.
  eapply keeps_bind_gets_sat;
    [intros w Hw; apply lookup_this_sat, I_scripts, Hw | intros a Ha].
  eapply keeps_bind_gets_sat;
    [intros w Hw; apply obj_sat_get, (I_scripts w Hw) | intros b Hb'].
  apply Hb. now apply js_or_sat.
Qed.

Lemma rt_setup : oko OSetup -> keeps I _setup.
Proof.
  intros Ho. unfold _setup.
  apply (rt_callback "setup"
           (fun f => when (is_function f) (call_user OSetup f))).
  intros f Hf. now apply keeps_when, rt_call_user.
Qed.

Lemma rt_tick : oko OTick -> okp "frameCount" -> keeps I tick.
Proof.
  intros Ho Hp. unfold tick, this_get.
  apply keeps_bind; [| intros _].
  { apply keeps_modify. intros w. now apply (cl_log _ _ _ _ _ _ HC). }
  apply keeps_bind; [apply keeps_gets | intros c].
  apply keeps_bind_arith. intros n Hn.
  apply (cl_setProperty _ _ _ _ _ _ HC); [exact Hp |].
  exact (okv_data _ (js_add_data _ _ _ Hn)).
Qed.

Lemma rt_on_context f : keeps I (on_context f).
Proof.
  intros w Hw. unfold wp, on_context, bind, context, modify.
  destruct (curElement w); [| exact Hw].
  now apply (cl_curElement _ _ _ _ _ _ HC).
Qed.

Lemma rt_draw :
  oko ODraw -> okd "_frameRate" -> okd "_lastFrameTime" ->
  (forall d, keeps I (setTimeout d)) ->
  keeps I _draw.
Proof.
  intros Ho Hr Hl Ht. unfold _draw, getTime, this_get, this_set.
  apply keeps_bind; [apply keeps_gets | intros now].
  apply keeps_bind; [apply keeps_gets | intros last].
  apply keeps_bind_arith. intros elapsed He.
  apply keeps_bind_arith. intros rate Hrate.
  apply keeps_bind; [| intros _].
  { apply keeps_modify. intros w. apply (cl_this _ _ _ _ _ _ HC); [exact Hr |].
    exact (okv_data _ (js_div_data _ _ _ Hrate)). }
  apply keeps_bind; [| intros _].
  { apply keeps_modify. intros w. apply (cl_this _ _ _ _ _ _ HC); [exact Hl |].
    apply okv_data. unfold js_sub in He.
    destruct now; try reflexivity. discriminate. }
  apply (rt_callback "draw" (fun f =>
    looping <~ gets (fun w => get (settings w) "loop");;
    when (truthy looping)
      (r <~ gets (fun w => lookup_this w "_targetFrameRate");;
       d <~ arith (js_div (vint 1000) r);;
       setTimeout (as_number d);;; ret tt);;;
    when (is_function f) (call_user ODraw f);;;
    on_context (ctx_call (CSetTransform (of_Z 1) (of_Z 0) (of_Z 0)
                                        (of_Z 1) (of_Z 0) (of_Z 0))))).
  intros f Hf.
  apply keeps_bind; [apply keeps_gets | intros looping].
  apply keeps_bind; [| intros _].
  { apply keeps_when.
    apply keeps_bind; [apply keeps_gets | intros r].
    apply keeps_bind; [apply keeps_arith | intros d].
    apply keeps_bind; [apply Ht | intros _; apply keeps_ret]. }
  apply keeps_bind; [| intros _; apply rt_on_context].
  now apply keeps_when, rt_call_user.
Qed.

Lemma rt_forward handler : keeps I (forward handler).
Proof.
  unfold forward, this_get.
  eapply keeps_bind_gets_sat;
    [intros w Hw; apply lookup_this_sat, I_scripts, Hw | intros f Hf].
  destruct f as [| | | | | | [ body | | | ]];
    try apply keeps_throw; try apply keeps_unmodelled.
  now apply rt_run_script.
Qed.

Lemma rt_deliver ty ls : keeps I (deliver ty ls).
Proof.
  induction ls as [| [t handler] ls IH]; simpl; [apply keeps_ret |].
  destruct (String.eqb t ty); [| exact IH].
  intros w Hw. unfold wp.
  pose proof (rt_forward handler w Hw) as Hf. unfold wp in Hf.
  destruct (forward handler w) as [[] w1 | e w1 |]; [| | exact Logic.I].
  - apply IH, Hf.
  - pose proof (IH w1 Hf) as Hd. unfold wp in Hd.
    now destruct (deliver ty ls w1).
Qed.

Lemma rt_launch :
  oko OSetup -> keeps I _draw -> keeps I launch.
Proof.
  intros Ho Hd. unfold launch.
  apply keeps_bind; [now apply rt_setup | intros _].
  apply keeps_bind; [apply (cl_runFrames _ _ _ _ _ _ HC) | intros _; exact Hd].
Qed.

Lemma rt_preload_done c :
  okp "preload-count" -> oko ORelease -> keeps I launch ->
  keeps I (preload_done c).
Proof.
  intros Hp Ho Hl. unfold preload_done.
  apply keeps_bind; [destruct c; apply keeps_gets | intros n0].
  apply keeps_bind_arith. intros n Hn.
  apply keeps_bind; [| intros _].
  { apply (cl_setProperty _ _ _ _ _ _ HC); [exact Hp |].
    exact (okv_data _ (js_sub_data _ _ _ Hn)). }
  apply keeps_bind; [destruct c; apply keeps_gets | intros n1].
  destruct (strict_eq n1 (vint 0)); [| apply keeps_ret].
  apply keeps_bind; [| intros _; exact Hl].
  apply keeps_modify. intros w. now apply (cl_log _ _ _ _ _ _ HC).
Qed.

Lemma rt_createCanvas a b d : okd "curElement" -> keeps I (createCanvas a b d).
Proof.
  intros Hk. unfold createCanvas, fresh.
  intros w Hw. unfold wp, bind, modify. simpl.
  apply (cl_curElement _ _ _ _ _ _ HC), (cl_this _ _ _ _ _ _ HC);
    [exact Hk | now apply okv_data |].
  now apply (cl_next_id _ _ _ _ _ _ HC).
Qed.

Lemma keeps_bind_pick {B} (k : target -> M B) :
  (forall c, okc c -> keeps I (k c)) ->
  (forall w, I w -> okc (context_of w)) ->
  keeps I (bind pick_context k).
Proof.
  intros Hk Hc w Hw. unfold wp.
  rewrite (bind_Ok _ _ _ _ _ (pick_context_eq w)). apply Hk; auto.
Qed.

Lemma rt_start :
  okd "curElement" -> okd "_userNode" ->
  (forall n, okv (VFun (FWrap n))) ->
  (forall w k, I w -> okv (get (prototype w) k)) ->
  (forall w, I w -> okc (context_of w)) ->
  oko OPreloadEnter -> oko OPreloadReturn ->
  keeps I launch ->
  keeps I _start.
Proof.
  intros Hce Hun Hwrap Hproto Hctx Hen Hre Hl.
  unfold _start, this_set.
  apply keeps_bind; [now apply rt_createCanvas | intros _].
  apply keeps_bind; [apply keeps_gets | intros node].
  apply keeps_bind; [| intros _].
  { apply keeps_when. unfold getElementById.
    apply keeps_bind_gets_sat with (P := fun x => is_function x = false).
    - intros w _. destruct node; try reflexivity.
      now destruct (document (env w) !! s).
    - intros x Hx. apply keeps_modify. intros w.
      apply (cl_this _ _ _ _ _ _ HC); [exact Hun | now apply okv_data]. }
  apply (rt_callback "preload" (fun f =>
    context <~ pick_context;;
    if truthy f then
      instrument context;;;
      call_user OPreloadEnter f;;;
      modify (log OPreloadReturn);;;
      restore context
    else
      _setup;;; _runFrames;;; _draw)).
  intros f Hf.
  apply keeps_bind_pick; [intros context Hc | exact Hctx].
  destruct (truthy f); [| exact Hl].
  apply keeps_bind; [| intros _].
  { unfold instrument.
    repeat (apply keeps_bind; [| intros _]);
      apply (cl_loader _ _ _ _ _ _ HC);
      (exact Hc || reflexivity || apply Hwrap). }
  apply keeps_bind; [now apply rt_call_user | intros _].
  apply keeps_bind; [| intros _].
  { apply keeps_modify. intros w. now apply (cl_log _ _ _ _ _ _ HC). }
  unfold restore, proto_get.
  repeat (apply keeps_bind; [| intros _]);
    (eapply keeps_bind_gets_sat with (P := okv);
      [intros w Hw; now apply Hproto
      | intros x Hx; apply (cl_loader _ _ _ _ _ _ HC);
          [exact Hc | reflexivity | exact Hx]]).
Qed.

(** One turn of the event loop, given what the four kinds of callbacks
    that start or continue the draw loop do. *)
Lemma rt_dispatch now e :
  oko OTick -> okp "frameCount" ->
  (forall w, I w -> onload w = true ->
     wp (modify (upd_onload (fun _ => false));;; _start) (fun _ => I) I w) ->
  (forall h w, I w -> is_Some (timeouts w !! h) ->
     wp (modify (upd_timeouts (delete h));;; requestDraw) (fun _ => I) I w) ->
  (forall h w, I w -> h ∈ frames w ->
     wp (modify (upd_frames (filter (fun x => x ≠ h)));;; _draw)
        (fun _ => I) I w) ->
  (forall id c w, I w -> requests w !! id = Some (CbPreload c) ->
     wp (modify (upd_requests (delete id));;;
         modify (log (OCompletion id));;; preload_done c) (fun _ => I) I w) ->
  (forall id w, I w -> I (upd_requests (delete id) w)) ->
  keeps I (dispatch now e).
Proof.
  intros Hti Hfc Hload Htimeout Hframe Hresolve Hretire. unfold dispatch.
  apply keeps_bind; [| intros _].
  { apply keeps_modify. intros w. apply (cl_clock _ _ _ _ _ _ HC). }
  destruct e as [| h | h | h | id | ty].
  - intros w Hw. unfold wp. rewrite bind_gets.
    destruct (onload w) eqn:E; [| exact Hw]. now apply Hload.
  - apply keeps_bind; [apply keeps_gets | intros t].
    now apply keeps_when, rt_tick.
  - intros w Hw. unfold wp. rewrite bind_gets.
    destruct (bool_decide (is_Some (timeouts w !! h))) eqn:E; [| exact Hw].
    apply Htimeout; [exact Hw | now apply bool_decide_eq_true in E].
  - intros w Hw. unfold wp. rewrite bind_gets.
    destruct (bool_decide (h ∈ frames w)) eqn:E; [| exact Hw].
    apply Hframe; [exact Hw | now apply bool_decide_eq_true in E].
  - intros w Hw. unfold wp. rewrite bind_gets.
    destruct (requests w !! id) as [[c |] |] eqn:E; [| | exact Hw].
    + now apply Hresolve.
    + now apply Hretire.
  - apply keeps_bind; [apply keeps_gets | intros ls]. apply rt_deliver.
Qed.

(** An invariant that everything maintains. *)
Lemma rt_dispatch_all now e :
  hosted I -> (forall o, oko o) ->
  okp "frameCount" -> okp "preload-count" ->
  okd "_frameRate" -> okd "_lastFrameTime" ->
  okd "curElement" -> okd "_userNode" ->
  (forall n, okv (VFun (FWrap n))) ->
  (forall w k, I w -> okv (get (prototype w) k)) ->
  (forall w, I w -> okc (context_of w)) ->
  keeps I (dispatch now e).
Proof.
  intros HH Ho Hfc Hpc Hfr Hlf Hce Hun Hwrap Hproto Hctx.
  assert (Hst : forall d, keeps I (setTimeout d)).
  { intros d w Hw. unfold wp, setTimeout, fresh, bind, modify, ret. simpl.
    apply (cl_log _ _ _ _ _ _ HC), (ho_timeouts _ HH), (cl_next_id _ _ _ _ _ _ HC);
      auto. }
  assert (Hd : keeps I _draw) by (apply rt_draw; auto).
  assert (Hl : keeps I launch) by (apply rt_launch; auto).
  apply rt_dispatch; auto.
  - intros w Hw _. apply wp_keeps with (I := I); [| exact Hw |].
    + apply keeps_modify. intros u. apply (ho_onload _ HH).
    + intros _ u Hu. now apply rt_start.
  - intros h w Hw _. unfold wp, requestDraw, fresh, bind, modify. simpl.
    apply (ho_frames _ HH), (cl_next_id _ _ _ _ _ _ HC), (ho_timeouts _ HH), Hw.
  - intros h w Hw _. apply wp_keeps with (I := I); [| exact Hw |].
    + apply keeps_modify. intros u. apply (ho_frames _ HH).
    + intros _ u Hu. now apply Hd.
  - intros id c w Hw _. apply wp_keeps with (I := I); [| exact Hw |].
    + apply keeps_modify. intros u. apply (ho_requests _ HH).
    + intros _ u Hu. apply wp_keeps with (I := I); [| exact Hu |].
      * apply keeps_modify. intros u'. now apply (cl_log _ _ _ _ _ _ HC).
      * intros _ u' Hu'. now apply rt_preload_done.
  - intros id w. apply (ho_requests _ HH).
Qed.

End Runtime.

(** ** Helper rules for the parts of [closed] *)

Lemma runFrames_keeps (I : world -> Prop) :
  (forall f w, I w -> I (upd_next_id f w)) ->
  (forall f w, I w -> I (upd_intervals f w)) ->
  (forall h p w, I w -> I (log (OArm h p) w)) ->
  (forall h w, I w -> I (log (ODisarm h) w)) ->
  (forall n w, I w -> I (upd_this (insert "updateInterval" (VNum n)) w)) ->
  keeps I _runFrames.
Proof.
  intros Hn Hi Ha Hd Hu. unfold _runFrames, this_set.
  apply keeps_bind; [apply keeps_gets | intros u].
  apply keeps_bind; [now apply keeps_when, frame_clearInterval | intros _].
  apply keeps_bind; [apply keeps_gets | intros r].
  apply keeps_bind; [apply keeps_arith | intros p].
  apply keeps_bind; [now apply frame_setInterval | intros h].
  apply keeps_modify. intros w. apply Hu.
Qed.

Lemma preload_keeps (I : world -> Prop) :
  (forall f w, I w -> I (upd_next_id f w)) ->
  (forall f w, I w -> I (upd_requests f w)) ->
  (forall id name w, I w -> I (log (ORequest id name) w)) ->
  (forall x, is_function x = false -> keeps I (_setProperty "preload-count" x)) ->
  forall func path, keeps I (_preload func path).
Proof.
  intros Hn Hr Hl Hp func path. unfold _preload, pick_context.
  apply keeps_bind; [| intros context].
  { apply keeps_bind; [apply keeps_gets | intros g; apply keeps_ret]. }
  apply keeps_bind; [destruct context; apply keeps_gets | intros n0].
  apply keeps_bind_arith. intros n Hn0.
  apply keeps_bind; [exact (Hp n (js_add_data _ _ _ Hn0)) | intros _].
  apply keeps_bind; [apply keeps_gets | intros f].
  destruct f as [| | | | | | [ | name | | ]];
    try apply keeps_throw; try apply keeps_unmodelled.
  destruct (is_loader name); [| apply keeps_unmodelled].
  apply keeps_bind; [now apply frame_load | intros r].
  apply keeps_bind; [| intros _; apply keeps_ret].
  apply keeps_modify. intros w. apply Hl.
Qed.

Lemma call_loader_keeps (I : world -> Prop) :
  (forall f w, I w -> I (upd_next_id f w)) ->
  (forall f w, I w -> I (upd_requests f w)) ->
  (forall id name w, I w -> I (log (ORequest id name) w)) ->
  (forall x, is_function x = false -> keeps I (_setProperty "preload-count" x)) ->
  forall name path, keeps I (call_loader name path).
Proof.
  intros Hn Hr Hl Hp name path. unfold call_loader, pick_context.
  apply keeps_bind; [| intros context].
  { apply keeps_bind; [apply keeps_gets | intros g; apply keeps_ret]. }
  apply keeps_bind; [destruct context; apply keeps_gets | intros f].
  destruct f as [| | | | | | [ | n | n | func ]];
    try apply keeps_throw; try apply keeps_unmodelled.
  - destruct (is_loader n); [| apply keeps_unmodelled].
    apply keeps_bind; [now apply frame_load | intros _; apply keeps_ret].
  - destruct (is_loader n); [| apply keeps_unmodelled].
    apply keeps_bind; [now apply frame_load | intros _; apply keeps_ret].
  - apply keeps_bind; [now apply preload_keeps | intros _; apply keeps_ret].
Qed.

Lemma target_set_keeps (I : world -> Prop) c k x :
  (forall w, I w -> I (upd_this (insert k x) w)) ->
  (forall w, I w -> I (upd_window (insert k x) w)) ->
  keeps I (target_set c k x).
Proof. intros Ht Hw. destruct c; now apply keeps_modify. Qed.

Lemma scripts_sat_any w : scripts_sat (assigns_only (fun _ => True)) w.
Proof. unfold scripts_sat. conjs; intros k v _; apply val_sat_any. Qed.

Lemma loader_neq k j : is_loader k = true -> is_loader j = false -> k <> j.
Proof. intros Hk Hj ->. congruence. Qed.

(** ** The invariants, one by one *)

Lemma scripts_closed phi okd okp okv oko okc :
  (forall x, okv x -> val_sat phi x) ->
  closed (scripts_sat phi) okd okp okv oko okc.
Proof.
  intros Hv.
  assert (Ht : forall k x w, val_sat phi x -> scripts_sat phi w ->
                             scripts_sat phi (upd_this (insert k x) w)).
  { intros k x w Hx (H1 & H2 & H3). unfold scripts_sat. simpl.
    conjs; auto using obj_sat_insert. }
  assert (Hw : forall k x w, val_sat phi x -> scripts_sat phi w ->
                             scripts_sat phi (upd_window (insert k x) w)).
  { intros k x w Hx (H1 & H2 & H3). unfold scripts_sat. simpl.
    conjs; auto using obj_sat_insert. }
  assert (Hd : forall x, is_function x = false -> val_sat phi x)
    by (now intros []).
  constructor; try (intros; assumption).
  - intros; auto.
  - intros; apply target_set_keeps; auto.
  - intros; apply setProperty_keeps; auto.
  - apply runFrames_keeps; try (intros; assumption). intros; now apply Ht.
  - apply call_loader_keeps; try (intros; assumption).
    intros; apply setProperty_keeps; auto.
Qed.

Lemma scripts_hosted phi : hosted (scripts_sat phi).
Proof. constructor; intros; assumption. Qed.

Lemma counted_closed p n okd okp okv oko okc :
  (forall o, oko o -> p o = false) ->
  (forall h d, p (OArm h d) = false) -> (forall h, p (ODisarm h) = false) ->
  (forall id name, p (ORequest id name) = false) ->
  closed (counted p n) okd okp okv oko okc.
Proof.
  intros Ho Ha Hd Hr.
  assert (Hl : forall o w, p o = false -> counted p n w -> counted p n (log o w)).
  { intros o w Hp Hw. unfold counted in *. simpl. now rewrite Hp. }
  constructor; try (intros; assumption).
  - intros; auto.
  - intros; apply target_set_keeps; intros; assumption.
  - intros; apply setProperty_keeps; intros; assumption.
  - apply runFrames_keeps; try (intros; assumption); intros; now apply Hl.
  - apply call_loader_keeps; try (intros; assumption).
    + intros; now apply Hl.
    + intros; apply setProperty_keeps; intros; assumption.
Qed.

Lemma counted_hosted p n : hosted (counted p n).
Proof. constructor; intros; assumption. Qed.

Lemma dry_closed okd okp okv oko okc : closed dry okd okp okv oko okc.
Proof.
  constructor; try (intros; assumption).
  - intros; apply target_set_keeps; intros; assumption.
  - intros; apply setProperty_keeps; intros; assumption.
  - apply runFrames_keeps; intros; assumption.
  - apply call_loader_keeps; try (intros; assumption).
    intros; apply setProperty_keeps; intros; assumption.
Qed.

Lemma inert_closed p ls e okd okp okv oko okc :
  closed (inert p ls e) okd okp okv oko okc.
Proof.
  constructor; try (intros; assumption).
  - intros; apply target_set_keeps; intros; assumption.
  - intros; apply setProperty_keeps; intros; assumption.
  - apply runFrames_keeps; intros; assumption.
  - apply call_loader_keeps; try (intros; assumption).
    intros; apply setProperty_keeps; intros; assumption.
Qed.

Lemma inert_hosted p ls e : hosted (inert p ls e).
Proof. constructor; intros; assumption. Qed.

Lemma started_load name path : keeps started (load name path CbNone).
Proof.
  intros w (H1 & H2 & H3). unfold wp, load, fresh, bind, modify, ret. simpl.
  unfold started. simpl. split; [exact H1 | split; [exact H2 |]].
  now apply map_Forall_insert_2.
Qed.

Lemma started_lookup_this k w : started w -> no_wrap (lookup_this w k).
Proof.
  intros (_ & (H1 & _ & H3) & _). unfold lookup_this.
  destruct (this w !! k) as [v |] eqn:E; simpl.
  - exact (H1 k v E).
  - now apply unwrapped_get.
Qed.

(** No wrapper is in place: a load does not go through [_preload]. *)
Lemma started_call_loader name path : keeps started (call_loader name path).
Proof.
  unfold call_loader.
  apply keeps_bind; [| intros context].
  { unfold pick_context, this_get.
    apply keeps_bind; [apply keeps_gets | intros g; apply keeps_ret]. }
  assert (K : forall f, no_wrap f ->
    keeps started
      match f with
      | VFun (FWrap func) => _preload func path;;; ret tt
      | VFun (FProto n) | VFun (FBound n) =>
          if is_loader n then load n path CbNone;;; ret tt else unmodelled
      | VFun (FUser _) => unmodelled
      | _ => throw TypeError
      end).
  { intros f Hf. destruct f as [| | | | | | [ | n | n | func ]];
      try apply keeps_throw; try apply keeps_unmodelled.
    - destruct (is_loader n); [| apply keeps_unmodelled].
      apply keeps_bind; [apply started_load | intros _; apply keeps_ret].
    - destruct (is_loader n); [| apply keeps_unmodelled].
      apply keeps_bind; [apply started_load | intros _; apply keeps_ret].
    - destruct Hf. }
  destruct context; unfold target_get, window_get, this_get;
    (eapply keeps_bind_gets_sat with (P := no_wrap); [| exact K]);
    intros w Hw; [| now apply started_lookup_this].
  destruct Hw as (_ & (_ & H2 & _) & _). now apply unwrapped_get.
Qed.

Lemma started_closed okd okp okv oko okc :
  (forall x, okv x -> no_wrap x) ->
  closed started okd okp okv oko okc.
Proof.
  intros Hv.
  assert (Ht : forall k x w, no_wrap x -> started w ->
                             started (upd_this (insert k x) w)).
  { intros k x w Hx (H1 & (H2 & H3 & H4) & H5). unfold started. simpl.
    conjs; auto using unwrapped_insert. }
  assert (Hw : forall k x w, no_wrap x -> started w ->
                             started (upd_window (insert k x) w)).
  { intros k x w Hx (H1 & (H2 & H3 & H4) & H5). unfold started. simpl.
    conjs; auto using unwrapped_insert. }
  constructor; try (intros; assumption).
  - intros; auto.
  - intros; apply target_set_keeps; auto.
  - intros; apply setProperty_keeps; auto.
  - apply runFrames_keeps; try (intros; assumption).
    intros. now apply Ht.
  - apply started_call_loader.
Qed.

Lemma data_no_wrap x : is_function x = false -> no_wrap x.
Proof. destruct x; try exact (fun _ => Logic.I). discriminate. Qed.

(** A turn of the event loop on a started sketch: the load event and
    the completions of the preload phase have nothing left to do. *)
Lemma started_dispatch (J : world -> Prop) (oko : obs -> Prop) now e :
  closed J (fun _ => True) (fun _ => True) no_wrap oko (fun _ => True) ->
  oko OTick ->
  (forall id w, J w -> J (upd_requests (delete id) w)) ->
  (forall h w, started w /\ J w -> is_Some (timeouts w !! h) ->
     wp (modify (upd_timeouts (delete h));;; requestDraw)
        (fun _ u => started u /\ J u) (fun u => started u /\ J u) w) ->
  (forall h w, started w /\ J w -> h ∈ frames w ->
     wp (modify (upd_frames (filter (fun x => x ≠ h)));;; _draw)
        (fun _ u => started u /\ J u) (fun u => started u /\ J u) w) ->
  keeps (fun w => started w /\ J w) (dispatch now e).
Proof.
  intros HJ Ht Hret Htime Hframe.
  apply rt_dispatch
    with (okd := fun _ => True) (okp := fun _ => True) (okv := no_wrap)
         (oko := oko) (okc := fun _ => True); auto.
  - apply closed_and; [now apply started_closed | exact HJ].
  - exact data_no_wrap.
  - intros; apply scripts_sat_any.
  - intros w [(Ho & _) _] E. congruence.
  - intros id c w [(_ & _ & Hq) _] E. now specialize (Hq id _ E).
  - intros id w [(H1 & H2 & H3) Hj]. split; [| now apply Hret].
    unfold started. simpl. split; [exact H1 | split; [exact H2 |]].
    now apply map_Forall_delete.
Qed.

(** Observations that are not made once the preload phase is over. *)
Lemma started_counted p n now e :
  p OTick = false -> p ODraw = false ->
  (forall h d, p (OSchedule h d) = false) ->
  (forall h d, p (OArm h d) = false) -> (forall h, p (ODisarm h) = false) ->
  (forall id name, p (ORequest id name) = false) ->
  keeps (fun w => started w /\ counted p n w) (dispatch now e).
Proof.
  intros Ht Hd Hs Ha Hdis Hr.
  set (oko := fun o => o = OTick \/ o = ODraw).
  assert (Ho : forall o, oko o -> p o = false)
    by (intros o [-> | ->]; assumption).
  assert (HJ : closed (counted p n) (fun _ => True) (fun _ => True)
                 no_wrap oko (fun _ => True)) by now apply counted_closed.
  assert (HK : closed (fun w => started w /\ counted p n w)
                 (fun _ => True) (fun _ => True) no_wrap oko (fun _ => True))
    by (apply closed_and; [now apply started_closed | exact HJ]).
  apply started_dispatch with (oko := oko).
  - exact HJ.
  - now left.
  - intros id w Hw. exact Hw.
  - intros h w Hw _. exact Hw.
  - intros h w Hw _.
    apply wp_keeps with (I := fun w => started w /\ counted p n w);
      [| exact Hw |].
    + apply keeps_modify. intros u Hu. exact Hu.
    + intros _ u Hu.
      apply (rt_draw _ _ _ _ _ _ HK data_no_wrap); auto.
      * intros; apply scripts_sat_any.
      * now right.
      * intros d x [Hx1 Hx2]. split; [exact Hx1 |].
        unfold counted in *. simpl. now rewrite Hs.
Qed.

(** Once the preload phase is over, the start-up is not repeated:
    whatever events arrive, and whatever the callbacks do among
    starting loads, switching looping on or off, assigning properties,
    calling [_runFrames] and throwing, the setup callback is not
    invoked again, no completion callback of [_preload] releases the
    sketch again, and the preload phase stays over. *)
Theorem setup_not_repeated evs w w' :
  started w -> run evs w = Some w' ->
  started w' /\
  count is_setup (trace w') = count is_setup (trace w) /\
  count is_release (trace w') = count is_release (trace w).
Proof.
  intros Hs Hr. split; [| split].
  - refine (proj1 (run_keeps _ (fun now e => started_counted is_setup
                     (count is_setup (trace w)) now e _ _ _ _ _ _)
                     evs w w' (conj Hs eq_refl) Hr)); reflexivity.
  - refine (proj2 (run_keeps _ (fun now e => started_counted is_setup
                     (count is_setup (trace w)) now e _ _ _ _ _ _)
                     evs w w' (conj Hs eq_refl) Hr)); reflexivity.
  - refine (proj2 (run_keeps _ (fun now e => started_counted is_release
                     (count is_release (trace w)) now e _ _ _ _ _ _)
                     evs w w' (conj Hs eq_refl) Hr)); reflexivity.
Qed.

Lemma setup_not_repeated_witness :
  started late_loading_sketch /\
  run late_loading_run late_loading_sketch
    = Some (after late_loading_run late_loading_sketch) /\
  count is_setup (trace (after late_loading_run late_loading_sketch))
    = count is_setup (trace late_loading_sketch).
Proof.
  assert (Hs : started late_loading_sketch).
  { apply (@bool_decide_unpack _ (started_dec late_loading_sketch)).
    vm_compute. exact I. }
  assert (Hr : run late_loading_run late_loading_sketch
               = Some (after late_loading_run late_loading_sketch))
    by computed.
  split; [exact Hs | split; [exact Hr |]].
  exact (proj1 (proj2 (setup_not_repeated _ _ _ Hs Hr))).
Defined.

Lemma started_dry_draws n now e :
  keeps (fun w => started w /\ dry w /\ counted is_draw n w) (dispatch now e).
Proof.
  set (oko := fun o => is_draw o = false).
  assert (HJ : closed (fun w => dry w /\ counted is_draw n w)
                 (fun _ => True) (fun _ => True) no_wrap oko (fun _ => True)).
  { apply closed_and; [apply dry_closed | now apply counted_closed]. }
  apply started_dispatch with (oko := oko).
  - exact HJ.
  - reflexivity.
  - intros id w Hw. exact Hw.
  - intros h w (_ & (Ht & _) & _) [x Hx]. rewrite Ht in Hx.
    now rewrite lookup_empty in Hx.
  - intros h w (_ & (_ & Hf) & _) Hh. rewrite Hf in Hh.
    now apply elem_of_nil in Hh.
Qed.

(** A draw loop that has come to an end stays at its end.  If the
    preload phase is over and no draw is pending, neither as a timeout
    nor as a requested frame, then no event leads to a draw invocation
    and none makes a draw pending, whatever the callbacks of the other
    events do: switching looping back on or calling [_runFrames] does
    not bring the loop back. *)
Theorem ended_loop_stays_ended evs w w' :
  started w -> dry w -> run evs w = Some w' ->
  dry w' /\ count is_draw (trace w') = count is_draw (trace w).
Proof.
  intros Hs Hd Hr.
  exact (proj2 (run_keeps _ (started_dry_draws (count is_draw (trace w)))
                  evs w w' (conj Hs (conj Hd eq_refl)) Hr)).
Qed.

Lemma ended_loop_stays_ended_witness :
  started broken_setup_sketch /\ dry broken_setup_sketch /\
  run prodding_run broken_setup_sketch
    = Some (after prodding_run broken_setup_sketch) /\
  count is_draw (trace (after prodding_run broken_setup_sketch))
    = count is_draw (trace broken_setup_sketch).
Proof.
  assert (Hs : started broken_setup_sketch).
  { apply (@bool_decide_unpack _ (started_dec broken_setup_sketch)).
    vm_compute. exact I. }
  assert (Hd : dry broken_setup_sketch) by (split; vm_compute; reflexivity).
  assert (Hr : run prodding_run broken_setup_sketch
               = Some (after prodding_run broken_setup_sketch))
    by computed.
  conjs; try assumption.
  exact (proj2 (ended_loop_stays_ended _ _ _ Hs Hd Hr)).
Defined.

(** ** The frame counter's timer *)

Lemma handle_of_nat h : handle_of (VNum (of_nat h)) = Some h.
Proof.
  unfold handle_of, of_nat, of_Z. rewrite Qfloor_Z.
  assert (E : Qeq_bool (inject_Z (Z.of_nat h)) (inject_Z (Z.of_nat h)) = true)
    by (apply Qeq_bool_iff; reflexivity).
  rewrite E. simpl.
  assert (L : (0 <=? Z.of_nat h) = true) by (apply Z.leb_le; lia).
  rewrite L. now rewrite Nat2Z.id.
Qed.

Lemma truthy_of_nat h : h <> 0%nat -> truthy (VNum (of_nat h)) = true.
Proof.
  intros Hh. unfold truthy, of_nat, of_Z.
  destruct (Qeq_bool (inject_Z (Z.of_nat h)) 0) eqn:E; [| reflexivity].
  apply Qeq_bool_iff in E. unfold Qeq in E. simpl in E. lia.
Qed.

(** [_runFrames] cancels the timer it armed before, and arms one. *)
Lemma ticker_runFrames : keeps ticker _runFrames.
Proof.
  intros w Hw. unfold wp, _runFrames, this_get, this_set.
  rewrite bind_gets.
  assert (Hc : exists w1,
    when (truthy (lookup_this w "updateInterval"))
         (clearInterval (lookup_this w "updateInterval")) w = Ok tt w1 /\
    intervals w1 = ∅).
  { destruct Hw as [He | (h & p & Hh & Hi & Hu)].
    - exists w. split; [| exact He].
      destruct (truthy _); [| reflexivity].
      unfold when, clearInterval.
      destruct (handle_of _) as [h |]; [| reflexivity].
      now rewrite He, lookup_empty.
    - rewrite (lookup_this_own _ _ _ Hu), (truthy_of_nat _ Hh).
      unfold when, clearInterval. rewrite handle_of_nat, Hi, lookup_singleton_eq.
      eexists. split; [reflexivity |]. simpl. rewrite Hi.
      apply delete_singleton_eq. }
  destruct Hc as (w1 & E1 & Hi1). rewrite (bind_Ok _ _ _ _ _ E1), bind_gets.
  destruct (js_div (vint 1000) (lookup_this w1 "_targetFrameRate"))
    as [p |]; [| exact Logic.I].
  unfold arith, setInterval, fresh, bind, modify, ret. simpl.
  right. exists (S (next_id w1)), (as_number p). simpl.
  split; [discriminate |]. split; [| apply lookup_insert_eq].
  rewrite Hi1. apply insert_empty.
Qed.

Lemma ticker_closed okd okp okv oko okc :
  (forall k, okd k -> k <> "updateInterval") ->
  (forall k, okp k -> k <> "updateInterval") ->
  closed ticker okd okp okv oko okc.
Proof.
  intros Hd Hp.
  assert (Ht : forall k x w, k <> "updateInterval" -> ticker w ->
                             ticker (upd_this (insert k x) w)).
  { intros k x w Hk [He | (h & p & Hh & Hi & Hu)]; [now left | right].
    exists h, p. simpl. rewrite lookup_insert_ne by exact Hk. auto. }
  constructor; try (intros; assumption).
  - intros; auto.
  - intros c k x _ Hk _. apply target_set_keeps; [| intros; assumption].
    intros w. apply Ht. now apply (loader_neq k "updateInterval").
  - intros; apply setProperty_keeps; [| intros; assumption].
    intros u. apply Ht. auto.
  - apply ticker_runFrames.
  - apply call_loader_keeps; try (intros; assumption).
    intros; apply setProperty_keeps; [| intros; assumption].
    intros u. now apply Ht.
Qed.

Lemma ticker_hosted : hosted ticker.
Proof. constructor; intros; assumption. Qed.

Lemma ticker_dispatch now e :
  keeps (fun w => scripts_sat (leaves "updateInterval") w /\ ticker w)
        (dispatch now e).
Proof.
  apply rt_dispatch_all
    with (okd := fun k => k <> "updateInterval")
         (okp := fun k => k <> "updateInterval")
         (okv := val_sat (leaves "updateInterval"))
         (oko := fun _ => True) (okc := fun _ => True);
    try discriminate; try (intros; exact Logic.I).
  - apply closed_and; [now apply scripts_closed | now apply ticker_closed].
  - now intros [].
  - now intros w [Hs _].
  - apply hosted_and; [apply scripts_hosted | apply ticker_hosted].
  - intros w k [(_ & _ & Hs) _]. now apply obj_sat_get.
Qed.

(** The frame counter is driven by one timer at most.  Starting with
    at most one live interval timer whose handle is in [updateInterval]
    (none at all, on a new instance), every run keeps it so, however
    often [_runFrames] is called, by the library or by a callback:
    provided that no callback assigns [updateInterval]. *)
Theorem single_ticker evs w w' :
  ticker w -> scripts_sat (leaves "updateInterval") w ->
  run evs w = Some w' ->
  ticker w' /\ (size (intervals w') <= 1)%nat.
Proof.
  intros Ht Hs Hr.
  assert (H : ticker w').
  { exact (proj2 (run_keeps _ ticker_dispatch evs w w' (conj Hs Ht) Hr)). }
  split; [exact H |].
  destruct H as [He | (h & p & _ & Hi & _)].
  - rewrite He, map_size_empty. lia.
  - rewrite Hi, map_size_singleton. lia.
Qed.

Lemma single_ticker_witness :
  ticker retiming_sketch /\
  scripts_sat (leaves "updateInterval") retiming_sketch /\
  run retiming_run retiming_sketch = Some (after retiming_run retiming_sketch) /\
  (size (intervals (after retiming_run retiming_sketch)) <= 1)%nat.
Proof.
  assert (Ht : ticker retiming_sketch).
  { right. exists 10%nat, (Finite (1000 # 30)).
    conjs; [discriminate | vm_compute; reflexivity ..]. }
  assert (Hs : scripts_sat (leaves "updateInterval") retiming_sketch).
  { apply (@bool_decide_unpack _
             (scripts_sat_dec _ (leaves_dec "updateInterval") retiming_sketch)).
    vm_compute. exact I. }
  assert (Hr : run retiming_run retiming_sketch
               = Some (after retiming_run retiming_sketch)) by computed.
  conjs; try assumption.
  exact (proj2 (single_ticker _ _ _ Ht Hs Hr)).
Defined.

(** ** What a run leaves alone *)

Lemma inert_dispatch p ls e now ev : keeps (inert p ls e) (dispatch now ev).
Proof.
  apply rt_dispatch_all
    with (okd := fun _ => True) (okp := fun _ => True)
         (okv := fun _ => True) (oko := fun _ => True) (okc := fun _ => True);
    try (intros; exact Logic.I).
  - apply inert_closed.
  - intros; apply scripts_sat_any.
  - apply inert_hosted.
Qed.

(** No run of the event loop changes [p5.prototype], the input
    listeners or what the host provides: the constants the constructor
    put on the prototype stay there, the library's own methods are
    never replaced there (the wrappers of [_start] go on the instance
    or on [window]), and listeners are neither added nor removed. *)
Theorem run_leaves_library evs w w' :
  run evs w = Some w' ->
  prototype w' = prototype w /\ listeners w' = listeners w /\ env w' = env w.
Proof.
  intros Hr.
  exact (run_keeps _ (inert_dispatch (prototype w) (listeners w) (env w))
           evs w w' (conj eq_refl (conj eq_refl eq_refl)) Hr).
Qed.

Lemma run_leaves_library_witness :
  run late_loading_run late_loading_sketch
    = Some (after late_loading_run late_loading_sketch) /\
  prototype (after late_loading_run late_loading_sketch)
    = prototype late_loading_sketch.
Proof.
  assert (Hr : run late_loading_run late_loading_sketch
               = Some (after late_loading_run late_loading_sketch))
    by computed.
  split; [exact Hr |].
  exact (proj1 (run_leaves_library _ _ _ Hr)).
Defined.

(** ** Setup before draw *)

Lemma count_rev p t : count p (rev t) = count p t.
Proof.
  induction t as [| o t IH]; simpl; [reflexivity |].
  rewrite count_app, IH. simpl. lia.
Qed.

Lemma setup_first_no_draw h : count is_draw h = 0%nat -> setup_first h = true.
Proof.
  induction h as [| o h IH]; simpl; [reflexivity |].
  destruct o; simpl; auto. discriminate.
Qed.

Lemma setup_first_snoc h o :
  setup_first h = true -> (0 < count is_setup h)%nat ->
  setup_first (h ++ [o]) = true.
Proof.
  induction h as [| o' h IH]; simpl; [lia |].
  destruct o'; simpl; auto.
Qed.

Lemma set_up_log o w : set_up w -> set_up (log o w).
Proof.
  intros [Hf Hc]. split.
  - change (history (log o w)) with (history w ++ [o]).
    apply setup_first_snoc; [exact Hf |].
    unfold history. now rewrite count_rev.
  - simpl. lia.
Qed.

Lemma phase_log o w : is_draw o = false -> phase w -> phase (log o w).
Proof.
  intros Ho [Hs | [Hd Hc]]; [left; now apply set_up_log | right].
  split; [exact Hd |]. simpl. now rewrite Ho.
Qed.

Lemma phase_enter_setup w : phase w -> set_up (log OSetup w).
Proof.
  intros [Hs | [_ Hc]]; [now apply set_up_log |]. split; [| simpl; lia].
  apply setup_first_no_draw. unfold history. rewrite count_rev. exact Hc.
Qed.

Lemma set_up_closed okd okp okv oko okc : closed set_up okd okp okv oko okc.
Proof.
  constructor; try (intros; assumption).
  - intros; now apply set_up_log.
  - intros; apply target_set_keeps; intros; assumption.
  - intros; apply setProperty_keeps; intros; assumption.
  - apply runFrames_keeps; try (intros; assumption);
      intros; now apply set_up_log.
  - apply call_loader_keeps; try (intros; assumption).
    + intros; now apply set_up_log.
    + intros; apply setProperty_keeps; intros; assumption.
Qed.

Lemma set_up_hosted : hosted set_up.
Proof. constructor; intros; assumption. Qed.

Lemma phase_closed okd okp okv oko okc :
  (forall o, oko o -> is_draw o = false) ->
  closed phase okd okp okv oko okc.
Proof.
  intros Ho. constructor; try (intros; assumption).
  - intros; apply phase_log; auto.
  - intros; apply target_set_keeps; intros; assumption.
  - intros; apply setProperty_keeps; intros; assumption.
  - apply runFrames_keeps; try (intros; assumption);
      intros; now apply phase_log.
  - apply call_loader_keeps; try (intros; assumption).
    + intros; now apply phase_log.
    + intros; apply setProperty_keeps; intros; assumption.
Qed.

Lemma has_setup_closed okd okp okv oko okc :
  (forall k, okd k -> k <> "setup") ->
  (forall k, okp k -> k <> "setup") ->
  closed has_setup okd okp okv oko okc.
Proof.
  intros Hd Hp.
  assert (Ht : forall k x w, k <> "setup" -> has_setup w ->
                             has_setup (upd_this (insert k x) w)).
  { intros k x w Hk Hw. unfold has_setup. rewrite lookup_this_insert.
    apply String.eqb_neq in Hk. now rewrite Hk. }
  constructor; try (intros; assumption).
  - intros; auto.
  - intros c k x _ Hk _. apply target_set_keeps; [| intros; assumption].
    intros w. apply Ht. now apply (loader_neq k "setup").
  - intros; apply setProperty_keeps; [| intros; assumption].
    intros u. apply Ht. auto.
  - apply runFrames_keeps; try (intros; assumption).
    intros. now apply Ht.
  - apply call_loader_keeps; try (intros; assumption).
    intros; apply setProperty_keeps; [| intros; assumption].
    intros u. now apply Ht.
Qed.

Lemma has_setup_hosted : hosted has_setup.
Proof. constructor; intros; assumption. Qed.

Section SetupFirst.

Local Abbreviation okk := (fun k : string => k <> "setup").
Local Abbreviation okv := (val_sat (leaves "setup")).
Local Abbreviation base :=
  (fun w : world => scripts_sat (leaves "setup") w /\ has_setup w).
Local Abbreviation J := (fun w : world => base w /\ phase w).
Local Abbreviation JM := (fun w : world => base w /\ set_up w).

Lemma sf_base_closed oko : closed base okk okk okv oko (fun _ => True).
Proof.
  apply closed_and; [now apply scripts_closed | now apply has_setup_closed].
Qed.

Lemma sf_J_closed :
  closed J okk okk okv (fun o => is_draw o = false) (fun _ => True).
Proof. apply closed_and; [apply sf_base_closed | now apply phase_closed]. Qed.

Lemma sf_JM_closed : closed JM okk okk okv (fun _ => True) (fun _ => True).
Proof. apply closed_and; [apply sf_base_closed | apply set_up_closed]. Qed.

Lemma sf_data x : is_function x = false -> okv x.
Proof. now destruct x. Qed.

Lemma sf_J_scripts w : J w -> scripts_sat (assigns_only okk) w.
Proof. now intros [[Hs _] _]. Qed.

Lemma sf_JM_scripts w : JM w -> scripts_sat (assigns_only okk) w.
Proof. now intros [[Hs _] _]. Qed.

Lemma sf_JM_J w : JM w -> J w.
Proof. intros [Hb Hs]. split; [exact Hb | now left]. Qed.

Lemma sf_JM_draw : keeps JM _draw.
Proof.
  apply (rt_draw _ _ _ _ _ _ sf_JM_closed sf_data sf_JM_scripts);
    try exact Logic.I; try discriminate.
  intros d w [Hb Hs]. split; [exact Hb |].
  now apply (set_up_log (OSchedule (S (next_id w)) d)) in Hs.
Qed.

(** [_setup] enters the setup callback, the instance having one. *)
Lemma sf_setup w : J w -> wp _setup (fun _ => JM) JM w.
Proof.
  intros Hw. pose proof Hw as [[Hs Hf] Hp].
  assert (H1 : JM (log OSetup w)).
  { split; [split; [exact Hs | exact Hf] | now apply phase_enter_setup]. }
  unfold wp, _setup, this_get, window_get. rewrite !bind_gets.
  unfold has_setup in Hf.
  pose proof (lookup_this_sat _ w "setup" Hs) as Hv.
  destruct (lookup_this w "setup") as [| | | | | | f]; try discriminate.
  unfold js_or. simpl.
  destruct f as [body | | |]; try exact Logic.I.
  exact (rt_run_script _ _ _ _ _ _ sf_JM_closed sf_data body Hv _ H1).
Qed.

Lemma sf_launch : keeps J launch.
Proof.
  intros w Hw. unfold launch. apply wp_bind.
  apply (wp_mono _ (fun _ => JM) _ JM _ _ (sf_setup w Hw));
    [| exact sf_JM_J].
  intros _ w1 H1.
  assert (K : keeps JM (_runFrames;;; _draw)).
  { apply keeps_bind; [apply (cl_runFrames _ _ _ _ _ _ sf_JM_closed) |].
    intros _. apply sf_JM_draw. }
  apply (wp_mono _ (fun _ => JM) _ JM _ _ (K w1 H1)); auto using sf_JM_J.
Qed.

(** Something is pending: then setup has been entered. *)
Lemma sf_pending w :
  J w -> (exists h, is_Some (timeouts w !! h)) \/ (exists h, h ∈ frames w) ->
  JM w.
Proof.
  intros [Hb [Hs | [[Ht Hf] _]]] Hp; [now split | exfalso].
  destruct Hp as [[h [x Hx]] | [h Hh]].
  - rewrite Ht in Hx. now rewrite lookup_empty in Hx.
  - rewrite Hf in Hh. now apply elem_of_nil in Hh.
Qed.

Lemma sf_dispatch now e : keeps J (dispatch now e).
Proof.
  apply (rt_dispatch _ _ _ _ _ _ sf_J_closed sf_data sf_J_scripts);
    try reflexivity; try discriminate.
  - intros w Hw _. apply wp_keeps with (I := J); [| exact Hw |].
    + apply keeps_modify. intros u Hu. exact Hu.
    + intros _ u Hu.
      apply (rt_start _ _ _ _ _ _ sf_J_closed sf_data sf_J_scripts);
        try reflexivity; try discriminate; try exact sf_launch.
      * intros x k [[(_ & _ & Hs) _] _]. now apply obj_sat_get.
      * exact Hu.
  - intros h w Hw Hh. apply sf_JM_J.
    assert (H : JM w) by (apply sf_pending; eauto).
    exact H.
  - intros h w Hw Hh.
    assert (H : JM w) by (apply sf_pending; eauto).
    assert (K : keeps JM (modify (upd_frames (filter (fun x => x ≠ h)));;; _draw)).
    { apply keeps_bind; [| intros _; apply sf_JM_draw].
      apply keeps_modify. intros u Hu. exact Hu. }
    apply (wp_mono _ (fun _ => JM) _ JM _ _ (K w H)); auto using sf_JM_J.
  - intros id c w Hw _. apply wp_keeps with (I := J); [| exact Hw |].
    + apply keeps_modify. intros u Hu. exact Hu.
    + intros _ u Hu. apply wp_keeps with (I := J); [| exact Hu |].
      * apply keeps_modify. intros u' Hu'.
        now apply (cl_log _ _ _ _ _ _ sf_J_closed).
      * intros _ u' Hu'.
        apply (rt_preload_done _ _ _ _ _ _ sf_J_closed sf_data);
          try reflexivity; try discriminate; try exact sf_launch.
        exact Hu'.
  - intros id w Hw. exact Hw.
Qed.

End SetupFirst.

(** Draw does not run before setup.  On an instance that has a setup
    callback, has not drawn and has no draw pending (a new instance),
    every run leaves a history in which the first invocation of the
    setup or the draw callback, if there is one, is of setup: provided
    that no callback assigns the property [setup]. *)
Theorem setup_precedes_draw evs w w' :
  has_setup w -> scripts_sat (leaves "setup") w ->
  dry w -> count is_draw (trace w) = 0%nat ->
  run evs w = Some w' ->
  setup_first (history w') = true.
Proof.
  intros Hf Hs Hd Hc Hr.
  assert (H : phase w').
  { refine (proj2 (run_keeps _ sf_dispatch evs w w' _ Hr)).
    split; [split; assumption | right; now split]. }
  destruct H as [[H _] | [_ H]]; [exact H |].
  apply setup_first_no_draw. unfold history. now rewrite count_rev.
Qed.

Lemma setup_precedes_draw_witness :
  has_setup patient_sketch /\
  scripts_sat (leaves "setup") patient_sketch /\
  dry patient_sketch /\
  count is_draw (trace patient_sketch) = 0%nat /\
  run patient_run patient_sketch = Some (after patient_run patient_sketch) /\
  setup_first (history (after patient_run patient_sketch)) = true.
Proof.
  assert (Hf : has_setup patient_sketch) by (vm_compute; reflexivity).
  assert (Hs : scripts_sat (leaves "setup") patient_sketch).
  { apply (@bool_decide_unpack _
             (scripts_sat_dec _ (leaves_dec "setup") patient_sketch)).
    vm_compute. exact I. }
  assert (Hd : dry patient_sketch) by (split; vm_compute; reflexivity).
  assert (Hc : count is_draw (trace patient_sketch) = 0%nat)
    by (vm_compute; reflexivity).
  assert (Hr : run patient_run patient_sketch
               = Some (after patient_run patient_sketch)) by computed.
  split; [exact Hf |]. split; [exact Hs |]. split; [exact Hd |].
  split; [exact Hc |]. split; [exact Hr |].
  exact (setup_precedes_draw _ _ _ Hf Hs Hd Hc Hr).
Defined.

(** ** Global mode: the mirror on [window] *)







(** ** The footprint of the library *)

Lemma not_in_neq (l : list string) p k : ~ In p l -> In k l -> k <> p.
Proof. intros Hp Hk ->. now apply Hp. Qed.

Lemma not_loader (l : list string) p :
  (forall k, is_loader k = true -> In k l) -> ~ In p l -> is_loader p = false.
Proof.
  intros Hl Hp. destruct (is_loader p) eqn:E; [| reflexivity].
  destruct Hp. now apply Hl.
Qed.

Lemma loader_cases k :
  is_loader k = true ->
  k = "loadJSON" \/ k = "loadStrings" \/ k = "loadXML" \/ k = "loadImage".
Proof.
  unfold is_loader. intros H.
  repeat (apply orb_true_iff in H; destruct H as [H | H]);
    apply String.eqb_eq in H; auto.
Qed.

Lemma window_has_closed p v okd okp okv oko okc :
  is_loader p = false -> p <> "preload-count" ->
  (forall k, okp k -> k <> p) ->
  closed (window_has p v) okd okp okv oko okc.
Proof.
  intros Hl Hc Hp.
  assert (Hw : forall k x w, k <> p -> window_has p v w ->
                             window_has p v (upd_window (insert k x) w)).
  { intros k x w Hk Hw. unfold window_has. simpl.
    now rewrite lookup_insert_ne. }
  constructor; try (intros; assumption).
  - intros c k x _ Hk _. apply target_set_keeps; [intros; assumption |].
    intros w. apply Hw. now apply loader_neq.
  - intros; apply setProperty_keeps; [intros; assumption |].
    intros u. apply Hw. auto.
  - apply runFrames_keeps; intros; assumption.
  - apply call_loader_keeps; try (intros; assumption).
    intros; apply setProperty_keeps; [intros; assumption |].
    intros u. apply Hw. congruence.
Qed.

Lemma this_has_closed p v okd okp okv oko okc :
  is_loader p = false -> p <> "preload-count" -> p <> "updateInterval" ->
  (forall k, okd k -> k <> p) -> (forall k, okp k -> k <> p) ->
  closed (this_has p v) okd okp okv oko okc.
Proof.
  intros Hl Hc Hu Hd Hp.
  assert (Ht : forall k x w, k <> p -> this_has p v w ->
                             this_has p v (upd_this (insert k x) w)).
  { intros k x w Hk Hw. unfold this_has. simpl.
    now rewrite lookup_insert_ne. }
  constructor; try (intros; assumption).
  - intros; auto.
  - intros c k x _ Hk _. apply target_set_keeps; [| intros; assumption].
    intros w. apply Ht. now apply loader_neq.
  - intros; apply setProperty_keeps; [| intros; assumption].
    intros u. apply Ht. auto.
  - apply runFrames_keeps; try (intros; assumption).
    intros. apply Ht; [congruence | assumption].
  - apply call_loader_keeps; try (intros; assumption).
    intros; apply setProperty_keeps; [| intros; assumption].
    intros u. apply Ht. congruence.
Qed.

Lemma setting_has_closed p v okd okp okv oko okc :
  p <> "loop" -> closed (setting_has p v) okd okp okv oko okc.
Proof.
  intros Hp. constructor; try (intros; assumption).
  - intros b w Hw. unfold setting_has. simpl.
    rewrite lookup_insert_ne by congruence. exact Hw.
  - intros; apply target_set_keeps; intros; assumption.
  - intros; apply setProperty_keeps; intros; assumption.
  - apply runFrames_keeps; intros; assumption.
  - apply call_loader_keeps; try (intros; assumption).
    intros; apply setProperty_keeps; intros; assumption.
Qed.

Lemma window_has_dispatch p v now e :
  ~ In p written_on_window ->
  keeps (fun w => scripts_sat (leaves p) w /\ window_has p v w)
        (dispatch now e).
Proof.
  intros Hp.
  assert (Hk : forall k, In k written_on_window -> k <> p)
    by (intros k; now apply not_in_neq).
  assert (Hl : is_loader p = false).
  { apply (not_loader written_on_window); [| exact Hp].
    intros k Hk'. apply loader_cases in Hk'. simpl. intuition. }
  apply rt_dispatch_all
    with (okd := fun _ => True) (okp := fun k => k <> p)
         (okv := val_sat (leaves p)) (oko := fun _ => True) (okc := fun _ => True);
    try (intros; exact Logic.I);
    try (apply Hk; simpl; auto 15; fail).
  - apply closed_and; [now apply scripts_closed |].
    apply window_has_closed; auto.
    intros E. symmetry in E. revert E. apply Hk. simpl. auto.
  - now intros [].
  - now intros w [Hs _].
  - apply hosted_and; [apply scripts_hosted |].
    constructor; intros; assumption.
  - intros w k [(_ & _ & Hs) _]. now apply obj_sat_get.
Qed.

Lemma this_has_dispatch p v now e :
  ~ In p written_on_this ->
  keeps (fun w => scripts_sat (leaves p) w /\ this_has p v w)
        (dispatch now e).
Proof.
  intros Hp.
  assert (Hk : forall k, In k written_on_this -> k <> p)
    by (intros k; now apply not_in_neq).
  assert (Hn : forall k, In k written_on_this -> p <> k).
  { intros k Hk' E. symmetry in E. revert E. now apply Hk. }
  assert (Hl : is_loader p = false).
  { apply (not_loader written_on_this); [| exact Hp].
    intros k Hk'. apply loader_cases in Hk'. simpl. intuition. }
  apply rt_dispatch_all
    with (okd := fun k => k <> p) (okp := fun k => k <> p)
         (okv := val_sat (leaves p)) (oko := fun _ => True) (okc := fun _ => True);
    try (intros; exact Logic.I);
    try (apply Hk; simpl; auto 15; fail).
  - apply closed_and; [now apply scripts_closed |].
    apply this_has_closed; auto; apply Hn; simpl; auto 15.
  - now intros [].
  - now intros w [Hs _].
  - apply hosted_and; [apply scripts_hosted |].
    constructor; intros; assumption.
  - intros w k [(_ & _ & Hs) _]. now apply obj_sat_get.
Qed.

Lemma setting_has_dispatch p v now e :
  p <> "loop" -> keeps (setting_has p v) (dispatch now e).
Proof.
  intros Hp.
  apply rt_dispatch_all
    with (okd := fun _ => True) (okp := fun _ => True)
         (okv := fun _ => True) (oko := fun _ => True) (okc := fun _ => True);
    try (intros; exact Logic.I).
  - now apply setting_has_closed.
  - intros; apply scripts_sat_any.
  - constructor; intros; assumption.
Qed.

(** What the library writes when it runs.  Over every run, a property
    [p] that no callback assigns keeps its value on [window] unless it
    is [frameCount], [preload-count] or one of the four loaders, and
    keeps its value on the instance unless it is one of these or of the
    five that are assigned there directly; and if no callback assigns
    [settings] either, the instance keeps its settings object and the
    settings other than [loop] stay as they are.  So the callbacks of a
    sketch are never replaced, and, in global mode, [window._frameRate]
    is not kept up to date: [_frameRate] is assigned on the instance
    only.  ([createCanvas] and the loaders, which are not among the
    sources, are taken to assign [curElement] and nothing else.) *)
Theorem footprint p evs w w' :
  scripts_sat (leaves p) w -> run evs w = Some w' ->
  (~ In p written_on_window -> window w' !! p = window w !! p) /\
  (~ In p written_on_this -> this w' !! p = this w !! p) /\
  (p <> "loop" -> scripts_sat (leaves "settings") w ->
   this w' !! "settings" = this w !! "settings" /\
   settings w' !! p = settings w !! p).
Proof.
  intros Hs Hr. conjs.
  - intros Hp.
    exact (proj2 (run_keeps _
             (fun now e => window_has_dispatch p (window w !! p) now e Hp)
             evs w w' (conj Hs eq_refl) Hr)).
  - intros Hp.
    exact (proj2 (run_keeps _
             (fun now e => this_has_dispatch p (this w !! p) now e Hp)
             evs w w' (conj Hs eq_refl) Hr)).
  - intros Hp Hs'. split.
    + assert (Hn : ~ In "settings" written_on_this).
      { simpl. intros H. repeat destruct H as [H | H]; try discriminate H.
        exact H. }
      exact (proj2 (run_keeps _
               (fun now e =>
                  this_has_dispatch "settings" (this w !! "settings") now e Hn)
               evs w w' (conj Hs' eq_refl) Hr)).
    + exact (run_keeps _
               (fun now e => setting_has_dispatch p (settings w !! p) now e Hp)
               evs w w' eq_refl Hr).
Qed.

Lemma footprint_witness :
  scripts_sat (leaves "_frameRate") global_sketch /\
  run global_run global_sketch = Some (after global_run global_sketch) /\
  ~ In "_frameRate" written_on_window /\
  window (after global_run global_sketch) !! "_frameRate"
    = window global_sketch !! "_frameRate".
Proof.
  assert (Hs : scripts_sat (leaves "_frameRate") global_sketch).
  { apply (@bool_decide_unpack _
             (scripts_sat_dec _ (leaves_dec "_frameRate") global_sketch)).
    vm_compute. exact I. }
  assert (Hr : run global_run global_sketch
               = Some (after global_run global_sketch)) by computed.
  assert (Hp : ~ In "_frameRate" written_on_window).
  { simpl. intros H. repeat destruct H as [H | H]; try discriminate H.
    exact H. }
  split; [exact Hs |]. split; [exact Hr |]. split; [exact Hp |].
  exact (proj1 (footprint _ _ _ _ Hs Hr) Hp).
Defined.

(* ===================================================================== *)
(** * Further properties: the draw driver and the rendering context *)
(* ===================================================================== *)

Lemma user_throw_outcome {A} (m : M A) w :
  match m w with Throw UserError _ => true | _ => false end = true ->
  m w = Throw UserError (outcome w (m w)).
Proof. unfold outcome. destruct (m w) as [| [] |]; now intros. Qed.

Lemma call_user_keeps_surface c o f :
  keeps (fun u => curElement u = c) (call_user o f).
Proof.
  apply frame_call_user with (ok := fun _ => True);
    auto using val_sat_any.
Qed.

Lemma setTimeout_keeps_surface c d :
  keeps (fun u => curElement u = c) (setTimeout d).
Proof. intros w Hw. exact Hw. Qed.

(** What [_draw] does to the rendering context.  If it returns, it has
    made one call on the context, the reset of the transform to the
    identity, as the last thing it did; the user callbacks of this
    development do not draw, so that this call is all that is added.
    If it throws, which it does when the draw callback throws, the
    context is as it was: the transform has not been reset. *)
Theorem draw_resets_transform w k :
  curElement w = Some k ->
  (forall w', _draw w = Ok tt w' ->
     curElement w'
     = Some (ctx_call (CSetTransform (of_Z 1) (of_Z 0) (of_Z 0)
                                     (of_Z 1) (of_Z 0) (of_Z 0)) k)) /\
  (forall e w', _draw w = Throw e w' -> curElement w' = Some k).
Proof.
  intros Hk.
  assert (H : wp _draw
    (fun _ u => curElement u
                = Some (ctx_call (CSetTransform (of_Z 1) (of_Z 0) (of_Z 0)
                                                (of_Z 1) (of_Z 0) (of_Z 0)) k))
    (fun u => curElement u = Some k) w).
  { unfold _draw, getTime, this_get, window_get, this_set.
    repeat (apply wp_keeps with (I := fun u => curElement u = Some k);
      [ first
          [ apply keeps_gets
          | apply keeps_arith
          | apply keeps_modify; intros; assumption
          | apply keeps_when, call_user_keeps_surface
          | apply keeps_when;
            apply keeps_bind; [apply keeps_gets | intros ?];
            apply keeps_bind; [apply keeps_arith | intros ?];
            apply keeps_bind;
              [apply setTimeout_keeps_surface | intros ?; apply keeps_ret] ]
      | assumption
      | intros ? ? ? ]).
    unfold wp, on_context, bind, context, modify.
    match goal with
    | E : curElement ?u = Some k |- context [curElement ?u] =>
        rewrite E; simpl; rewrite E
    end.
    reflexivity. }
  unfold wp in H. split.
  - intros w' E. now rewrite E in H.
  - intros e w' E. now rewrite E in H.
Qed.

Lemma draw_resets_transform_witness :
  curElement failing_sketch = Some blank_context /\
  curElement (outcome failing_sketch (_draw failing_sketch))
  = Some blank_context.
Proof.
  assert (Hk : curElement failing_sketch = Some blank_context)
    by (vm_compute; reflexivity).
  assert (Ht : _draw failing_sketch
               = Throw UserError (outcome failing_sketch (_draw failing_sketch))).
  { apply user_throw_outcome. vm_compute. reflexivity. }
  split; [exact Hk |].
  exact (proj2 (draw_resets_transform _ _ Hk) _ _ Ht).
Defined.

(* ===================================================================== *)
(** * Further properties: construction in global mode *)
(* ===================================================================== *)

Lemma none_own_lookup names o k :
  none_own names o = true -> In k names -> o !! k = None.
Proof.
  unfold none_own. rewrite forallb_forall. intros H Hk.
  specialize (H k Hk). now destruct (o !! k).
Qed.

Lemma library_methods m v :
  library !! m = Some v -> v = VFun (FProto m) /\ In m method_names.
Proof.
  unfold library. intros H.
  apply elem_of_list_to_map_2, list_elem_of_In, in_map_iff in H.
  destruct H as (n & [= <- <-] & Hn). split; [reflexivity | exact Hn].
Qed.

Lemma library_no_callbacks k : In k callback_names -> library !! k = None.
Proof.
  simpl. intros H. repeat destruct H as [<- | H]; try (vm_compute; reflexivity).
  destruct H.
Qed.

Lemma none_own_insert names o k v :
  none_own names o = true -> ~ In k names ->
  none_own names (<[k := v]> o) = true.
Proof.
  unfold none_own. rewrite !forallb_forall. intros H Hk x Hx.
  rewrite lookup_insert_ne; [now apply H | intros <-; contradiction].
Qed.

(** The instance that global-mode construction leaves on a page, before
    the constructor looks at the document's readiness. *)
Lemma construct_global_page node win proto e now :
  map_Forall (fun _ v => is_Some (bind_method v)) proto ->
  exists g,
    construct None node (page win proto e now) = Ok tt g /\
    window g = constants e ∪ (this g ∪ (omap bind_method proto ∪ win)) /\
    prototype g = proto /\ env g = e /\ trace g = [] /\
    none_own (callback_names ++ method_names) (this g) = true.
Proof.
  intros Hp.
  destruct (own_properties_page node win proto e now)
    as (w1 & E & _ & _ & Hwin & Hproto & Henv & _).
  assert (Ho : outcome (page win proto e now)
                 (own_properties node (page win proto e now)) = w1)
    by (unfold outcome; now rewrite E).
  assert (Hn : none_own (callback_names ++ method_names) (this w1) = true).
  { rewrite <- Ho. vm_compute. reflexivity. }
  assert (Ht : trace w1 = []).
  { rewrite <- Ho. vm_compute. reflexivity. }
  unfold construct. rewrite (bind_Ok _ _ _ _ _ E).
  unfold this_set, bind, gets, modify, unmodelled. simpl.
  rewrite Hproto, Henv.
  destruct (decide _) as [_ | N]; [| contradiction].
  eexists. split; [reflexivity |]. simpl. rewrite Hwin.
  conjs; try reflexivity; try assumption.
  refine (none_own_insert (callback_names ++ method_names) _ "_isGlobal"
            _ Hn _).
  clear. simpl. intuition discriminate.
Qed.

Lemma library_lookup m :
  In m method_names -> library !! m = Some (VFun (FProto m)).
Proof.
  simpl. intros H.
  repeat destruct H as [<- | H]; try (vm_compute; reflexivity).
  destruct H.
Qed.

(** What is found under a method name and under a callback name after
    global-mode construction. *)
Lemma global_page_lookups win e g :
  window g = constants e ∪ (this g ∪ (omap bind_method library ∪ win)) ->
  prototype g = library ->
  none_own (callback_names ++ method_names) (this g) = true ->
  (forall m, In m method_names -> constants e !! m = None ->
     window g !! m = Some (VFun (FBound m))) /\
  (forall k, In k callback_names -> constants e !! k = None ->
     window g !! k = win !! k /\ this g !! k = None).
Proof.
  intros Hwin Hproto Hown. split.
  - intros m Hm Hc.
    assert (Ho : this g !! m = None).
    { apply (none_own_lookup _ _ _ Hown), in_or_app. now right. }
    rewrite Hwin, (lookup_union_r _ _ _ Hc), (lookup_union_r _ _ _ Ho).
    apply lookup_union_Some_l.
    now rewrite lookup_omap, (library_lookup m Hm).
  - intros k Hk Hc.
    assert (Ho : this g !! k = None).
    { apply (none_own_lookup _ _ _ Hown), in_or_app. now left. }
    split; [| exact Ho].
    rewrite Hwin, (lookup_union_r _ _ _ Hc), (lookup_union_r _ _ _ Ho).
    apply lookup_union_r.
    now rewrite lookup_omap, (library_no_callbacks k Hk).
Qed.

(** Construction in global mode puts every method of the library on
    [window], bound to the instance, in place of whatever global had
    its name; and it leaves the globals [preload], [setup] and [draw]
    as the sketch defined them, the instance having no property of
    these names, neither its own nor inherited: provided in each case
    that the constants module has no constant of the name, which would
    be assigned to [window] last. *)
Theorem global_binding node win e now :
  exists g,
    construct None node (page win library e now) = Ok tt g /\
    (forall m, In m method_names -> constants e !! m = None ->
       window g !! m = Some (VFun (FBound m))) /\
    (forall k, In k callback_names -> constants e !! k = None ->
       window g !! k = win !! k /\ lookup_this g k = VUndefined).
Proof.
  destruct (construct_global_page node win library e now library_bindable)
    as (g & E & Hwin & Hproto & _ & _ & Hown).
  destruct (global_page_lookups win e g Hwin Hproto Hown) as [Hm Hk].
  exists g. split; [exact E |]. split; [exact Hm |].
  intros k Hin Hc. destruct (Hk k Hin Hc) as [H1 H2]. split; [exact H1 |].
  unfold lookup_this, get. now rewrite H2, Hproto, (library_no_callbacks k Hin).
Qed.

(** ** The first thing a global-mode sketch does *)

Lemma extends_closed t0 okd okp okv oko okc : closed (extends t0) okd okp okv oko okc.
Proof.
  assert (Hl : forall o w, extends t0 w -> extends t0 (log o w))
    by (intros o w; apply extends_log).
  constructor; try (intros; assumption).
  - intros; now apply Hl.
  - intros; apply target_set_keeps; intros; assumption.
  - intros; apply setProperty_keeps; intros; assumption.
  - apply runFrames_keeps; try (intros; assumption); intros; now apply Hl.
  - apply call_loader_keeps; try (intros; assumption).
    + intros; now apply Hl.
    + intros; apply setProperty_keeps; intros; assumption.
Qed.

Lemma extends_launch_rest t0 body :
  keeps (extends t0) (run_script body;;; _runFrames;;; _draw).
Proof.
  pose proof (extends_closed t0 (fun _ => True) (fun _ => True)
                (fun _ => True) (fun _ => True) (fun _ => True)) as HC.
  assert (Hs : forall w, extends t0 w ->
                         scripts_sat (assigns_only (fun _ => True)) w)
    by (intros; apply scripts_sat_any).
  assert (Hb : Forall (assigns_only (fun _ : string => True)) body).
  { exact (val_sat_any (VFun (FUser body))). }
  apply keeps_bind; [| intros _].
  { apply (rt_run_script _ _ _ _ _ _ HC); auto. }
  apply keeps_bind; [apply (cl_runFrames _ _ _ _ _ _ HC) | intros _].
  apply (rt_draw _ _ _ _ _ _ HC); auto.
  intros d w Hw. now apply (extends_log t0 (OSchedule (S (next_id w)) d)).
Qed.

(** [_start] on an instance without preload callback whose setup
    callback is the global [setup]: after the canvas is made, the
    callback is entered, and the rest follows. *)
Lemma start_enters_global_setup g body :
  this g !! "preload" = None -> this g !! "setup" = None ->
  prototype g = library ->
  truthy (get (window g) "preload") = false ->
  window g !! "setup" = Some (VFun (FUser body)) ->
  exists g2,
    trace g2 = trace g /\
    _start g = (run_script body;;; _runFrames;;; _draw) (log OSetup g2).
Proof.
  intros Hp Hs Hproto Hwp Hws.
  set (K := fun u : world =>
    this u !! "preload" = None /\ this u !! "setup" = None /\
    prototype u = library /\ window u = window g /\ trace u = trace g).
  set (g1 := upd_curElement (fun _ => Some blank_context)
               (upd_this (insert "curElement" (VObj (S (next_id g))))
                  (upd_next_id S g))).
  assert (E1 : createCanvas (of_Z 800) (of_Z 600) true g = Ok tt g1)
    by reflexivity.
  assert (K1 : K g1).
  { unfold K, g1. simpl. rewrite !lookup_insert_ne by discriminate. auto. }
  assert (E2 : forall node, exists g2,
    when (truthy node && is_string node)
         (e <~ getElementById node;; this_set "_userNode" e) g1 = Ok tt g2 /\
    K g2).
  { intros node. destruct (truthy node && is_string node).
    - eexists. split; [reflexivity |]. destruct K1 as (A & B & C & D & F).
      unfold K. simpl. rewrite !lookup_insert_ne by discriminate. auto.
    - exists g1. split; [reflexivity | exact K1]. }
  destruct (E2 (lookup_this g1 "_userNode")) as (g2 & E3 & A & B & C & D & F).
  exists g2. split; [exact F |].
  assert (Lp : lookup_this g2 "preload" = VUndefined).
  { unfold lookup_this, get. rewrite A, C. reflexivity. }
  assert (Ls : lookup_this g2 "setup" = VUndefined).
  { unfold lookup_this, get. rewrite B, C. reflexivity. }
  assert (Ws : get (window g2) "setup" = VFun (FUser body)).
  { unfold get. now rewrite D, Hws. }
  unfold _start. rewrite (bind_Ok _ _ _ _ _ E1).
  unfold this_get at 1. rewrite bind_gets, (bind_Ok _ _ _ _ _ E3).
  unfold this_get, window_get. rewrite !bind_gets, Lp, D.
  rewrite (bind_Ok _ _ _ _ _ (pick_context_eq g2)).
  unfold js_or at 1. simpl (truthy VUndefined). cbv iota.
  rewrite Hwp.
  unfold bind at 1, _setup, this_get, window_get. rewrite !bind_gets, Ls, Ws.
  reflexivity.
Qed.

(** In global mode, on a page that has finished loading, the first
    thing the library does that a sketch can observe is to call the
    sketch's global [setup]: the constructor's copying of methods,
    properties and constants to [window] leaves the global in place,
    and [_start], finding no preload callback, finds it there.  Neither
    [setup] nor [preload] must be the name of a constant. *)
Theorem global_setup_first node win e now body w' :
  ready e = true ->
  win !! "setup" = Some (VFun (FUser body)) ->
  truthy (get win "preload") = false ->
  constants e !! "setup" = None -> constants e !! "preload" = None ->
  world_of (p5 None node (page win library e now)) = Some w' ->
  exists rest, history w' = OSetup :: rest.
Proof.
  intros Hready Hsetup Hpre Hcs Hcp Hr.
  destruct (construct_global_page node win library e now library_bindable)
    as (g & E & Hwin & Hproto & Henv & Htr & Hown).
  destruct (global_page_lookups win e g Hwin Hproto Hown) as [_ Hk].
  destruct (Hk "setup") as [Hws Hts]; [simpl; auto | exact Hcs |].
  destruct (Hk "preload") as [Hwp Htp]; [simpl; auto | exact Hcp |].
  unfold p5 in Hr.
  rewrite (bind_Ok _ _ _ _ _ E), bind_gets, Henv, Hready in Hr.
  destruct (start_enters_global_setup g body) as (g2 & Ht2 & E2); auto.
  { unfold get. now rewrite Hwp. }
  { now rewrite Hws. }
  rewrite E2 in Hr.
  assert (H : extends [OSetup] w').
  { apply (wp_world_of _ (extends [OSetup]) _ _
             (extends_launch_rest [OSetup] body (log OSetup g2)
                ltac:(exists []; simpl; now rewrite Ht2, Htr)) Hr). }
  destruct H as [l Hl]. exists (rev l).
  unfold history. rewrite Hl, rev_app_distr. reflexivity.
Qed.

Lemma global_setup_first_witness :
  ready loaded = true /\
  sketch_globals !! "setup" = Some (VFun (FUser [])) /\
  truthy (get sketch_globals "preload") = false /\
  constants loaded !! "setup" = None /\
  constants loaded !! "preload" = None /\
  world_of (p5 None VUndefined (page sketch_globals library loaded 100))
    = Some global_sketch /\
  exists rest, history global_sketch = OSetup :: rest.
Proof.
  assert (H1 : ready loaded = true) by reflexivity.
  assert (H2 : sketch_globals !! "setup" = Some (VFun (FUser [])))
    by (vm_compute; reflexivity).
  assert (H3 : truthy (get sketch_globals "preload") = false)
    by (vm_compute; reflexivity).
  assert (H4 : constants loaded !! "setup" = None)
    by (vm_compute; reflexivity).
  assert (H5 : constants loaded !! "preload" = None)
    by (vm_compute; reflexivity).
  assert (H6 : world_of (p5 None VUndefined
                           (page sketch_globals library loaded 100))
               = Some global_sketch).
  { unfold global_sketch, global_world. computed. }
  split; [exact H1 |]. split; [exact H2 |]. split; [exact H3 |].
  split; [exact H4 |]. split; [exact H5 |]. split; [exact H6 |].
  exact (global_setup_first _ _ _ _ _ _ H1 H2 H3 H4 H5 H6).
Defined.

(* ===================================================================== *)
(** * Further properties: the geometry of [arc] *)
(* ===================================================================== *)






Section Tracing.

Variables (w0 : world) (k : context2d).






End Tracing.




(* ===================================================================== *)
(** * Further properties: instance mode and the global scope *)
(* ===================================================================== *)

Lemma isolated_closed W okd okp okv oko okc :
  (forall k, okd k -> k <> "_isGlobal") ->
  (forall k, okp k -> k <> "_isGlobal") ->
  (forall c, okc c -> c = OnThis) ->
  closed (isolated W) okd okp okv oko okc.
Proof.
  intros Hd Hp Hc.
  assert (Ht : forall k x w, k <> "_isGlobal" -> isolated W w ->
                             isolated W (upd_this (insert k x) w)).
  { intros k x w Hk [Hg Hw]. unfold isolated. simpl.
    now rewrite lookup_insert_ne. }
  assert (Hs : forall k x, k <> "_isGlobal" ->
                           keeps (isolated W) (_setProperty k x)).
  { intros k x Hk w Hw. unfold wp.
    assert (G : truthy (lookup_this (upd_this (insert k x) w) "_isGlobal")
                = false).
    { rewrite lookup_this_insert.
      rewrite (proj2 (String.eqb_neq _ _) Hk).
      now rewrite (lookup_this_own _ _ _ (proj1 Hw)). }
    destruct (setProperty_cases k x w)
      as [-> | [-> | [[_ ->] | [(T & _) | (T & _)]]]].
    - exact Logic.I.
    - exact Hw.
    - now apply Ht.
    - rewrite G in T. discriminate T.
    - rewrite G in T. discriminate T. }
  constructor; try (intros; assumption).
  - intros; auto.
  - intros c k x Hoc Hk _. rewrite (Hc c Hoc). apply keeps_modify.
    intros w. apply Ht. now apply (loader_neq k "_isGlobal").
  - intros; apply Hs; auto.
  - apply runFrames_keeps; try (intros; assumption).
    intros. now apply Ht.
  - apply call_loader_keeps; try (intros; assumption).
    intros. now apply Hs.
Qed.

Lemma isolated_dispatch W now e :
  keeps (fun w => scripts_sat (leaves "_isGlobal") w /\ isolated W w)
        (dispatch now e).
Proof.
  apply rt_dispatch_all
    with (okd := fun k => k <> "_isGlobal") (okp := fun k => k <> "_isGlobal")
         (okv := val_sat (leaves "_isGlobal")) (oko := fun _ => True)
         (okc := fun c => c = OnThis);
    try discriminate; try (intros; exact Logic.I).
  - apply closed_and; [now apply scripts_closed | now apply isolated_closed].
  - now intros [].
  - now intros w [Hs _].
  - apply hosted_and; [apply scripts_hosted |].
    constructor; intros; assumption.
  - intros w k [(_ & _ & Hs) _]. now apply obj_sat_get.
  - intros w [_ [Hg _]]. unfold context_of.
    now rewrite (lookup_this_own _ _ _ Hg).
Qed.

(** In instance mode a sketch leaves the global scope alone.  No run
    of the event loop changes any property of [window]: [_setProperty]
    writes on the instance only, and [_start] and [_preload] take the
    instance for their [context], so that the wrappers of the loaders
    go on the instance too.  The mode does not change either, provided
    that no callback assigns [_isGlobal].  (This is about core.js:
    [createCanvas] and the loaders, which are not among the sources,
    are taken not to assign anything on [window].) *)
Theorem instance_mode_isolation evs w w' :
  this w !! "_isGlobal" = Some (VBool false) ->
  scripts_sat (leaves "_isGlobal") w ->
  run evs w = Some w' ->
  window w' = window w /\ this w' !! "_isGlobal" = Some (VBool false).
Proof.
  intros Hg Hs Hr.
  destruct (run_keeps _ (isolated_dispatch (window w)) evs w w'
              (conj Hs (conj Hg eq_refl)) Hr) as [_ [H1 H2]].
  now split.
Qed.

Lemma instance_mode_isolation_witness :
  this late_loading_sketch !! "_isGlobal" = Some (VBool false) /\
  scripts_sat (leaves "_isGlobal") late_loading_sketch /\
  run late_loading_run late_loading_sketch
    = Some (after late_loading_run late_loading_sketch) /\
  window (after late_loading_run late_loading_sketch)
    = window late_loading_sketch.
Proof.
  assert (Hg : this late_loading_sketch !! "_isGlobal" = Some (VBool false))
    by (vm_compute; reflexivity).
  assert (Hs : scripts_sat (leaves "_isGlobal") late_loading_sketch).
  { apply (@bool_decide_unpack _
             (scripts_sat_dec _ (leaves_dec "_isGlobal") late_loading_sketch)).
    vm_compute. exact I. }
  assert (Hr : run late_loading_run late_loading_sketch
               = Some (after late_loading_run late_loading_sketch))
    by computed.
  split; [exact Hg |]. split; [exact Hs |]. split; [exact Hr |].
  exact (proj1 (instance_mode_isolation _ _ _ Hg Hs Hr)).
Defined.

(* ===================================================================== *)
(** * Further properties: the number of draw loops *)
(* ===================================================================== *)

Lemma wp_and {A} (m : M A) (Q Q' : A -> world -> Prop) (E E' : world -> Prop) w :
  wp m Q E w -> wp m Q' E' w ->
  wp m (fun a u => Q a u /\ Q' a u) (fun u => E u /\ E' u) w.
Proof. unfold wp. destruct (m w); auto. Qed.

Lemma bounded_closed B okd okp okv oko okc :
  closed (bounded B) okd okp okv oko okc.
Proof.
  constructor; try (intros; assumption).
  - intros; apply target_set_keeps; intros; assumption.
  - intros; apply setProperty_keeps; intros; assumption.
  - apply runFrames_keeps; intros; assumption.
  - apply call_loader_keeps; try (intros; assumption).
    intros; apply setProperty_keeps; intros; assumption.
Qed.

(** [_draw] makes at most one draw pending. *)
Lemma draw_pending w :
  wp _draw (fun _ => bounded (S (pending w))) (bounded (S (pending w))) w.
Proof.
  unfold wp. pose proof (draw_unfold_any w) as U.
  destruct (to_number (lookup_this w "_lastFrameTime")) as [l |];
    [| now rewrite U].
  cbv zeta in U. rewrite U. clear U.
  set (w1 := upd_this _ (upd_this _ w)).
  set (userDraw := js_or (lookup_this w "draw") (get (window w) "draw")).
  set (P := bounded (S (pending w))).
  assert (R : forall u, P u ->
    wp (when (is_function userDraw) (call_user ODraw userDraw);;;
        on_context (ctx_call (CSetTransform (of_Z 1) (of_Z 0) (of_Z 0)
                                            (of_Z 1) (of_Z 0) (of_Z 0))))
       (fun _ => P) P u).
  { intros u Hu.
    apply (wp_mono _ _ _ _ _ _
             (draw_rest_keeps_timers (timeouts u) (frames u) userDraw u
                (conj eq_refl eq_refl)));
      [intros _ u' [E1 E2] | intros u' [E1 E2]];
      unfold P, bounded, pending in *; rewrite E1, E2; exact Hu. }
  change (wp (when (truthy (get (settings w) "loop"))
                (r <~ this_get "_targetFrameRate";;
                 d <~ arith (js_div (vint 1000) r);;
                 setTimeout (as_number d);;; ret tt);;;
              when (is_function userDraw) (call_user ODraw userDraw);;;
              on_context (ctx_call (CSetTransform (of_Z 1) (of_Z 0) (of_Z 0)
                                                  (of_Z 1) (of_Z 0) (of_Z 0))))
             (fun _ => P) P w1).
  apply wp_bind.
  destruct (truthy (get (settings w) "loop")); simpl.
  - unfold wp, this_get. rewrite bind_gets.
    destruct (js_div (vint 1000) (lookup_this w1 "_targetFrameRate"))
      as [d |]; [| exact Logic.I].
    simpl. apply R. unfold P, bounded, pending, w1. simpl.
    rewrite map_size_insert.
    destruct (timeouts w !! S (next_id w)); unfold id; lia.
  - apply R. unfold P, bounded, pending, w1. simpl. lia.
Qed.

Lemma started_draw : keeps started _draw.
Proof.
  apply (rt_draw started (fun _ => True) (fun _ => True) no_wrap
           (fun _ => True) (fun _ => True));
    try exact Logic.I.
  - now apply started_closed.
  - exact data_no_wrap.
  - intros; apply scripts_sat_any.
  - intros d w Hw. exact Hw.
Qed.

Lemma filter_shortens (h : nat) fs :
  h ∈ fs -> (length (filter (fun x => x <> h) fs) < length fs)%nat.
Proof.
  intros Hin. induction fs as [| x fs IH]; [inversion Hin |].
  rewrite filter_cons. destruct (decide (x <> h)) as [Hx | Hx]; simpl.
  - apply elem_of_cons in Hin as [-> | Hin]; [congruence |].
    specialize (IH Hin). lia.
  - pose proof (length_filter (fun x => x <> h) fs). lia.
Qed.

Lemma started_bounded B now e :
  keeps (fun w => started w /\ bounded B w) (dispatch now e).
Proof.
  apply started_dispatch with (oko := fun _ => True).
  - apply bounded_closed.
  - exact Logic.I.
  - intros id w Hw. exact Hw.
  - intros h w [Hs Hb] [d Hd]. split; [exact Hs |].
    unfold bounded, pending in *. simpl.
    rewrite length_app, map_size_delete, Hd. simpl.
    assert (size (timeouts w) <> 0)%nat.
    { intros Hz. apply map_size_empty_inv in Hz. rewrite Hz in Hd.
      now rewrite lookup_empty in Hd. }
    lia.
  - intros h w [Hs Hb] Hh. unfold wp. rewrite bind_modify.
    set (w1 := upd_frames (filter (fun x => x <> h)) w).
    assert (H1 : (S (pending w1) <= B)%nat).
    { pose proof (filter_shortens h (frames w) Hh).
      unfold bounded, pending in *. simpl. lia. }
    pose proof (wp_and _ _ _ _ _ _ (started_draw w1 Hs) (draw_pending w1)) as K.
    unfold wp in K. destruct (_draw w1) as [a u | x u |]; [| | exact Logic.I];
      (split; [exact (proj1 K) |]); destruct K as [_ K];
      unfold bounded in *; lia.
Qed.

(** Draw loops do not multiply.  Once the preload phase is over, no
    run of the event loop makes more draws pending than there are:
    a timeout that expires becomes one requested frame, a frame that is
    drawn schedules at most one timeout, and nothing else schedules a
    draw.  A sketch that runs one draw loop when it has started goes on
    with one at most. *)
Theorem draw_loops_do_not_multiply evs w w' :
  started w -> run evs w = Some w' ->
  (pending w' <= pending w)%nat.
Proof.
  intros Hs Hr.
  exact (proj2 (run_keeps _ (started_bounded (pending w)) evs w w'
                  (conj Hs (le_n _)) Hr)).
Qed.

Lemma draw_loops_do_not_multiply_witness :
  started late_loading_sketch /\
  run late_loading_run late_loading_sketch
    = Some (after late_loading_run late_loading_sketch) /\
  (pending (after late_loading_run late_loading_sketch)
   <= pending late_loading_sketch)%nat.
Proof.
  assert (Hs : started late_loading_sketch).
  { apply (@bool_decide_unpack _ (started_dec late_loading_sketch)).
    vm_compute. exact I. }
  assert (Hr : run late_loading_run late_loading_sketch
               = Some (after late_loading_run late_loading_sketch))
    by computed.
  split; [exact Hs | split; [exact Hr |]].
  exact (draw_loops_do_not_multiply _ _ _ Hs Hr).
Defined.

(* ===================================================================== *)
(** * Further properties: instance mode, from construction on *)
(* ===================================================================== *)

Lemma foldl_insert_notin (kvs : list (string * value)) (o : obj) k :
  ~ In k (map fst kvs) ->
  foldl (fun o kv => <[kv.1 := kv.2]> o) o kvs !! k = o !! k.
Proof.
  revert o. induction kvs as [| [j v] kvs IH]; intros o Hk; [reflexivity |].
  simpl in *. rewrite IH by tauto. apply lookup_insert_ne. tauto.
Qed.

Lemma obj_sat_foldl phi (kvs : list (string * value)) (o : obj) :
  obj_sat phi o -> Forall (fun kv => val_sat phi (snd kv)) kvs ->
  obj_sat phi (foldl (fun o kv => <[kv.1 := kv.2]> o) o kvs).
Proof.
  intros Ho Hk. revert o Ho. induction Hk as [| [j v] kvs Hv _ IH];
    intros o Ho; [exact Ho |].
  simpl. apply IH. now apply obj_sat_insert.
Qed.

Lemma obj_sat_union phi (a b : obj) :
  obj_sat phi a -> obj_sat phi b -> obj_sat phi (a ∪ b).
Proof.
  intros Ha Hb k v Hk. apply lookup_union_Some_raw in Hk as [Hk | [_ Hk]].
  - exact (Ha k v Hk).
  - exact (Hb k v Hk).
Qed.

Lemma library_sat phi : obj_sat phi library.
Proof. intros m v Hm. destruct (library_methods m v Hm) as [-> _]. exact Logic.I. Qed.

Lemma own_sat_assign phi kvs :
  Forall (fun kv => val_sat phi (snd kv)) kvs ->
  keeps (own_sat phi) (assign_all kvs).
Proof.
  intros Hk. apply keeps_modify. intros w [H1 H2]. split; [| exact H2].
  now apply obj_sat_foldl.
Qed.

Lemma own_sat_this_set phi k v :
  val_sat phi v -> keeps (own_sat phi) (this_set k v).
Proof.
  intros Hv. apply keeps_modify. intros w [H1 H2]. split; [| exact H2].
  now apply obj_sat_insert.
Qed.

Lemma own_sat_alloc phi k : keeps (own_sat phi) (a <~ alloc;; this_set k a).
Proof.
  intros w [H1 H2]. split; [| exact H2]. now apply obj_sat_insert.
Qed.

(** The own properties the constructor assigns hold no user function
    but those among the constants, if any. *)
Lemma own_sat_own_properties phi node :
  is_function node = false -> keeps (own_sat phi) (own_properties node).
Proof.
  intros Hn.
  assert (Hd : forall x, is_function x = false -> val_sat phi x)
    by (now intros []).
  unfold own_properties.
  apply keeps_bind; [apply keeps_gets | intros scr].
  apply keeps_bind_gets_sat with (P := obj_sat phi); [now intros w [_ H] |].
  intros k Hk.
  repeat (apply keeps_bind; [| intros _]);
    try apply own_sat_alloc;
    try (apply own_sat_this_set; exact Logic.I);
    try (apply own_sat_assign; repeat constructor;
         try apply Hd; try apply obj_sat_get; assumption);
    try (apply keeps_modify; intros w Hw; exact Hw).
  - unfold getTime.
    apply keeps_bind_gets_sat with (P := fun x => is_function x = false);
      [intros; reflexivity | intros t Ht].
    now apply own_sat_this_set, Hd.
  - apply own_sat_assign.
    repeat (apply Forall_cons_2;
            [first [exact Logic.I | exact (Hd _ Hn) | now apply obj_sat_get] |]).
    apply Forall_nil_2.
Qed.

(** Instance-mode construction on a page. *)
Lemma construct_instance_page phi attrs node win e now :
  ~ In "_isGlobal" (map fst attrs) ->
  is_function node = false ->
  Forall (fun kv => val_sat phi (snd kv)) attrs ->
  obj_sat phi win -> obj_sat phi (constants e) ->
  exists w1,
    construct (Some attrs) node (page win library e now) = Ok tt w1 /\
    window w1 = win /\ env w1 = e /\ onload w1 = false /\
    this w1 !! "_isGlobal" = Some (VBool false) /\
    scripts_sat phi w1.
Proof.
  intros Hg Hn Ha Hw Hc.
  destruct (own_properties_page node win library e now)
    as (w1 & E & _ & Hig & Hwin & Hproto & Henv & _ & Hol).
  assert (Hs : own_sat phi w1).
  { assert (H0 : own_sat phi (page win library e now))
      by (split; [apply map_Forall_empty | exact Hc]).
    apply (wp_world_of _ (own_sat phi) (page win library e now) w1
             (own_sat_own_properties phi node Hn _ H0)).
    now rewrite E. }
  unfold construct. rewrite (bind_Ok _ _ _ _ _ E).
  unfold assign_all, bind, gets, modify. simpl.
  eexists. split; [reflexivity |]. simpl.
  split; [exact Hwin |]. split; [exact Henv |]. split; [exact Hol |].
  split; [now rewrite foldl_insert_notin |].
  unfold scripts_sat. simpl. rewrite Hwin, Hproto, Henv. split; [| split].
  - apply obj_sat_foldl; [exact (proj1 Hs) | exact Ha].
  - exact Hw.
  - apply obj_sat_union; [exact Hc | apply library_sat].
Qed.

(** To start at once is to register for the load event and to have it
    fire at once. *)
Lemma start_as_load w :
  onload w = false ->
  dispatch (clock w) EvLoad (upd_onload (fun _ => true) w) = _start w.
Proof. intros H. destruct w. simpl in H. subst. reflexivity. Qed.

Lemma wp_same {A} (m m' : M A) Q E w w' :
  m w = m' w' -> wp m Q E w -> wp m' Q E w'.
Proof. unfold wp. now intros ->. Qed.

Lemma p5_after_construct sketch node w w1 :
  construct sketch node w = Ok tt w1 ->
  p5 sketch node w
  = if ready (env w1) then _start w1
    else Ok tt (upd_onload (fun _ => true) w1).
Proof.
  intros E. unfold p5. rewrite (bind_Ok _ _ _ _ _ E), bind_gets.
  now destruct (ready (env w1)).
Qed.

Lemma isolated_start W w :
  onload w = false ->
  scripts_sat (leaves "_isGlobal") w /\ isolated W w ->
  wp _start
     (fun _ u => scripts_sat (leaves "_isGlobal") u /\ isolated W u)
     (fun u => scripts_sat (leaves "_isGlobal") u /\ isolated W u) w.
Proof.
  intros Hol [Hs [Hg Hw]].
  assert (H1 : scripts_sat (leaves "_isGlobal") (upd_onload (fun _ => true) w)
               /\ isolated W (upd_onload (fun _ => true) w))
    by (split; [exact Hs | split; [exact Hg | exact Hw]]).
  exact (wp_same _ _ _ _ _ _ (start_as_load w Hol)
           (isolated_dispatch W (clock w) EvLoad _ H1)).
Qed.

Lemma isolated_p5 attrs node win e now w0 :
  ~ In "_isGlobal" (map fst attrs) ->
  is_function node = false ->
  Forall (fun kv => val_sat (leaves "_isGlobal") (snd kv)) attrs ->
  obj_sat (leaves "_isGlobal") win ->
  obj_sat (leaves "_isGlobal") (constants e) ->
  world_of (p5 (Some attrs) node (page win library e now)) = Some w0 ->
  scripts_sat (leaves "_isGlobal") w0 /\ isolated win w0.
Proof.
  intros Hg Hn Ha Hw Hc H0.
  destruct (construct_instance_page (leaves "_isGlobal") attrs node win e now
              Hg Hn Ha Hw Hc) as (w1 & E & Hwin & Henv & Hol & Hig & Hs).
  assert (I1 : scripts_sat (leaves "_isGlobal") w1 /\ isolated win w1)
    by (split; [exact Hs | split; [exact Hig | exact Hwin]]).
  rewrite (p5_after_construct _ _ _ _ E) in H0.
  destruct (ready (env w1)).
  - exact (wp_world_of _ _ _ _ (isolated_start win w1 Hol I1) H0).
  - injection H0 as <-. exact I1.
Qed.

(** An instance-mode sketch never touches the global scope, from its
    construction on.  Whether the page has finished loading when the
    sketch is constructed or not, neither the constructor, nor
    [_start], nor any run of the event loop after it changes a property
    of [window]: provided that the sketch does not assign [_isGlobal],
    neither in its closure nor in a callback, and that [node] is not a
    function. *)
Theorem instance_sketch_leaves_window attrs node win e now w0 evs w' :
  ~ In "_isGlobal" (map fst attrs) ->
  is_function node = false ->
  Forall (fun kv => val_sat (leaves "_isGlobal") (snd kv)) attrs ->
  obj_sat (leaves "_isGlobal") win ->
  obj_sat (leaves "_isGlobal") (constants e) ->
  world_of (p5 (Some attrs) node (page win library e now)) = Some w0 ->
  run evs w0 = Some w' ->
  window w' = win.
Proof.
  intros Hg Hn Ha Hw Hc H0 Hr.
  pose proof (isolated_p5 attrs node win e now w0 Hg Hn Ha Hw Hc H0) as I0.
  destruct (run_keeps _ (isolated_dispatch win) evs w0 w' I0 Hr)
    as [_ [_ H]].
  exact H.
Qed.

Lemma instance_sketch_leaves_window_witness :
  ~ In "_isGlobal" (map fst shy_sketch_attrs) /\
  is_function VUndefined = false /\
  Forall (fun kv => val_sat (leaves "_isGlobal") (snd kv)) shy_sketch_attrs /\
  obj_sat (leaves "_isGlobal") sketch_globals /\
  obj_sat (leaves "_isGlobal") (constants loading) /\
  world_of (p5 (Some shy_sketch_attrs) VUndefined
              (page sketch_globals library loading 100)) = Some shy_sketch /\
  run shy_run shy_sketch = Some (after shy_run shy_sketch) /\
  window (after shy_run shy_sketch) = sketch_globals.
Proof.
  assert (H1 : ~ In "_isGlobal" (map fst shy_sketch_attrs))
    by (simpl; intuition discriminate).
  assert (H2 : is_function VUndefined = false) by reflexivity.
  assert (H3 : Forall (fun kv => val_sat (leaves "_isGlobal") (snd kv))
                      shy_sketch_attrs).
  { repeat (apply Forall_cons_2; [simpl; repeat constructor; discriminate |]).
    apply Forall_nil_2. }
  assert (H4 : obj_sat (leaves "_isGlobal") sketch_globals).
  { apply (@bool_decide_unpack _
             (obj_sat_dec _ (leaves_dec "_isGlobal") sketch_globals)).
    vm_compute. exact I. }
  assert (H5 : obj_sat (leaves "_isGlobal") (constants loading)).
  { apply (@bool_decide_unpack _
             (obj_sat_dec _ (leaves_dec "_isGlobal") (constants loading))).
    vm_compute. exact I. }
  assert (H6 : world_of (p5 (Some shy_sketch_attrs) VUndefined
                           (page sketch_globals library loading 100))
               = Some shy_sketch).
  { unfold shy_sketch, shy_page. computed. }
  assert (H7 : run shy_run shy_sketch = Some (after shy_run shy_sketch))
    by computed.
  split; [exact H1 |]. split; [exact H2 |]. split; [exact H3 |].
  split; [exact H4 |]. split; [exact H5 |]. split; [exact H6 |].
  split; [exact H7 |].
  exact (instance_sketch_leaves_window _ _ _ _ _ _ _ _ H1 H2 H3 H4 H5 H6 H7).
Defined.
